(** * 360APP: the appraisal aggregation hook and the report exporters

    A shallow embedding of [useDemoAppraisalData] (filter, manager
    summaries, competency scores, score distribution, feedback themes) and
    of the analytics helpers of the export button
    ([calculateCompetencyScores], [getScoreDistribution], the tier label of
    the rankings sheet).

    Conventions of the embedding.
    - A response row follows the table [demo_appraisal_responses]: the
      thirteen score columns are nullable integers, the text columns are
      nullable strings.  [None] is JavaScript's [null].
    - JavaScript numbers are IEEE 754 binary64 numbers.  Module [F64]
      gives them with their rounding (to nearest, ties to even, overflow to
      an infinity), and [Hook64] and [Exporter64] give the averages, scores
      and percentages of the hook and of the exporters as the program
      computes them: every sum, quotient and product is rounded, and
      [parseFloat(x.toFixed(n))] picks the decimal from the exact value of
      the binary64 number [x] and reads it back.  The statements about
      the value of such a figure are made there.
    - The first embedding of the hook and of the exporters
      ([managerSummaries], [competencyScores], [Exporter], ...) has the
      same functions over the exact rationals [Q], without the rounding
      of the binary64 operations, and [toFixed] followed by [parseFloat]
      as rounding to the nearest multiple of a power of ten, ties away
      from zero.  It carries the statements about grouping, order, counts
      and bounds; its numbers are compared with [==] ([Qeq]).
    - A JavaScript string is a [string] whose characters are code units
      below 256; [toLowerCase] and [trim] are given on that range.
    - [Map<string, ...>] is an association list in insertion order (the
      order is observable through [forEach]); [Set<string>] is a [gset];
      the score distribution object is a [gmap]; a counter object is the
      list of its properties as they were created, and [Obj.entries]
      gives the order in which JavaScript lists them. *)

From Stdlib Require Import Ascii String ZArith QArith Qround Lia Lqa Permutation.
From stdpp Require Import gmap strings list fin_maps sets sorting pretty.

Open Scope string_scope.
Open Scope list_scope.

(** ** Data model *)

Record AppraisalResponse := mkResponse {
  response_id : string;
  manager_name : string;
  relationship : option string;
  response_number : option Z;
  timestamp : option string;
  created_at : option string;
  empowers_team_score : option Z;
  final_say_score : option Z;
  mentors_coaches_score : option Z;
  effective_direction_score : option Z;
  establishes_rapport_score : option Z;
  sets_clear_goals_score : option Z;
  open_to_ideas_score : option Z;
  sense_of_urgency_score : option Z;
  analyzes_change_score : option Z;
  confidence_integrity_score : option Z;
  patient_humble_score : option Z;
  flat_collaborative_score : option Z;
  approachable_score : option Z;
  stop_doing : option string;
  start_doing : option string;
  continue_doing : option string;
  results_orientation_comments : option string;
  cultural_fit_comments : option string;
  team_leadership_comments : option string
}.

Record FilterState := mkFilter {
  managers : list string;
  relationships : list string;
  scoreRange : Z * Z
}.

Record ManagerSummary := mkSummary {
  ms_manager_name : string;
  total_responses : nat;
  avg_team_leadership : Q;
  avg_results_orientation : Q;
  avg_cultural_fit : Q;
  overall_score : Q;
  responses : list AppraisalResponse
}.

Record CompetencyScore := mkCompetencyScore {
  cs_name : string;
  score : Q;
  maxScore : Q;
  cs_percentage : Q
}.

Record FeedbackThemes := mkThemes {
  stopDoing : list string;
  startDoing : list string;
  continueDoing : list string
}.

(** The string keys used to index a response ([(r as any)[key]]). *)
Inductive ScoreKey :=
  | k_empowers_team | k_mentors_coaches | k_effective_direction
  | k_establishes_rapport | k_sets_clear_goals | k_open_to_ideas
  | k_sense_of_urgency | k_analyzes_change | k_final_say
  | k_confidence_integrity | k_patient_humble | k_flat_collaborative
  | k_approachable.

Definition key_string (k : ScoreKey) : string :=
  match k with
  | k_empowers_team => "empowers_team_score"
  | k_mentors_coaches => "mentors_coaches_score"
  | k_effective_direction => "effective_direction_score"
  | k_establishes_rapport => "establishes_rapport_score"
  | k_sets_clear_goals => "sets_clear_goals_score"
  | k_open_to_ideas => "open_to_ideas_score"
  | k_sense_of_urgency => "sense_of_urgency_score"
  | k_analyzes_change => "analyzes_change_score"
  | k_final_say => "final_say_score"
  | k_confidence_integrity => "confidence_integrity_score"
  | k_patient_humble => "patient_humble_score"
  | k_flat_collaborative => "flat_collaborative_score"
  | k_approachable => "approachable_score"
  end.

Definition get_score (k : ScoreKey) (r : AppraisalResponse) : option Z :=
  match k with
  | k_empowers_team => empowers_team_score r
  | k_mentors_coaches => mentors_coaches_score r
  | k_effective_direction => effective_direction_score r
  | k_establishes_rapport => establishes_rapport_score r
  | k_sets_clear_goals => sets_clear_goals_score r
  | k_open_to_ideas => open_to_ideas_score r
  | k_sense_of_urgency => sense_of_urgency_score r
  | k_analyzes_change => analyzes_change_score r
  | k_final_say => final_say_score r
  | k_confidence_integrity => confidence_integrity_score r
  | k_patient_humble => patient_humble_score r
  | k_flat_collaborative => flat_collaborative_score r
  | k_approachable => approachable_score r
  end.

#[global] Instance ScoreKey_eq_dec : EqDecision ScoreKey.
Proof. solve_decision. Defined.

(** ** JavaScript primitives used by the hook *)

Module JS.

(** Truthiness of a nullable string: [null] and [""] are falsy. *)
Definition truthy (v : option string) : bool :=
  match v with
  | Some s => negb (String.eqb s "")
  | None => false
  end.

(** [Array.prototype.includes] on an array of strings. *)
Definition includes (l : list string) (x : string) : bool :=
  existsb (String.eqb x) l.

(** White space and line terminators stripped by [trim], below 256. *)
Definition is_white (c : ascii) : bool :=
  let n := N_of_ascii c in
  (((9 <=? n) && (n <=? 13)) || (n =? 32) || (n =? 160))%N.

(** [toLowerCase] on one code unit: A-Z, and the Latin-1 capitals
    U+00C0..U+00DE except the multiplication sign U+00D7. *)
Definition lower_char (c : ascii) : ascii :=
  let n := N_of_ascii c in
  if (((65 <=? n) && (n <=? 90))
      || ((192 <=? n) && (n <=? 222) && negb (n =? 215)))%N
  then ascii_of_N (n + 32) else c.

Fixpoint toLowerCase (s : string) : string :=
  match s with
  | EmptyString => EmptyString
  | String c s' => String (lower_char c) (toLowerCase s')
  end.

Fixpoint trimStart (s : string) : string :=
  match s with
  | EmptyString => EmptyString
  | String c s' => if is_white c then trimStart s' else s
  end.

Fixpoint trimEnd (s : string) : string :=
  match s with
  | EmptyString => EmptyString
  | String c s' =>
      match trimEnd s' with
      | EmptyString => if is_white c then EmptyString else String c EmptyString
      | t => String c t
      end
  end.

Definition trim (s : string) : string := trimEnd (trimStart s).

(** [arr.join(sep)]. *)
Fixpoint join (sep : string) (l : list string) : string :=
  match l with
  | [] => ""
  | [x] => x
  | x :: rest => x +:+ sep +:+ join sep rest
  end.

End JS.

(** ** The filter ([filteredResponses]) *)

Definition keep_response (filters : FilterState) (response : AppraisalResponse) : bool :=
  if (0 <? length (managers filters))%nat
     && negb (JS.includes (managers filters) (manager_name response))
  then false
  else if (0 <? length (relationships filters))%nat
          && JS.truthy (relationship response)
          && negb (match relationship response with
                   | Some rel => JS.includes (relationships filters) rel
                   | None => false
                   end)
  then false
  else true.

Definition filteredResponses (all : list AppraisalResponse) (filters : FilterState)
  : list AppraisalResponse :=
  List.filter (keep_response filters) all.

(** ** Numbers *)

Module Num.

(** [arr.reduce((a, b) => a + b, 0)]. *)
Definition reduce_sum (arr : list Q) : Q := fold_left Qplus arr 0%Q.

Definition len (arr : list Q) : Q := inject_Z (Z.of_nat (length arr)).

Definition Qlt_bool (a b : Q) : bool := negb (Qle_bool b a).

(** Nearest integer, ties away from zero. *)
Definition round_half_away (x : Q) : Z :=
  if Qle_bool 0 x then Qfloor (x + (1 # 2)) else (- Qfloor (- x + (1 # 2)))%Z.

(** [parseFloat(x.toFixed(2))] and [parseFloat(x.toFixed(1))] on an exact
    value: the decimal that [toFixed] picks.  ([F64.toFixed] reads it back
    as a binary64 number.) *)
Definition toFixed2 (x : Q) : Q := round_half_away (x * 100) # 100.
Definition toFixed1 (x : Q) : Q := round_half_away (x * 10) # 10.

(** [arr.filter(s => s != null)] on a column of nullable scores. *)
Fixpoint non_null (col : list (option Z)) : list Q :=
  match col with
  | [] => []
  | Some s :: rest => inject_Z s :: non_null rest
  | None :: rest => non_null rest
  end.

(** [Math.min(...scores)] and [Math.max(...scores)] on a non-empty array,
    written as a fold from the first element. *)
Definition Qmin_list (x : Q) (rest : list Q) : Q :=
  fold_left (fun m y => if Qle_bool y m then y else m) rest x.
Definition Qmax_list (x : Q) (rest : list Q) : Q :=
  fold_left (fun m y => if Qle_bool m y then y else m) rest x.

End Num.

(** ** Manager summaries ([managerSummaries]) *)

Definition ManagerGroups := list (string * list AppraisalResponse).

(** [Map.prototype.get]. *)
Fixpoint groups_get (m : ManagerGroups) (k : string) : option (list AppraisalResponse) :=
  match m with
  | [] => None
  | (k', v) :: rest => if String.eqb k' k then Some v else groups_get rest k
  end.

(** [Map.prototype.set]: an existing key keeps its position. *)
Fixpoint groups_set (m : ManagerGroups) (k : string) (v : list AppraisalResponse)
  : ManagerGroups :=
  match m with
  | [] => [(k, v)]
  | (k', v') :: rest =>
      if String.eqb k' k then (k', v) :: rest else (k', v') :: groups_set rest k v
  end.

Definition group_step (managerGroups : ManagerGroups) (response : AppraisalResponse)
  : ManagerGroups :=
  let existing := default [] (groups_get managerGroups (manager_name response)) in
  groups_set managerGroups (manager_name response) (existing ++ [response]).

Definition managerGroups (filtered : list AppraisalResponse) : ManagerGroups :=
  fold_left group_step filtered [].

(** The three arrays filled by the inner [forEach] loops. *)
Record Buckets := mkBuckets {
  teamLeadershipScores : list Q;
  resultsOrientationScores : list Q;
  culturalFitScores : list Q
}.

Definition push_non_null (arr : list Q) (s : option Z) : list Q :=
  match s with
  | Some v => arr ++ [inject_Z v]
  | None => arr
  end.

Definition bucket_step (b : Buckets) (r : AppraisalResponse) : Buckets :=
  {| teamLeadershipScores :=
       fold_left push_non_null
         [empowers_team_score r; mentors_coaches_score r; effective_direction_score r;
          establishes_rapport_score r; sets_clear_goals_score r]
         (teamLeadershipScores b);
     resultsOrientationScores :=
       fold_left push_non_null
         [open_to_ideas_score r; sense_of_urgency_score r; analyzes_change_score r;
          final_say_score r]
         (resultsOrientationScores b);
     culturalFitScores :=
       fold_left push_non_null
         [confidence_integrity_score r; patient_humble_score r; flat_collaborative_score r;
          approachable_score r]
         (culturalFitScores b) |}.

Definition buckets (group : list AppraisalResponse) : Buckets :=
  fold_left bucket_step group (mkBuckets [] [] []).

(** [const avg = (arr) => arr.length ? arr.reduce(...) / arr.length : 0]. *)
Definition avg (arr : list Q) : Q :=
  if (0 <? length arr)%nat then (Num.reduce_sum arr / Num.len arr)%Q else 0%Q.

Definition avgTeamLeadership (group : list AppraisalResponse) : Q :=
  avg (teamLeadershipScores (buckets group)).
Definition avgResultsOrientation (group : list AppraisalResponse) : Q :=
  avg (resultsOrientationScores (buckets group)).
Definition avgCulturalFit (group : list AppraisalResponse) : Q :=
  avg (culturalFitScores (buckets group)).

Definition overallScore (group : list AppraisalResponse) : Q :=
  avg (List.filter (fun s => Num.Qlt_bool 0 s)
         [avgTeamLeadership group; avgResultsOrientation group; avgCulturalFit group]).

Definition summarise (entry : string * list AppraisalResponse) : ManagerSummary :=
  let '(managerName, group) := entry in
  {| ms_manager_name := managerName;
     total_responses := length group;
     avg_team_leadership := Num.toFixed2 (avgTeamLeadership group);
     avg_results_orientation := Num.toFixed2 (avgResultsOrientation group);
     avg_cultural_fit := Num.toFixed2 (avgCulturalFit group);
     overall_score := Num.toFixed2 (overallScore group);
     responses := group |}.

(** [summaries.sort((a, b) => b.overall_score - a.overall_score)]: the
    sort is stable, so it is determined by the comparator; it is written
    here as an insertion sort. *)
Fixpoint insert_desc (x : ManagerSummary) (l : list ManagerSummary) : list ManagerSummary :=
  match l with
  | [] => [x]
  | y :: l' =>
      if Qle_bool (overall_score y) (overall_score x) then x :: y :: l'
      else y :: insert_desc x l'
  end.

Definition sort_desc (l : list ManagerSummary) : list ManagerSummary :=
  fold_right insert_desc [] l.

Definition managerSummaries (filtered : list AppraisalResponse) : list ManagerSummary :=
  sort_desc (map summarise (managerGroups filtered)).

(** ** Competency scores ([competencyScores]) *)

Definition competencies : list (ScoreKey * string) :=
  [ (k_empowers_team, "Empowers Team");
    (k_mentors_coaches, "Mentors & Coaches");
    (k_effective_direction, "Effective Direction");
    (k_establishes_rapport, "Establishes Rapport");
    (k_sets_clear_goals, "Sets Clear Goals");
    (k_open_to_ideas, "Open to Ideas");
    (k_sense_of_urgency, "Sense of Urgency");
    (k_analyzes_change, "Analyzes Change");
    (k_final_say, "Final Say");
    (k_confidence_integrity, "Confidence & Integrity");
    (k_patient_humble, "Patient & Humble");
    (k_flat_collaborative, "Flat & Collaborative");
    (k_approachable, "Approachable") ].

Definition competencyScore (filtered : list AppraisalResponse) (comp : ScoreKey * string)
  : CompetencyScore :=
  let scores := Num.non_null (map (get_score (fst comp)) filtered) in
  let avg := if (0 <? length scores)%nat
             then (Num.reduce_sum scores / Num.len scores)%Q else 0%Q in
  let maxScore := 5%Q in
  let percentage := ((avg / maxScore) * 100)%Q in
  {| cs_name := snd comp;
     score := Num.toFixed2 avg;
     maxScore := maxScore;
     cs_percentage := Num.toFixed1 percentage |}.

Definition competencyScores (filtered : list AppraisalResponse) : list CompetencyScore :=
  map (competencyScore filtered) competencies.

(** ** Score distribution ([scoreDistribution]) *)

Definition scoreKeys : list ScoreKey :=
  [ k_empowers_team; k_mentors_coaches; k_effective_direction;
    k_establishes_rapport; k_sets_clear_goals; k_open_to_ideas;
    k_sense_of_urgency; k_analyzes_change; k_final_say;
    k_confidence_integrity; k_patient_humble; k_flat_collaborative;
    k_approachable ].

(** [{ '1': 0, '2': 0, '3': 0, '4': 0, '5': 0 }]. *)
Definition distribution0 : gmap string nat :=
  <["1" := 0%nat]> (<["2" := 0%nat]> (<["3" := 0%nat]>
    (<["4" := 0%nat]> (<["5" := 0%nat]> ∅)))).

(** [score.toString()] on an integer. *)
Definition toString (score : Z) : string := pretty score.

Definition distribution_step (r : AppraisalResponse)
    (distribution : gmap string nat) (key : ScoreKey) : gmap string nat :=
  match get_score key r with
  | Some score =>
      if (1 <=? score)%Z && (score <=? 5)%Z
      then <[toString score := (default 0 (distribution !! toString score) + 1)%nat]>
             distribution
      else distribution
  | None => distribution
  end.

(** The inner loop, [scoreKeys.forEach(key => ...)], for one response. *)
Definition distribution_response (distribution : gmap string nat) (r : AppraisalResponse)
  : gmap string nat :=
  fold_left (distribution_step r) scoreKeys distribution.

Definition scoreDistribution (filtered : list AppraisalResponse) : gmap string nat :=
  fold_left distribution_response filtered distribution0.

(** ** Feedback themes ([feedbackThemes]) *)

Inductive Prompt := Stop | Start | Continue.

#[global] Instance Prompt_eq_dec : EqDecision Prompt.
Proof. solve_decision. Defined.

Definition push_theme (p : Prompt) (s : string) (t : FeedbackThemes) : FeedbackThemes :=
  match p with
  | Stop => mkThemes (stopDoing t ++ [s]) (startDoing t) (continueDoing t)
  | Start => mkThemes (stopDoing t) (startDoing t ++ [s]) (continueDoing t)
  | Continue => mkThemes (stopDoing t) (startDoing t) (continueDoing t ++ [s])
  end.

(** One [if (r.field) { ... }] block; the state is the [seen] set and the
    three arrays. *)
Definition theme_step (p : Prompt) (field : option string)
    (st : gset string * FeedbackThemes) : gset string * FeedbackThemes :=
  match field with
  | Some text =>
      if JS.truthy (Some text) then
        let normalized := JS.trim (JS.toLowerCase text) in
        if decide (normalized ∈ st.1) then st
        else ({[normalized]} ∪ st.1, push_theme p (JS.trim text) st.2)
      else st
  | None => st
  end.

Definition themes_of_response (st : gset string * FeedbackThemes) (r : AppraisalResponse)
  : gset string * FeedbackThemes :=
  theme_step Continue (continue_doing r)
    (theme_step Start (start_doing r)
       (theme_step Stop (stop_doing r) st)).

Definition feedbackThemes (filtered : list AppraisalResponse) : FeedbackThemes :=
  (fold_left themes_of_response filtered (∅, mkThemes [] [] [])).2.

(** ** The export button's analytics helpers *)

Module Exporter.

Record CompetencyRow := mkRow {
  name : string;
  avg : Q;
  min : Q;
  max : Q;
  count : nat;
  percentage : Q
}.

Definition competencies : list (ScoreKey * string) :=
  [ (k_mentors_coaches, "Mentors & Coaches");
    (k_effective_direction, "Effective Direction");
    (k_establishes_rapport, "Establishes Rapport");
    (k_sets_clear_goals, "Sets Clear Goals");
    (k_open_to_ideas, "Open to Ideas");
    (k_sense_of_urgency, "Sense of Urgency");
    (k_analyzes_change, "Analyzes Change");
    (k_confidence_integrity, "Confidence & Integrity");
    (k_patient_humble, "Patient & Humble");
    (k_flat_collaborative, "Flat & Collaborative");
    (k_approachable, "Approachable");
    (k_empowers_team, "Empowers Team");
    (k_final_say, "Final Say Balance") ].

Definition competencyRow (rs : list AppraisalResponse) (c : ScoreKey * string)
  : CompetencyRow :=
  let scores := Num.non_null (map (get_score (fst c)) rs) in
  let avg := if (0 <? length scores)%nat
             then (Num.reduce_sum scores / Num.len scores)%Q else 0%Q in
  let min := match scores with x :: rest => Num.Qmin_list x rest | [] => 0%Q end in
  let max := match scores with x :: rest => Num.Qmax_list x rest | [] => 0%Q end in
  {| name := snd c; avg := avg; min := min; max := max;
     count := length scores;
     percentage := ((avg / 4) * 100)%Q |}.

Definition calculateCompetencyScores (rs : list AppraisalResponse) : list CompetencyRow :=
  map (competencyRow rs) competencies.

Record Range := mkRange { label : string; range_min : Q; range_max : Q }.

Record TierRow := mkTier {
  tier : Range;
  tier_count : nat;
  tier_managers : string
}.

Definition ranges : list Range :=
  [ mkRange "Exceptional (3.5-4.0)" (7 # 2) 4;
    mkRange "Strong (3.0-3.49)" 3 (349 # 100);
    mkRange "Developing (2.5-2.99)" (5 # 2) (299 # 100);
    mkRange "Needs Improvement (2.0-2.49)" 2 (249 # 100);
    mkRange "Critical (<2.0)" 0 (199 # 100) ].

(** [m.overall_score >= range.min && m.overall_score <= range.max]. *)
Definition in_range (range : Range) (m : ManagerSummary) : bool :=
  Qle_bool (range_min range) (overall_score m)
  && Qle_bool (overall_score m) (range_max range).

Definition getScoreDistribution (ms : list ManagerSummary) : list TierRow :=
  map (fun range =>
         {| tier := range;
            tier_count := length (List.filter (in_range range) ms);
            tier_managers :=
              JS.join ", " (map ms_manager_name (List.filter (in_range range) ms)) |})
      ranges.

(** The ['Performance Tier'] cell of the rankings sheet. *)
Definition performanceTier (m : ManagerSummary) : string :=
  if Qle_bool (7 # 2) (overall_score m) then "Exceptional"
  else if Qle_bool 3 (overall_score m) then "Strong"
  else if Qle_bool (5 # 2) (overall_score m) then "Developing"
  else "Needs Improvement".

End Exporter.

(** ** Statements of the specification, written from its words *)

Module Spec.

(** [rel] is one of the selected relationships, for a relationship
    that is present. *)
Definition selected (filters : FilterState) (response : AppraisalResponse) : Prop :=
  from_option (fun rel => rel ∈ relationships filters) False (relationship response).

(** The filter rule as the specification words it. *)
Definition claimed_keep (filters : FilterState) (response : AppraisalResponse) : Prop :=
  (managers filters = [] ∨ manager_name response ∈ managers filters)
  ∧ (relationships filters = []
     ∨ selected filters response
     ∨ (relationship response = None ∧ relationships filters = [])).

(** The filter rule with the guard on a missing relationship: a null or
    empty relationship passes every relationship filter. *)
Definition kept (filters : FilterState) (response : AppraisalResponse) : Prop :=
  (managers filters = [] ∨ manager_name response ∈ managers filters)
  ∧ (relationships filters = []
     ∨ relationship response = None
     ∨ relationship response = Some ""
     ∨ selected filters response).

#[global] Instance selected_dec filters response : Decision (selected filters response).
Proof. unfold selected. destruct (relationship response); simpl; apply _. Defined.

#[global] Instance claimed_keep_dec filters response :
  Decision (claimed_keep filters response).
Proof. unfold claimed_keep. apply _. Defined.

#[global] Instance kept_dec filters response : Decision (kept filters response).
Proof. unfold kept. apply _. Defined.

(** Every non-null score is at least 1 (the low end of the scale). *)
Definition scores_positive (rs : list AppraisalResponse) : Prop :=
  ∀ r k v, r ∈ rs → get_score k r = Some v → (1 <= v)%Z.

(** Every non-null score lies on the declared scale 1-5. *)
Definition scores_in_scale (rs : list AppraisalResponse) : Prop :=
  ∀ r k v, r ∈ rs → get_score k r = Some v → (1 <= v <= 5)%Z.

(** The non-null values of one competency over the whole set, their
    number, and their mean as a quotient of integers. *)
Definition column (k : ScoreKey) (rs : list AppraisalResponse) : list Z :=
  omap (get_score k) rs.

Definition Zsum (l : list Z) : Z := fold_right Z.add 0%Z l.

Definition column_mean (k : ScoreKey) (rs : list AppraisalResponse) : Q :=
  match column k rs with
  | [] => 0%Q
  | vs => (inject_Z (Zsum vs) / inject_Z (Z.of_nat (length vs)))%Q
  end.

(** Number of non-null score fields of the whole set, and of those whose
    value is in 1-5. *)
Definition occurrences (rs : list AppraisalResponse) : list Z :=
  flat_map (fun r => omap (fun k => get_score k r) scoreKeys) rs.

Definition in_buckets (v : Z) : bool := (1 <=? v)%Z && (v <=? 5)%Z.

(** Sum of the histogram over the buckets 1-5. *)
Definition bucket_total (d : gmap string nat) : nat :=
  foldr (fun key acc => (default 0 (d !! key) + acc)%nat) 0%nat
    ["1"; "2"; "3"; "4"; "5"].

(** The tier of a score by the breakpoints 3.5, 3.0, 2.5 and 2.0. *)
Inductive Tier := Exceptional | Strong | Developing | NeedsImprovement | Critical.

Definition tier_of (s : Q) : Tier :=
  if Qle_bool (7 # 2) s then Exceptional
  else if Qle_bool 3 s then Strong
  else if Qle_bool (5 # 2) s then Developing
  else if Qle_bool 2 s then NeedsImprovement
  else Critical.

Definition tier_label (t : Tier) : string :=
  match t with
  | Exceptional => "Exceptional"
  | Strong => "Strong"
  | Developing => "Developing"
  | NeedsImprovement => "Needs Improvement"
  | Critical => "Critical"
  end.

(** The row of the tier histogram that stands for a tier. *)
Definition tier_range (t : Tier) : Exporter.Range :=
  match t with
  | Exceptional => Exporter.mkRange "Exceptional (3.5-4.0)" (7 # 2) 4
  | Strong => Exporter.mkRange "Strong (3.0-3.49)" 3 (349 # 100)
  | Developing => Exporter.mkRange "Developing (2.5-2.99)" (5 # 2) (299 # 100)
  | NeedsImprovement => Exporter.mkRange "Needs Improvement (2.0-2.49)" 2 (249 # 100)
  | Critical => Exporter.mkRange "Critical (<2.0)" 0 (199 # 100)
  end.

(** A number with at most two decimals, as [toFixed(2)] produces. *)
Definition two_decimals (s : Q) : Prop := ∃ n : Z, (s == n # 100)%Q.

(** The entries of the three prompts, response by response, stop before
    start before continue; a null or empty field gives no entry. *)
Definition present (p : Prompt) (field : option string) : list (Prompt * string) :=
  match field with
  | Some text => if decide (text = "") then [] else [(p, text)]
  | None => []
  end.

Definition entries_of (r : AppraisalResponse) : list (Prompt * string) :=
  present Stop (stop_doing r) ++ present Start (start_doing r)
    ++ present Continue (continue_doing r).

Definition all_entries (rs : list AppraisalResponse) : list (Prompt * string) :=
  flat_map entries_of rs.

(** Case-insensitive comparison on the trimmed text. *)
Definition compare_key (text : string) : string := JS.toLowerCase (JS.trim text).

(** One pass against one shared list of keys already seen. *)
Fixpoint dedup_global (seen : list string) (l : list (Prompt * string))
  : list (Prompt * string) :=
  match l with
  | [] => []
  | e :: rest =>
      if decide (compare_key e.2 ∈ seen) then dedup_global seen rest
      else e :: dedup_global (compare_key e.2 :: seen) rest
  end.

Definition select (p : Prompt) (l : list (Prompt * string)) : list string :=
  map snd (List.filter (fun e => bool_decide (e.1 = p)) l).

Definition themes (rs : list AppraisalResponse) : FeedbackThemes :=
  let kept := dedup_global [] (all_entries rs) in
  {| stopDoing := map JS.trim (select Stop kept);
     startDoing := map JS.trim (select Start kept);
     continueDoing := map JS.trim (select Continue kept) |}.

Definition prompt_list (p : Prompt) (t : FeedbackThemes) : list string :=
  match p with
  | Stop => stopDoing t
  | Start => startDoing t
  | Continue => continueDoing t
  end.

Definition prompt_field (p : Prompt) (r : AppraisalResponse) : option string :=
  match p with
  | Stop => stop_doing r
  | Start => start_doing r
  | Continue => continue_doing r
  end.

(** A non-empty string of white space only. *)
Definition blank (text : string) : Prop := text ≠ "" ∧ JS.trim text = "".

Definition all_themes (t : FeedbackThemes) : list string :=
  stopDoing t ++ startDoing t ++ continueDoing t.

Definition empty_entries (t : FeedbackThemes) : nat :=
  length (List.filter (fun s => String.eqb s "") (all_themes t)).

(** A string that is empty or starts with a character that is not white. *)
Definition starts_black (s : string) : Prop :=
  match s with
  | EmptyString => True
  | String c _ => JS.is_white c = false
  end.

(** The body of an [if (r.field)] block of [feedbackThemes] on an entry. *)
Definition entry_step (st : gset string * FeedbackThemes) (e : Prompt * string)
  : gset string * FeedbackThemes :=
  let normalized := JS.trim (JS.toLowerCase e.2) in
  if decide (normalized ∈ st.1) then st
  else ({[normalized]} ∪ st.1, push_theme e.1 (JS.trim e.2) st.2).

(** The arrays [t] after the texts of [l] were pushed, trimmed. *)
Definition themes_app (t : FeedbackThemes) (l : list (Prompt * string)) : FeedbackThemes :=
  {| stopDoing := stopDoing t ++ map JS.trim (select Stop l);
     startDoing := startDoing t ++ map JS.trim (select Start l);
     continueDoing := continueDoing t ++ map JS.trim (select Continue l) |}.

(** No stop, start or continue field is a non-empty string of white
    space only. *)
Definition no_blank_field (rs : list AppraisalResponse) : Prop :=
  ∀ r p text, r ∈ rs → prompt_field p r = Some text → ¬ blank text.

(** The responses of one manager, in input order. *)
Definition by_manager (k : string) (rs : list AppraisalResponse)
  : list AppraisalResponse :=
  List.filter (fun r => String.eqb (manager_name r) k) rs.

(** Sum of [total_responses] over the summaries. *)
Definition sum_total (ms : list ManagerSummary) : nat :=
  foldr (fun m acc => (total_responses m + acc)%nat) 0%nat ms.

(** Number of responses held by a grouping. *)
Definition groups_size (m : ManagerGroups) : nat :=
  foldr (fun entry acc => (length entry.2 + acc)%nat) 0%nat m.

(** What the grouping map holds once the responses [rs] are processed. *)
Definition grouped (m : ManagerGroups) (rs : list AppraisalResponse) : Prop :=
  NoDup (map fst m)
  ∧ ∀ k, groups_get m k
         = match by_manager k rs with [] => None | g => Some g end.

(** Every number of the three bucket arrays satisfies [P]. *)
Definition buckets_all (P : Q → Prop) (b : Buckets) : Prop :=
  Forall P (teamLeadershipScores b)
  ∧ Forall P (resultsOrientationScores b)
  ∧ Forall P (culturalFitScores b).

(** The display name a catalog gives to a key. *)
Definition name_in (catalog : list (ScoreKey * string)) (k : ScoreKey) : string :=
  from_option snd "" (List.find (fun c => bool_decide (c.1 = k)) catalog).

#[global] Instance Tier_eq_dec : EqDecision Tier.
Proof. solve_decision. Defined.

Definition all_tiers : list Tier :=
  [Exceptional; Strong; Developing; NeedsImprovement; Critical].

(** The managers of one tier, and the histogram row they make. *)
Definition tier_members (t : Tier) (ms : list ManagerSummary) : list ManagerSummary :=
  List.filter (fun m => bool_decide (tier_of (overall_score m) = t)) ms.

Definition tier_row (ms : list ManagerSummary) (t : Tier) : Exporter.TierRow :=
  {| Exporter.tier := tier_range t;
     Exporter.tier_count := length (tier_members t ms);
     Exporter.tier_managers := JS.join ", " (map ms_manager_name (tier_members t ms)) |}.

(** An overall score with two decimals between 0 and 4.0. *)
Definition on_four_point_scale (m : ManagerSummary) : Prop :=
  two_decimals (overall_score m) ∧ (0 <= overall_score m)%Q ∧ (overall_score m <= 4)%Q.

(** The label of the rankings sheet: it has no "Critical". *)
Definition ranking_label (t : Tier) : string :=
  match t with
  | Critical => "Needs Improvement"
  | _ => tier_label t
  end.

Definition sum_counts (rows : list Exporter.TierRow) : nat :=
  foldr (fun row acc => (Exporter.tier_count row + acc)%nat) 0%nat rows.

(** The non-null scores of one response among the keys [ks]. *)
Definition scores_of (r : AppraisalResponse) (ks : list ScoreKey) : list Z :=
  omap (fun k => get_score k r) ks.

Definition buckets_only (d : gmap string nat) : Prop := dom d = dom distribution0.

End Spec.

(** ** Sample data *)

Module Sample.

(** A response of [manager] with every optional column null. *)
Definition blank_response (manager : string) : AppraisalResponse :=
  {| response_id := ""; manager_name := manager; relationship := None;
     response_number := None; timestamp := None; created_at := None;
     empowers_team_score := None; final_say_score := None;
     mentors_coaches_score := None; effective_direction_score := None;
     establishes_rapport_score := None; sets_clear_goals_score := None;
     open_to_ideas_score := None; sense_of_urgency_score := None;
     analyzes_change_score := None; confidence_integrity_score := None;
     patient_humble_score := None; flat_collaborative_score := None;
     approachable_score := None; stop_doing := None; start_doing := None;
     continue_doing := None; results_orientation_comments := None;
     cultural_fit_comments := None; team_leadership_comments := None |}.

(** A response whose only non-null column is [empowers_team_score]. *)
Definition with_empowers (manager : string) (v : Z) : AppraisalResponse :=
  {| response_id := ""; manager_name := manager; relationship := None;
     response_number := None; timestamp := None; created_at := None;
     empowers_team_score := Some v; final_say_score := None;
     mentors_coaches_score := None; effective_direction_score := None;
     establishes_rapport_score := None; sets_clear_goals_score := None;
     open_to_ideas_score := None; sense_of_urgency_score := None;
     analyzes_change_score := None; confidence_integrity_score := None;
     patient_humble_score := None; flat_collaborative_score := None;
     approachable_score := None; stop_doing := None; start_doing := None;
     continue_doing := None; results_orientation_comments := None;
     cultural_fit_comments := None; team_leadership_comments := None |}.

(** A response whose only non-null columns are the three prompts. *)
Definition with_prompts (manager : string) (stop start cont : option string)
  : AppraisalResponse :=
  {| response_id := ""; manager_name := manager; relationship := None;
     response_number := None; timestamp := None; created_at := None;
     empowers_team_score := None; final_say_score := None;
     mentors_coaches_score := None; effective_direction_score := None;
     establishes_rapport_score := None; sets_clear_goals_score := None;
     open_to_ideas_score := None; sense_of_urgency_score := None;
     analyzes_change_score := None; confidence_integrity_score := None;
     patient_humble_score := None; flat_collaborative_score := None;
     approachable_score := None; stop_doing := stop; start_doing := start;
     continue_doing := cont; results_orientation_comments := None;
     cultural_fit_comments := None; team_leadership_comments := None |}.

(** A summary carrying only a name and an overall score. *)
Definition summary_with (manager : string) (overall : Q) : ManagerSummary :=
  {| ms_manager_name := manager; total_responses := 1;
     avg_team_leadership := overall; avg_results_orientation := 0;
     avg_cultural_fit := 0; overall_score := overall; responses := [] |}.

Definition no_filter : FilterState := mkFilter [] [] (1%Z, 4%Z).
Definition peers_only : FilterState := mkFilter [] ["Peer"] (1%Z, 4%Z).

(** A response whose five team-leadership scores are [v], and whose
    other optional columns are null. *)
Definition with_team_leadership (manager : string) (v : Z) : AppraisalResponse :=
  {| response_id := ""; manager_name := manager; relationship := None;
     response_number := None; timestamp := None; created_at := None;
     empowers_team_score := Some v; final_say_score := None;
     mentors_coaches_score := Some v; effective_direction_score := Some v;
     establishes_rapport_score := Some v; sets_clear_goals_score := Some v;
     open_to_ideas_score := None; sense_of_urgency_score := None;
     analyzes_change_score := None; confidence_integrity_score := None;
     patient_humble_score := None; flat_collaborative_score := None;
     approachable_score := None; stop_doing := None; start_doing := None;
     continue_doing := None; results_orientation_comments := None;
     cultural_fit_comments := None; team_leadership_comments := None |}.

(** Two responses for Jane, with team-leadership scores 4 and 2. *)
Definition jane : list AppraisalResponse :=
  [with_team_leadership "Jane" 4; with_team_leadership "Jane" 2].

End Sample.

(** One response per theme, in the field of its prompt: the responses
    built from an output of [feedbackThemes]. *)
Definition response_of_theme (p : Prompt) (text : string) : AppraisalResponse :=
  match p with
  | Stop => Sample.with_prompts "" (Some text) None None
  | Start => Sample.with_prompts "" None (Some text) None
  | Continue => Sample.with_prompts "" None None (Some text)
  end.

Definition responses_of_themes (t : FeedbackThemes) : list AppraisalResponse :=
  map (response_of_theme Stop) (stopDoing t)
    ++ map (response_of_theme Start) (startDoing t)
    ++ map (response_of_theme Continue) (continueDoing t).

(** ** Further functions of the hook, of the export button and of the panels *)

(** Array primitives. *)
Module Arr.

(** The relative index of [slice]: a negative index counts from the end,
    and every index is clamped to the array. *)
Definition relative (len i : Z) : Z :=
  if (i <? 0)%Z then Z.max (len + i) 0 else Z.min i len.

(** [arr.slice(start, end)]; [end_ = None] is [arr.slice(start)]. *)
Definition slice {A} (arr : list A) (start : Z) (end_ : option Z) : list A :=
  let len := Z.of_nat (length arr) in
  let k := relative len start in
  let final := match end_ with Some e => relative len e | None => len end in
  take (Z.to_nat (final - k)) (drop (Z.to_nat k) arr).

(** [[...new Set(arr)]]: the elements in the order of their first
    occurrence. *)
Definition unique (arr : list string) : list string :=
  fold_left (fun seen x => if decide (x ∈ seen) then seen else seen ++ [x]) arr [].

(** [arr.filter(Boolean)] on nullable strings. *)
Fixpoint truthy_strings (arr : list (option string)) : list string :=
  match arr with
  | [] => []
  | v :: rest =>
      if JS.truthy v then
        match v with
        | Some s => s :: truthy_strings rest
        | None => truthy_strings rest
        end
      else truthy_strings rest
  end.

(** [arr.sort()] on strings: the default order compares code units; the
    sort is stable, and is written as an insertion sort. *)
Fixpoint insert_string (x : string) (l : list string) : list string :=
  match l with
  | [] => [x]
  | y :: l' => if String.leb x y then x :: y :: l' else y :: insert_string x l'
  end.

Definition sort_strings (l : list string) : list string :=
  fold_right insert_string [] l.

(** [arr.sort((a, b) => key(b) - key(a))], stable, as an insertion sort. *)
Fixpoint insert_desc_on {A} (key : A → Q) (x : A) (l : list A) : list A :=
  match l with
  | [] => [x]
  | y :: l' =>
      if Qle_bool (key y) (key x) then x :: y :: l' else y :: insert_desc_on key x l'
  end.

Definition sort_desc_on {A} (key : A → Q) (l : list A) : list A :=
  fold_right (insert_desc_on key) [] l.

End Arr.

(** [uniqueManagers] and [uniqueRelationships] of the hook, over all the
    responses. *)
Definition uniqueManagers (all : list AppraisalResponse) : list string :=
  Arr.sort_strings (Arr.unique (map manager_name all)).

Definition uniqueRelationships (all : list AppraisalResponse) : list string :=
  Arr.unique (Arr.truthy_strings (map relationship all)).



(** The other analytics helpers of the export button. *)
Module Report.

Record Performers := mkPerformers {
  top : list ManagerSummary;
  bottom : list ManagerSummary
}.

(** [getTopAndBottomPerformers(managers, count)]. *)
Definition getTopAndBottomPerformers (ms : list ManagerSummary) (count : Z) : Performers :=
  let sorted := sort_desc ms in
  {| top := Arr.slice sorted 0 (Some count);
     bottom := rev (Arr.slice sorted (- count) None) |}.

Record Ranking := mkRanking {
  strengths : list Exporter.CompetencyRow;
  weaknesses : list Exporter.CompetencyRow
}.

(** [getStrengthsAndWeaknesses(responses)]. *)
Definition getStrengthsAndWeaknesses (rs : list AppraisalResponse) : Ranking :=
  let competencies := Exporter.calculateCompetencyScores rs in
  let sorted := Arr.sort_desc_on Exporter.avg competencies in
  {| strengths := Arr.slice sorted 0 (Some 3%Z);
     weaknesses := rev (Arr.slice sorted (-3) None) |}.

Record Feedback := mkFeedback {
  stopDoing : list string;
  startDoing : list string;
  continueDoing : list string;
  teamLeadership : list string;
  resultsOrientation : list string;
  culturalFit : list string
}.

(** [if (r.field?.trim()) arr.push(`${r.manager_name}: ${r.field}`)]. *)
Definition push_comment (r : AppraisalResponse) (field : option string) (arr : list string)
  : list string :=
  match field with
  | Some text =>
      if JS.truthy (Some (JS.trim text))
      then arr ++ [manager_name r +:+ ": " +:+ text] else arr
  | None => arr
  end.

Definition feedback_step (feedback : Feedback) (r : AppraisalResponse) : Feedback :=
  {| stopDoing := push_comment r (stop_doing r) (stopDoing feedback);
     startDoing := push_comment r (start_doing r) (startDoing feedback);
     continueDoing := push_comment r (continue_doing r) (continueDoing feedback);
     teamLeadership :=
       push_comment r (team_leadership_comments r) (teamLeadership feedback);
     resultsOrientation :=
       push_comment r (results_orientation_comments r) (resultsOrientation feedback);
     culturalFit := push_comment r (cultural_fit_comments r) (culturalFit feedback) |}.

(** [collectFeedback(responses)]. *)
Definition collectFeedback (rs : list AppraisalResponse) : Feedback :=
  fold_left feedback_step rs (mkFeedback [] [] [] [] [] []).

End Report.

(** [formatResponse] of the chat panel:
    [text.replace(/\n{3,}/g, '\n\n').trim()]. *)
Module Chat.

Definition newline : ascii := "010"%char.

(** The replacement, scanning left to right; [run] is the number of
    newlines just before the current position.  Every maximal run of three
    or more newlines is matched whole by the greedy pattern and becomes two
    newlines; shorter runs are kept. *)
Fixpoint collapse (run : nat) (text : string) : string :=
  match text with
  | EmptyString => EmptyString
  | String c rest =>
      if Ascii.eqb c newline then
        if (run <? 2)%nat then String c (collapse (S run) rest)
        else collapse (S run) rest
      else String c (collapse 0 rest)
  end.

Definition formatResponse (text : string) : string := JS.trim (collapse 0 text).

End Chat.

(** Relations and measures used to state the further properties. *)
Module Props.

(** [a] may stand before [b] in descending order of [key]. *)
Definition desc_on {A} (key : A → Q) (a b : A) : Prop := (key b <= key a)%Q.



End Props.

(** The six lists of [collectFeedback] and the fields they come from. *)
Module Kinds.

Inductive Kind := StopDoing | StartDoing | ContinueDoing
  | TeamLeadership | ResultsOrientation | CulturalFit.

Definition field (k : Kind) (r : AppraisalResponse) : option string :=
  match k with
  | StopDoing => stop_doing r
  | StartDoing => start_doing r
  | ContinueDoing => continue_doing r
  | TeamLeadership => team_leadership_comments r
  | ResultsOrientation => results_orientation_comments r
  | CulturalFit => cultural_fit_comments r
  end.

Definition list_of (k : Kind) (feedback : Report.Feedback) : list string :=
  match k with
  | StopDoing => Report.stopDoing feedback
  | StartDoing => Report.startDoing feedback
  | ContinueDoing => Report.continueDoing feedback
  | TeamLeadership => Report.teamLeadership feedback
  | ResultsOrientation => Report.resultsOrientation feedback
  | CulturalFit => Report.culturalFit feedback
  end.

Definition of_prompt (p : Prompt) : Kind :=
  match p with
  | Stop => StopDoing
  | Start => StartDoing
  | Continue => ContinueDoing
  end.

(** The themes of a prompt that are not the empty string. *)
Definition proper_themes (p : Prompt) (t : FeedbackThemes) : list string :=
  List.filter (fun s => negb (String.eqb s "")) (Spec.prompt_list p t).

End Kinds.

(** Order of strings by code units, as a proposition. *)
Module Order.

Definition string_le (a b : string) : Prop := String.leb a b = true.

(** The filter state with every manager and every relationship of [all]
    selected. *)
Definition select_all (all : list AppraisalResponse) (range : Z * Z) : FilterState :=
  mkFilter (uniqueManagers all) (uniqueRelationships all) range.

End Order.

(** Ranges of the figures on the declared scale. *)
Module Scale.




End Scale.

(** Runs of newlines in a string. *)
Module Runs.

(** No run of newlines reaches three, [run] newlines standing just
    before the string. *)
Fixpoint short (run : nat) (text : string) : bool :=
  match text with
  | EmptyString => true
  | String c rest =>
      if Ascii.eqb c Chat.newline then (run <? 2)%nat && short (S run) rest
      else short 0 rest
  end.

Definition three_newlines : string :=
  String Chat.newline (String Chat.newline (String Chat.newline EmptyString)).

End Runs.

(** Plain objects used as counters ([Record<string, number>]): the own
    properties in creation order.  The embedding describes such an object
    as long as no key is the name of a property inherited from
    [Object.prototype] (for such a key [obj[key] || 0] is not a number). *)
Module Obj.

Definition inherited : list string :=
  [ "constructor"; "hasOwnProperty"; "isPrototypeOf"; "propertyIsEnumerable";
    "toLocaleString"; "toString"; "valueOf"; "__proto__"; "__defineGetter__";
    "__defineSetter__"; "__lookupGetter__"; "__lookupSetter__" ].

Definition own_only (key : string) : Prop := key ∉ inherited.

(** [obj[key]]. *)
Fixpoint get (obj : list (string * nat)) (key : string) : option nat :=
  match obj with
  | [] => None
  | (k, v) :: rest => if String.eqb k key then Some v else get rest key
  end.

(** [obj[key] = v]: an existing property keeps its place. *)
Fixpoint set (obj : list (string * nat)) (key : string) (v : nat) : list (string * nat) :=
  match obj with
  | [] => [(key, v)]
  | (k, v') :: rest =>
      if String.eqb k key then (k, v) :: rest else (k, v') :: set rest key v
  end.

(** [obj[key] = (obj[key] || 0) + 1]. *)
Definition bump (obj : list (string * nat)) (key : string) : list (string * nat) :=
  set obj key (default 0%nat (get obj key) + 1)%nat.

(** The value of a string of decimal digits. *)
Fixpoint digits (acc : N) (s : string) : option N :=
  match s with
  | EmptyString => Some acc
  | String c rest =>
      match Ascii.is_nat c with
      | Some d => digits (acc * 10 + N.of_nat d) rest
      | None => None
      end
  end.

(** An array index: the canonical decimal string of an integer below
    2^32 - 1. *)
Definition array_index (key : string) : option N :=
  match key with
  | EmptyString => None
  | _ =>
      match digits 0 key with
      | Some n => if String.eqb (pretty n) key && (n <? 4294967295)%N then Some n else None
      | None => None
      end
  end.

Fixpoint insert_index (x : N * (string * nat)) (l : list (N * (string * nat)))
  : list (N * (string * nat)) :=
  match l with
  | [] => [x]
  | y :: l' => if (x.1 <=? y.1)%N then x :: y :: l' else y :: insert_index x l'
  end.

(** [Object.entries(obj)]: the array indices in ascending order, then the
    other keys in creation order. *)
Definition entries (obj : list (string * nat)) : list (string * nat) :=
  map snd
    (fold_right insert_index []
       (omap (fun e => match array_index e.1 with Some n => Some (n, e) | None => None end)
          obj))
  ++ List.filter (fun e => match array_index e.1 with Some _ => false | None => true end) obj.

End Obj.

(** [relationshipDistribution] of the hook: the counter it returns, as the
    list of its properties in the order of their creation.  JavaScript
    lists the keys of the object in the order of [Obj.entries]. *)
Definition relationshipDistribution (filtered : list AppraisalResponse)
  : list (string * nat) :=
  fold_left
    (fun distribution r =>
       match relationship r with
       | Some rel => if JS.truthy (Some rel) then Obj.bump distribution rel else distribution
       | None => distribution
       end)
    filtered [].

(** [getRelationshipBreakdown] of the export button.  The percentage, a
    string with one decimal, is given by the number it denotes. *)
Module Breakdown.


(** [r.relationship || 'Unknown']. *)
Definition rel_or_unknown (r : AppraisalResponse) : string :=
  match relationship r with
  | Some rel => if JS.truthy (Some rel) then rel else "Unknown"
  | None => "Unknown"
  end.

Definition breakdown (rs : list AppraisalResponse) : list (string * nat) :=
  fold_left (fun breakdown r => Obj.bump breakdown (rel_or_unknown r)) rs [].


(** [sortedRelationships] of the reviewer breakdown panel:
    [Object.entries(relationshipCounts).sort((a, b) => b[1] - a[1])]. *)
Definition sortedRelationships (rs : list AppraisalResponse) : list (string * nat) :=
  Arr.sort_desc_on (fun e => inject_Z (Z.of_nat e.2)) (Obj.entries (breakdown rs)).

Definition sum_counts (entries : list (string * nat)) : nat :=
  foldr (fun e acc => (e.2 + acc)%nat) 0%nat entries.

(** The responses counted under a key. *)
Definition counted (key : string) (rs : list AppraisalResponse) : list AppraisalResponse :=
  List.filter (fun r => String.eqb (rel_or_unknown r) key) rs.

(** The responses with a relationship that is neither null nor empty. *)
Definition with_relationship (rs : list AppraisalResponse) : list AppraisalResponse :=
  List.filter (fun r => JS.truthy (relationship r)) rs.

Definition occurrences (key : string) (keys : list string) : nat :=
  length (List.filter (String.eqb key) keys).

End Breakdown.

(** Further sample data. *)
Module Cases.

(** A response of [manager] with the relationship [rel] and every other
    optional column null. *)
Definition with_relationship (manager : string) (rel : option string) : AppraisalResponse :=
  {| response_id := ""; manager_name := manager; relationship := rel;
     response_number := None; timestamp := None; created_at := None;
     empowers_team_score := None; final_say_score := None;
     mentors_coaches_score := None; effective_direction_score := None;
     establishes_rapport_score := None; sets_clear_goals_score := None;
     open_to_ideas_score := None; sense_of_urgency_score := None;
     analyzes_change_score := None; confidence_integrity_score := None;
     patient_humble_score := None; flat_collaborative_score := None;
     approachable_score := None; stop_doing := None; start_doing := None;
     continue_doing := None; results_orientation_comments := None;
     cultural_fit_comments := None; team_leadership_comments := None |}.

(** Two peers and one response without a relationship. *)
Definition reviews : list AppraisalResponse :=
  [with_relationship "Ann" (Some "Peer"); with_relationship "Bob" None;
   with_relationship "Ann" (Some "Peer")].

Definition two_managers : list ManagerSummary :=
  [Sample.summary_with "Ann" (3 # 2); Sample.summary_with "Bob" (372 # 100)].

Definition only_jane : FilterState := mkFilter ["Jane"] [] (1%Z, 4%Z).

Definition listen : list AppraisalResponse :=
  [Sample.with_prompts "Ann" (Some " Listen ") None None].

End Cases.

(** The order in which [Object.keys] and [Object.entries] list the keys
    of a counter: the array indices first, by value, then the other keys
    as they were created. *)
Module Keys.

Definition is_index (key : string) : bool :=
  match Obj.array_index key with Some _ => true | None => false end.

Definition ascending (a b : string) : Prop :=
  ∃ m n, Obj.array_index a = Some m ∧ Obj.array_index b = Some n ∧ (m ≤ n)%N.

(** Responses with the relationships "b", "10" and "2", in this order. *)
Definition indexed : list AppraisalResponse :=
  [Cases.with_relationship "Ann" (Some "b"); Cases.with_relationship "Ann" (Some "10");
   Cases.with_relationship "Bob" (Some "2"); Cases.with_relationship "Bob" (Some "b")].

End Keys.

(** ** IEEE 754 binary64 numbers *)

Module F64.

(** A JavaScript number.  A finite number is given by its exact value; the
    two zeros are one value. *)
Inductive double := NaN | Infinity (negative : bool) | Finite (value : Q).

Definition zero : double := Finite 0.

(** Nearest integer, ties to the even one. *)
Definition nearest_even (x : Q) : Z :=
  let f := Qfloor x in
  match (x - inject_Z f ?= 1 # 2)%Q with
  | Lt => f
  | Gt => (f + 1)%Z
  | Eq => if Z.even f then f else (f + 1)%Z
  end.

(** The least positive number is [2^-1074]; every finite number is a
    multiple of it, and [2^1024] is [2^2098] such units. *)
Definition units : positive := (2 ^ 1074)%positive.
Definition overflow : Z := (2 ^ 2098)%Z.

(** The integer nearest to [scaled] among those of at most 53 significant
    bits, ties to the one whose last kept bit is 0. *)
Definition keep53 (scaled : Q) : Z :=
  let shift := Z.max 0 (Z.log2 (Qfloor scaled) - 52) in
  (nearest_even (scaled / inject_Z (2 ^ shift)) * 2 ^ shift)%Z.

(** For [0 <= x], the number nearest to [x], in units: 53 significant bits
    are kept, fewer below [2^-1022]. *)
Definition nearest_units (x : Q) : Z := keep53 (x * inject_Z (Zpos units)).

(** Rounding of a real value to a number: to nearest, ties to even, and to
    an infinity from [2^1024 - 2^970] on. *)
Definition round (x : Q) : double :=
  if Qle_bool 0 x then
    if (overflow <=? nearest_units x)%Z then Infinity false
    else Finite (Qred (nearest_units x # units))
  else
    if (overflow <=? nearest_units (- x))%Z then Infinity true
    else Finite (Qred (- nearest_units (- x) # units)).

(** An integer column value, and [arr.length], as numbers. *)
Definition of_Z (z : Z) : double := round (inject_Z z).
Definition of_nat (n : nat) : double := of_Z (Z.of_nat n).

(** A decimal literal of the source, such as [3.49]. *)
Definition literal (n : Z) (d : positive) : double := round (n # d).

Definition negative_value (x : Q) : bool := negb (Qle_bool 0 x).

(** [a + b]. *)
Definition add (a b : double) : double :=
  match a, b with
  | NaN, _ | _, NaN => NaN
  | Infinity s, Infinity t => if Bool.eqb s t then Infinity s else NaN
  | Infinity s, Finite _ => Infinity s
  | Finite _, Infinity t => Infinity t
  | Finite x, Finite y => round (x + y)
  end.

(** [a - b]. *)
Definition sub (a b : double) : double :=
  match a, b with
  | NaN, _ | _, NaN => NaN
  | Infinity s, Infinity t => if Bool.eqb s t then NaN else Infinity s
  | Infinity s, Finite _ => Infinity s
  | Finite _, Infinity t => Infinity (negb t)
  | Finite x, Finite y => round (x - y)
  end.

(** [a * b]. *)
Definition mul (a b : double) : double :=
  match a, b with
  | NaN, _ | _, NaN => NaN
  | Infinity s, Infinity t => Infinity (xorb s t)
  | Infinity s, Finite y =>
      if Qeq_bool y 0 then NaN else Infinity (xorb s (negative_value y))
  | Finite x, Infinity t =>
      if Qeq_bool x 0 then NaN else Infinity (xorb (negative_value x) t)
  | Finite x, Finite y => round (x * y)
  end.

(** [a / b]; a zero divisor is taken as [+0]. *)
Definition div (a b : double) : double :=
  match a, b with
  | NaN, _ | _, NaN => NaN
  | Infinity _, Infinity _ => NaN
  | Infinity s, Finite y => Infinity (xorb s (negative_value y))
  | Finite _, Infinity _ => zero
  | Finite x, Finite y =>
      if Qeq_bool y 0
      then if Qeq_bool x 0 then NaN else Infinity (negative_value x)
      else round (x / y)
  end.

(** [a < b] and [a == b]; every comparison with [NaN] is false. *)
Definition ltb (a b : double) : bool :=
  match a, b with
  | NaN, _ | _, NaN => false
  | Infinity s, Infinity t => s && negb t
  | Infinity s, Finite _ => s
  | Finite _, Infinity t => negb t
  | Finite x, Finite y => negb (Qle_bool y x)
  end.

Definition eqb (a b : double) : bool :=
  match a, b with
  | NaN, _ | _, NaN => false
  | Infinity s, Infinity t => Bool.eqb s t
  | Infinity _, Finite _ | Finite _, Infinity _ => false
  | Finite x, Finite y => Qeq_bool x y
  end.

Definition leb (a b : double) : bool := ltb a b || eqb a b.

(** [Math.min(a, b)] and [Math.max(a, b)]. *)
Definition min (a b : double) : double :=
  match a, b with
  | NaN, _ | _, NaN => NaN
  | _, _ => if ltb b a then b else a
  end.
Definition max (a b : double) : double :=
  match a, b with
  | NaN, _ | _, NaN => NaN
  | _, _ => if ltb a b then b else a
  end.

(** The decimal that [x.toFixed(digits)] writes for a finite [x] below
    [10^21]: the multiple of [10^-digits] nearest to the exact value of
    [x], the larger in absolute value of two. *)
Definition fixed (digits : nat) (x : Q) : Q :=
  Num.round_half_away (x * inject_Z (10 ^ Z.of_nat digits))
  # Z.to_pos (10 ^ Z.of_nat digits).

(** [parseFloat(x.toFixed(digits))]: the decimal is read back as the
    nearest number.  From [10^21] on, and for [NaN] and the infinities,
    [toFixed] writes the number as [toString] does, and it is read back
    unchanged. *)
Definition toFixed (digits : nat) (x : double) : double :=
  match x with
  | Finite v =>
      if Qle_bool (inject_Z (10 ^ 21)) v || Qle_bool v (inject_Z (- 10 ^ 21)) then x
      else round (fixed digits v)
  | _ => x
  end.

(** [arr.reduce((a, b) => a + b, 0)]. *)
Definition reduce_sum (arr : list double) : double := fold_left add arr zero.

End F64.

(** ** The figures of the hook and of the exporters in binary64

    The same functions as above, with every number a binary64 number and
    every operation rounded as JavaScript rounds it. *)

Module Hook64.

Record ManagerSummary := mkSummary {
  ms_manager_name : string;
  total_responses : nat;
  avg_team_leadership : F64.double;
  avg_results_orientation : F64.double;
  avg_cultural_fit : F64.double;
  overall_score : F64.double;
  responses : list AppraisalResponse
}.

Record CompetencyScore := mkCompetencyScore {
  cs_name : string;
  score : F64.double;
  maxScore : F64.double;
  cs_percentage : F64.double
}.

Record Buckets := mkBuckets {
  teamLeadershipScores : list F64.double;
  resultsOrientationScores : list F64.double;
  culturalFitScores : list F64.double
}.

(** [if (s != null) scores.push(s)]. *)
Definition push_non_null (arr : list F64.double) (s : option Z) : list F64.double :=
  match s with
  | Some v => arr ++ [F64.of_Z v]
  | None => arr
  end.

Definition bucket_step (b : Buckets) (r : AppraisalResponse) : Buckets :=
  {| teamLeadershipScores :=
       fold_left push_non_null
         [empowers_team_score r; mentors_coaches_score r; effective_direction_score r;
          establishes_rapport_score r; sets_clear_goals_score r]
         (teamLeadershipScores b);
     resultsOrientationScores :=
       fold_left push_non_null
         [open_to_ideas_score r; sense_of_urgency_score r; analyzes_change_score r;
          final_say_score r]
         (resultsOrientationScores b);
     culturalFitScores :=
       fold_left push_non_null
         [confidence_integrity_score r; patient_humble_score r; flat_collaborative_score r;
          approachable_score r]
         (culturalFitScores b) |}.

Definition buckets (group : list AppraisalResponse) : Buckets :=
  fold_left bucket_step group (mkBuckets [] [] []).

(** [const avg = (arr) => arr.length ? arr.reduce(...) / arr.length : 0]. *)
Definition avg (arr : list F64.double) : F64.double :=
  if (0 <? length arr)%nat
  then F64.div (F64.reduce_sum arr) (F64.of_nat (length arr))
  else F64.zero.

Definition avgTeamLeadership (group : list AppraisalResponse) : F64.double :=
  avg (teamLeadershipScores (buckets group)).
Definition avgResultsOrientation (group : list AppraisalResponse) : F64.double :=
  avg (resultsOrientationScores (buckets group)).
Definition avgCulturalFit (group : list AppraisalResponse) : F64.double :=
  avg (culturalFitScores (buckets group)).

Definition overallScore (group : list AppraisalResponse) : F64.double :=
  avg (List.filter (fun s => F64.ltb F64.zero s)
         [avgTeamLeadership group; avgResultsOrientation group; avgCulturalFit group]).

Definition summarise (entry : string * list AppraisalResponse) : ManagerSummary :=
  let '(managerName, group) := entry in
  {| ms_manager_name := managerName;
     total_responses := length group;
     avg_team_leadership := F64.toFixed 2 (avgTeamLeadership group);
     avg_results_orientation := F64.toFixed 2 (avgResultsOrientation group);
     avg_cultural_fit := F64.toFixed 2 (avgCulturalFit group);
     overall_score := F64.toFixed 2 (overallScore group);
     responses := group |}.

(** The comparator [(a, b) => b.overall_score - a.overall_score] lets [a]
    stay before [b] when its value is not above 0; [sort] reads a [NaN]
    as 0. *)
Definition in_order (a b : ManagerSummary) : bool :=
  match F64.sub (overall_score b) (overall_score a) with
  | F64.NaN => true
  | v => negb (F64.ltb F64.zero v)
  end.

Fixpoint insert_desc (x : ManagerSummary) (l : list ManagerSummary) : list ManagerSummary :=
  match l with
  | [] => [x]
  | y :: l' => if in_order x y then x :: y :: l' else y :: insert_desc x l'
  end.

Definition sort_desc (l : list ManagerSummary) : list ManagerSummary :=
  fold_right insert_desc [] l.

Definition managerSummaries (filtered : list AppraisalResponse) : list ManagerSummary :=
  sort_desc (map summarise (managerGroups filtered)).

(** [.map(r => r[comp.key]).filter(s => s != null)]. *)
Fixpoint non_null (col : list (option Z)) : list F64.double :=
  match col with
  | [] => []
  | Some s :: rest => F64.of_Z s :: non_null rest
  | None :: rest => non_null rest
  end.

Definition competencyScore (filtered : list AppraisalResponse) (comp : ScoreKey * string)
  : CompetencyScore :=
  let scores := non_null (map (get_score (fst comp)) filtered) in
  let avg := if (0 <? length scores)%nat
             then F64.div (F64.reduce_sum scores) (F64.of_nat (length scores))
             else F64.zero in
  let maxScore := F64.of_Z 5 in
  let percentage := F64.mul (F64.div avg maxScore) (F64.of_Z 100) in
  {| cs_name := snd comp;
     score := F64.toFixed 2 avg;
     maxScore := maxScore;
     cs_percentage := F64.toFixed 1 percentage |}.

Definition competencyScores (filtered : list AppraisalResponse) : list CompetencyScore :=
  map (competencyScore filtered) competencies.

End Hook64.

Module Exporter64.

Record CompetencyRow := mkRow {
  name : string;
  avg : F64.double;
  min : F64.double;
  max : F64.double;
  count : nat;
  percentage : F64.double
}.

Definition competencyRow (rs : list AppraisalResponse) (c : ScoreKey * string)
  : CompetencyRow :=
  let scores := Hook64.non_null (map (get_score (fst c)) rs) in
  let avg := if (0 <? length scores)%nat
             then F64.div (F64.reduce_sum scores) (F64.of_nat (length scores))
             else F64.zero in
  let min := match scores with x :: rest => fold_left F64.min rest x | [] => F64.zero end in
  let max := match scores with x :: rest => fold_left F64.max rest x | [] => F64.zero end in
  {| name := snd c; avg := avg; min := min; max := max;
     count := length scores;
     percentage := F64.mul (F64.div avg (F64.of_Z 4)) (F64.of_Z 100) |}.

Definition calculateCompetencyScores (rs : list AppraisalResponse) : list CompetencyRow :=
  map (competencyRow rs) Exporter.competencies.

End Exporter64.

(** Statements of the specification about the binary64 figures. *)
Module Spec64.

(** A number that is at least the integer [c]. *)
Definition at_least (c : Z) (d : F64.double) : Prop :=
  match d with
  | F64.Finite v => (inject_Z c <= v)%Q
  | F64.Infinity false => True
  | _ => False
  end.

(** A category average is 0 (no score) or at least 1. *)
Definition zero_or_ge1 (d : F64.double) : Prop := d = F64.zero ∨ at_least 1 d.

(** The mean of the numbers of [l], added up from left to right (0 for
    no number). *)
Definition mean_of (l : list F64.double) : F64.double :=
  match l with
  | [] => F64.zero
  | _ => F64.div (fold_left F64.add l F64.zero) (F64.of_Z (Z.of_nat (length l)))
  end.

(** Mean of the entries of [l] that are not zero (0 when there is none). *)
Definition nonzero_mean (l : list F64.double) : F64.double :=
  mean_of (List.filter (fun s => negb (F64.eqb s F64.zero)) l).

(** A JavaScript array holds fewer than [2^32] elements. *)
Definition array_length {A} (arr : list A) : Prop := (Z.of_nat (length arr) < 2 ^ 32)%Z.

(** The absolute values add up to less than [2^53]: every partial sum is
    an integer that a number holds exactly. *)
Definition exact_sum (vs : list Z) : Prop := (Spec.Zsum (map Z.abs vs) < 2 ^ 53)%Z.

(** The mean of the non-null values of a competency, as a number. *)
Definition mean (k : ScoreKey) (rs : list AppraisalResponse) : F64.double :=
  F64.round (Spec.column_mean k rs).

(** [x] relative to [scale], in percent, as the code computes it. *)
Definition percent_of (scale : Z) (x : F64.double) : F64.double :=
  F64.mul (F64.div x (F64.of_Z scale)) (F64.of_Z 100).

(** The entry of the engine's view as the specification reads it: the
    score is the mean itself. *)
Definition claimed_score (rs : list AppraisalResponse) (comp : ScoreKey * string)
  : Hook64.CompetencyScore :=
  {| Hook64.cs_name := comp.2;
     Hook64.score := mean comp.1 rs;
     Hook64.maxScore := F64.of_Z 5;
     Hook64.cs_percentage := percent_of 5 (mean comp.1 rs) |}.

(** The entry of the engine's view with the rounding of the hook. *)
Definition rounded_score (rs : list AppraisalResponse) (comp : ScoreKey * string)
  : Hook64.CompetencyScore :=
  {| Hook64.cs_name := comp.2;
     Hook64.score := F64.toFixed 2 (mean comp.1 rs);
     Hook64.maxScore := F64.of_Z 5;
     Hook64.cs_percentage := F64.toFixed 1 (percent_of 5 (mean comp.1 rs)) |}.

(** Name, average and percentage of each competency, as the exporters
    and as the engine give them. *)
Definition exporter_view (rs : list AppraisalResponse)
  : list (string * F64.double * F64.double) :=
  map (fun row => (Exporter64.name row, Exporter64.avg row, Exporter64.percentage row))
    (Exporter64.calculateCompetencyScores rs).

Definition engine_view (rs : list AppraisalResponse)
  : list (string * F64.double * F64.double) :=
  map (fun c => (Hook64.cs_name c, Hook64.score c, Hook64.cs_percentage c))
    (Hook64.competencyScores rs).

(** Every number of the three bucket arrays satisfies [P]. *)
Definition buckets_all (P : F64.double → Prop) (b : Hook64.Buckets) : Prop :=
  Forall P (Hook64.teamLeadershipScores b)
  ∧ Forall P (Hook64.resultsOrientationScores b)
  ∧ Forall P (Hook64.culturalFitScores b).

End Spec64.

(** Sample data for the binary64 figures. *)
Module Sample64.

(** A response with the five team-leadership scores and the four
    results-orientation scores given, and every other optional column
    null. *)
Definition scored (manager : string) (tl : list Z) (ro : list Z) : AppraisalResponse :=
  {| response_id := ""; manager_name := manager; relationship := None;
     response_number := None; timestamp := None; created_at := None;
     empowers_team_score := tl !! 0%nat; final_say_score := ro !! 3%nat;
     mentors_coaches_score := tl !! 1%nat; effective_direction_score := tl !! 2%nat;
     establishes_rapport_score := tl !! 3%nat; sets_clear_goals_score := tl !! 4%nat;
     open_to_ideas_score := ro !! 0%nat; sense_of_urgency_score := ro !! 1%nat;
     analyzes_change_score := ro !! 2%nat; confidence_integrity_score := None;
     patient_humble_score := None; flat_collaborative_score := None;
     approachable_score := None; stop_doing := None; start_doing := None;
     continue_doing := None; results_orientation_comments := None;
     cultural_fit_comments := None; team_leadership_comments := None |}.

(** Team leadership averages 7/5 = 1.4 and results orientation 5/4 = 1.25:
    their mean is 1.325. *)
Definition tie : list AppraisalResponse :=
  [scored "Ann" [1; 1; 2; 2; 1]%Z [1; 1; 1; 2]%Z].

(** Sixteen values of one competency that add up to 23: the mean is
    1.4375 and 28.75 percent of 5. *)
Definition sixteen : list AppraisalResponse :=
  repeat (Sample.with_empowers "Ann" 1) 9 ++ repeat (Sample.with_empowers "Ann" 2) 7.

(** The values 1, 1 and 2 of one competency. *)
Definition thirds : list AppraisalResponse :=
  [Sample.with_empowers "Ann" 1; Sample.with_empowers "Ann" 1;
   Sample.with_empowers "Ann" 2].

End Sample64.

(** * Properties *)

(** ** The filter *)

Lemma includes_elem_of (l : list string) (x : string) :
  JS.includes l x = true ↔ x ∈ l.
Proof.
  unfold JS.includes. rewrite existsb_exists. split.
  - intros (y & Hy & Heq). apply String.eqb_eq in Heq. subst.
    by apply list_elem_of_In.
  - intros Hx. exists x. split; [by apply list_elem_of_In | apply String.eqb_refl].
Qed.

Lemma length_pos_nil {A} (l : list A) : (0 <? length l)%nat = false ↔ l = [].
Proof. destruct l; simpl; split; intros; done. Qed.

Lemma keep_response_kept (filters : FilterState) (r : AppraisalResponse) :
  keep_response filters r = true ↔ Spec.kept filters r.
Proof.
  unfold keep_response, Spec.kept, Spec.selected.
  assert (Hm : (0 <? length (managers filters))%nat
               && negb (JS.includes (managers filters) (manager_name r)) = false
               ↔ managers filters = [] ∨ manager_name r ∈ managers filters).
  { rewrite andb_false_iff, negb_false_iff, length_pos_nil, includes_elem_of. done. }
  assert (Hr : (0 <? length (relationships filters))%nat
               && JS.truthy (relationship r)
               && negb (match relationship r with
                        | Some rel => JS.includes (relationships filters) rel
                        | None => false end) = false
               ↔ relationships filters = [] ∨ relationship r = None
                 ∨ relationship r = Some ""
                 ∨ from_option (fun rel => rel ∈ relationships filters) False
                     (relationship r)).
  { rewrite !andb_false_iff, negb_false_iff, length_pos_nil.
    destruct (relationship r) as [rel|]; simpl.
    - rewrite negb_false_iff, String.eqb_eq, includes_elem_of.
      split.
      + intros [[?|?]|?]; subst; eauto 6.
      + intros [?|[?|[Hs|?]]]; try done; auto.
        inversion Hs; auto.
    - split; auto. }
  rewrite <- Hm, <- Hr.
  destruct (_ && negb (JS.includes (managers filters) _));
    destruct (_ && _ && negb _); split; intros H; try done; try tauto.
  all: destruct H; done.
Qed.

Lemma filteredResponses_filter (all : list AppraisalResponse) (filters : FilterState) :
  filteredResponses all filters = filter (Spec.kept filters) all.
Proof.
  unfold filteredResponses. induction all as [|r all IH]; [done|].
  simpl. rewrite filter_cons, IH.
  destruct (keep_response filters r) eqn:Hk; destruct (decide (Spec.kept filters r)) as [Hd|Hd];
    try done.
  - apply keep_response_kept in Hk. done.
  - apply keep_response_kept in Hd. congruence.
Qed.

(** C2 (amended): the filter keeps, in input order, exactly the responses
    such that (the manager selection is empty or contains the manager name)
    and (the relationship selection is empty, or the relationship is null
    or empty, or the relationship is selected); with both selections empty
    it is the identity. *)
Theorem filteredResponses_rule (all : list AppraisalResponse) (filters : FilterState) :
  filteredResponses all filters = filter (Spec.kept filters) all
  ∧ sublist (filteredResponses all filters) all
  ∧ (∀ r, r ∈ filteredResponses all filters ↔ r ∈ all ∧ Spec.kept filters r)
  ∧ filteredResponses all (mkFilter [] [] (scoreRange filters)) = all.
Proof.
  rewrite !filteredResponses_filter.
  split; [done|]. split; [apply sublist_filter|]. split.
  - intros r. rewrite list_elem_of_filter. tauto.
  - induction all as [|r all IH]; [done|].
    rewrite filter_cons, IH. case_decide as Hk; [done|].
    exfalso. apply Hk. split; by left.
Qed.

(** C2 (as stated) fails: with the relationship selection ["Peer"], a
    response without a relationship is kept, while the stated rule
    rejects it. *)
Lemma filteredResponses_claimed_rule_fails :
  filteredResponses [Sample.blank_response "Ann"] Sample.peers_only
    = [Sample.blank_response "Ann"]
  ∧ ¬ Spec.claimed_keep Sample.peers_only (Sample.blank_response "Ann")
  ∧ filter (Spec.claimed_keep Sample.peers_only) [Sample.blank_response "Ann"] = [].
Proof.
  split; [reflexivity|]. split; [|reflexivity].
  unfold Spec.claimed_keep, Spec.selected. simpl.
  intros [_ [H | [H | [_ H]]]]; done.
Qed.

(** ** Strings *)

Lemma is_white_lower (c : ascii) : JS.is_white (JS.lower_char c) = JS.is_white c.
Proof. destruct c as [[] [] [] [] [] [] [] []]; reflexivity. Qed.

Lemma toLowerCase_empty (s : string) : JS.toLowerCase s = "" ↔ s = "".
Proof. destruct s; simpl; split; intros; done. Qed.

Lemma trimStart_lower (s : string) :
  JS.trimStart (JS.toLowerCase s) = JS.toLowerCase (JS.trimStart s).
Proof.
  induction s as [|c s IH]; [done|]. simpl. rewrite is_white_lower.
  destruct (JS.is_white c); done.
Qed.

Lemma trimEnd_lower (s : string) :
  JS.trimEnd (JS.toLowerCase s) = JS.toLowerCase (JS.trimEnd s).
Proof.
  induction s as [|c s IH]; [done|]. simpl. rewrite IH, is_white_lower.
  destruct (JS.trimEnd s); simpl; [destruct (JS.is_white c)|]; done.
Qed.

Lemma trim_lower (s : string) : JS.trim (JS.toLowerCase s) = JS.toLowerCase (JS.trim s).
Proof. unfold JS.trim. by rewrite trimStart_lower, trimEnd_lower. Qed.

Lemma trimEnd_idem (s : string) : JS.trimEnd (JS.trimEnd s) = JS.trimEnd s.
Proof.
  induction s as [|c s IH]; [done|]. simpl.
  destruct (JS.trimEnd s) as [|d t] eqn:Ht.
  - destruct (JS.is_white c) eqn:Hc; simpl; [done|]. by rewrite Hc.
  - simpl in *. by rewrite IH.
Qed.

Lemma trimStart_starts_black (s : string) : Spec.starts_black (JS.trimStart s).
Proof.
  induction s as [|c s IH]; [done|]. simpl.
  destruct (JS.is_white c) eqn:Hc; [done|]. simpl. done.
Qed.

Lemma trimStart_black (s : string) : Spec.starts_black s → JS.trimStart s = s.
Proof. destruct s as [|c s]; [done|]. simpl. by intros ->. Qed.

Lemma trimEnd_starts_black (s : string) : Spec.starts_black s → Spec.starts_black (JS.trimEnd s).
Proof.
  destruct s as [|c s]; [done|]. simpl. intros Hc.
  destruct (JS.trimEnd s); [rewrite Hc|]; done.
Qed.

Lemma trim_idem (s : string) : JS.trim (JS.trim s) = JS.trim s.
Proof.
  unfold JS.trim.
  rewrite (trimStart_black (JS.trimEnd _)).
  - apply trimEnd_idem.
  - apply trimEnd_starts_black, trimStart_starts_black.
Qed.

(** The key computed by the hook, [text.toLowerCase().trim()], is the
    lower-cased trimmed text. *)
Lemma normalized_compare_key (text : string) :
  JS.trim (JS.toLowerCase text) = Spec.compare_key text.
Proof. apply trim_lower. Qed.

Lemma compare_key_trim (text : string) :
  Spec.compare_key (JS.trim text) = Spec.compare_key text.
Proof. unfold Spec.compare_key. by rewrite trim_idem. Qed.

Lemma compare_key_empty (text : string) :
  Spec.compare_key text = "" ↔ JS.trim text = "".
Proof. apply toLowerCase_empty. Qed.

(** ** Feedback themes *)

Lemma theme_step_present p field st :
  theme_step p field st = fold_left Spec.entry_step (Spec.present p field) st.
Proof.
  destruct field as [text|]; [|done].
  unfold theme_step, Spec.present, JS.truthy.
  destruct (decide (text = "")) as [Ht|Ht].
  - subst. reflexivity.
  - apply String.eqb_neq in Ht. rewrite Ht. reflexivity.
Qed.

Lemma themes_of_response_entries st r :
  themes_of_response st r = fold_left Spec.entry_step (Spec.entries_of r) st.
Proof.
  unfold themes_of_response, Spec.entries_of.
  by rewrite !fold_left_app, !theme_step_present.
Qed.

Lemma fold_themes_entries rs st :
  fold_left themes_of_response rs st = fold_left Spec.entry_step (Spec.all_entries rs) st.
Proof.
  revert st. induction rs as [|r rs IH]; intros st; [done|].
  unfold Spec.all_entries in *. simpl.
  by rewrite fold_left_app, IH, themes_of_response_entries.
Qed.

Lemma themes_app_nil t : Spec.themes_app t [] = t.
Proof. destruct t. unfold Spec.themes_app. simpl. by rewrite !app_nil_r. Qed.

Lemma themes_app_push t e l :
  Spec.themes_app (push_theme e.1 (JS.trim e.2) t) l = Spec.themes_app t (e :: l).
Proof.
  destruct e as [[] text]; unfold Spec.themes_app, Spec.select; simpl;
    by rewrite <- ?app_assoc.
Qed.

Lemma fold_entries_dedup l (S : gset string) (seen : list string) t :
  (∀ x, x ∈ S ↔ x ∈ seen) →
  (fold_left Spec.entry_step l (S, t)).2 = Spec.themes_app t (Spec.dedup_global seen l).
Proof.
  revert S seen t. induction l as [|e l IH]; intros S seen t HS; simpl.
  - by rewrite themes_app_nil.
  - unfold Spec.entry_step at 2. simpl. rewrite normalized_compare_key.
    destruct (decide (Spec.compare_key e.2 ∈ S)) as [Hin|Hin];
      destruct (decide (Spec.compare_key e.2 ∈ seen)) as [Hin'|Hin'].
    + by apply IH.
    + exfalso. apply Hin'. by apply HS.
    + exfalso. apply Hin. by apply HS.
    + rewrite (IH _ (Spec.compare_key e.2 :: seen)).
      * apply themes_app_push.
      * intros x. rewrite elem_of_cons, elem_of_union, elem_of_singleton, HS. done.
Qed.

Lemma feedbackThemes_themes rs : feedbackThemes rs = Spec.themes rs.
Proof.
  unfold feedbackThemes. rewrite fold_themes_entries.
  rewrite (fold_entries_dedup _ _ []); [done|]. set_solver.
Qed.

Lemma dedup_global_fresh seen l e :
  e ∈ Spec.dedup_global seen l → Spec.compare_key e.2 ∉ seen.
Proof.
  revert seen. induction l as [|x l IH]; intros seen; simpl; [by intros ?%elem_of_nil|].
  case_decide as Hx.
  - apply IH.
  - intros [->|He]%elem_of_cons; [done|].
    apply IH in He. set_solver.
Qed.

Lemma dedup_global_NoDup seen l :
  NoDup (map (fun e => Spec.compare_key e.2) (Spec.dedup_global seen l)).
Proof.
  revert seen. induction l as [|x l IH]; intros seen; simpl; [constructor|].
  case_decide as Hx; [apply IH|].
  simpl. constructor; [|apply IH].
  intros (e & Heq & He)%list_elem_of_fmap.
  apply dedup_global_fresh in He. rewrite <- Heq in He. set_solver.
Qed.

Lemma select_partition (l : list (Prompt * string)) :
  map snd l ≡ₚ Spec.select Stop l ++ Spec.select Start l ++ Spec.select Continue l.
Proof.
  induction l as [|[[] text] l IH]; unfold Spec.select in *; simpl; [done| | |].
  - by constructor.
  - rewrite IH. apply Permutation_middle.
  - rewrite IH. rewrite (app_assoc _ _ (text :: _)), (app_assoc _ _ (map _ _)).
    apply Permutation_middle.
Qed.

Lemma all_themes_keys rs :
  map Spec.compare_key (Spec.all_themes (Spec.themes rs))
  ≡ₚ map (fun e => Spec.compare_key e.2) (Spec.dedup_global [] (Spec.all_entries rs)).
Proof.
  unfold Spec.all_themes, Spec.themes. simpl.
  rewrite <- !map_app, map_map.
  rewrite (map_ext _ Spec.compare_key compare_key_trim).
  rewrite <- select_partition. by rewrite map_map.
Qed.

Lemma themes_keys_NoDup rs :
  NoDup (map Spec.compare_key (Spec.all_themes (feedbackThemes rs))).
Proof. rewrite feedbackThemes_themes, all_themes_keys. apply dedup_global_NoDup. Qed.

(** C5: the themes computed by the hook are those of one global pass over
    the stop, start and continue entries taken response by response and
    field by field, compared on the lower-cased trimmed text against one
    shared collection of keys; each kept entry is the trimmed original text;
    no key occurs twice in the three lists together. *)
Theorem feedbackThemes_global_dedup (rs : list AppraisalResponse) :
  feedbackThemes rs = Spec.themes rs
  ∧ NoDup (map Spec.compare_key (Spec.all_themes (feedbackThemes rs))).
Proof.
  split; [apply feedbackThemes_themes | apply themes_keys_NoDup].
Qed.

Lemma present_nonempty p field e : e ∈ Spec.present p field → e.1 = p ∧ e.2 ≠ "" ∧ field = Some e.2.
Proof.
  destruct field as [text|]; simpl; [|by intros ?%elem_of_nil].
  case_decide; [by intros ?%elem_of_nil|].
  intros ->%list_elem_of_singleton. done.
Qed.

Lemma all_entries_field rs e :
  e ∈ Spec.all_entries rs ↔
  ∃ r, r ∈ rs ∧ Spec.prompt_field e.1 r = Some e.2 ∧ e.2 ≠ "".
Proof.
  unfold Spec.all_entries. rewrite list_elem_of_In, in_flat_map. split.
  - intros (r & Hr & He). exists r. apply list_elem_of_In in Hr, He.
    split; [done|]. unfold Spec.entries_of in He.
    rewrite !elem_of_app in He.
    destruct He as [He | [He | He]]; apply present_nonempty in He as (-> & ? & ?); done.
  - intros (r & Hr & Hf & Hne). exists r. rewrite <- !list_elem_of_In. split; [done|].
    unfold Spec.entries_of. rewrite !elem_of_app.
    destruct e as [[] text]; simpl in *; [left | right; left | right; right];
      rewrite Hf; simpl; (case_decide; [done|]); by apply list_elem_of_singleton.
Qed.

Lemma dedup_global_sub seen l e : e ∈ Spec.dedup_global seen l → e ∈ l.
Proof.
  revert seen. induction l as [|x l IH]; intros seen; simpl; [done|].
  case_decide.
  - intros ?%IH. by right.
  - intros [->|?%IH]%elem_of_cons; [left | by right].
Qed.

Lemma dedup_global_first pre e post seen :
  Spec.compare_key e.2 ∉ seen →
  (∀ x, x ∈ pre → Spec.compare_key x.2 ≠ Spec.compare_key e.2) →
  e ∈ Spec.dedup_global seen (pre ++ e :: post).
Proof.
  revert seen. induction pre as [|x pre IH]; intros seen Hseen Hpre; simpl.
  - case_decide; [done|]. by left.
  - assert (Hx : Spec.compare_key x.2 ≠ Spec.compare_key e.2) by (apply Hpre; by left).
    assert (Hpre' : ∀ y, y ∈ pre → Spec.compare_key y.2 ≠ Spec.compare_key e.2)
      by (intros y Hy; apply Hpre; by right).
    case_decide.
    + by apply IH.
    + right. apply IH; [|done].
      rewrite elem_of_cons. intros [?|?]; congruence.
Qed.

Lemma dedup_global_id seen l :
  NoDup (map (fun e => Spec.compare_key e.2) l) →
  (∀ e, e ∈ l → Spec.compare_key e.2 ∉ seen) →
  Spec.dedup_global seen l = l.
Proof.
  revert seen. induction l as [|x l IH]; intros seen Hnd Hseen; simpl; [done|].
  inversion Hnd as [|?? Hx Hnd']; subst.
  case_decide as Hin.
  - exfalso. by apply (Hseen x); [left|].
  - f_equal. apply IH; [done|].
    intros e He. rewrite elem_of_cons. intros [Heq|Hs].
    + apply Hx. rewrite <- Heq. apply list_elem_of_fmap. by exists e.
    + apply (Hseen e); [by right | done].
Qed.

Lemma elem_of_select p l text :
  text ∈ Spec.select p l ↔ (p, text) ∈ l.
Proof.
  unfold Spec.select. rewrite list_elem_of_fmap. split.
  - intros ([p' t'] & -> & He). apply list_elem_of_In, filter_In in He as [He Hp].
    apply bool_decide_eq_true in Hp. simpl in *. subst. by apply list_elem_of_In.
  - intros He. exists (p, text). split; [done|].
    apply list_elem_of_In, filter_In. split; [by apply list_elem_of_In|].
    by apply bool_decide_eq_true.
Qed.

Lemma elem_of_themes p rs s :
  s ∈ Spec.prompt_list p (Spec.themes rs) ↔
  ∃ text, s = JS.trim text ∧ (p, text) ∈ Spec.dedup_global [] (Spec.all_entries rs).
Proof.
  destruct p; simpl; rewrite list_elem_of_fmap; by setoid_rewrite elem_of_select.
Qed.

Lemma elem_of_all_themes t s :
  s ∈ Spec.all_themes t ↔ ∃ p, s ∈ Spec.prompt_list p t.
Proof.
  unfold Spec.all_themes. rewrite !elem_of_app. split.
  - intros [?|[?|?]]; [by exists Stop | by exists Start | by exists Continue].
  - intros [[] ?]; auto.
Qed.

Lemma count_NoDup (l : list string) (x : string) :
  NoDup l → (length (List.filter (fun s => String.eqb s x) l) ≤ 1)%nat.
Proof.
  induction 1 as [|y l Hy Hnd IH]; simpl; [lia|].
  destruct (String.eqb y x) eqn:Hyx; [|done].
  apply String.eqb_eq in Hyx. subst. simpl.
  assert (List.filter (fun s => String.eqb s x) l = []) as ->; [|simpl; lia].
  clear IH Hnd. induction l as [|z l IH]; [done|]. simpl.
  destruct (String.eqb z x) eqn:Hzx.
  - apply String.eqb_eq in Hzx. subst. exfalso. apply Hy. by left.
  - apply IH. intros ?. apply Hy. by right.
Qed.

Lemma count_elem_of (l : list string) (x : string) :
  x ∈ l → (1 ≤ length (List.filter (fun s => String.eqb s x) l))%nat.
Proof.
  induction 1 as [y l | y z l Hin IH]; simpl.
  - rewrite String.eqb_refl. simpl. lia.
  - destruct (String.eqb z y); simpl; lia.
Qed.

Lemma blank_dec (text : string) : {Spec.blank text} + {¬ Spec.blank text}.
Proof. unfold Spec.blank. exact (decide (text ≠ "" ∧ JS.trim text = "")). Qed.

Lemma first_blank (l : list (Prompt * string)) e :
  e ∈ l → Spec.blank e.2 →
  ∃ pre f post, l = pre ++ f :: post ∧ Spec.blank f.2 ∧ ∀ x, x ∈ pre → ¬ Spec.blank x.2.
Proof.
  induction l as [|x l IH]; [by intros ?%elem_of_nil|].
  intros Hin Hb. destruct (blank_dec x.2) as [Hx|Hx].
  - exists [], x, l. split; [done|]. split; [done|]. by intros ? ?%elem_of_nil.
  - apply elem_of_cons in Hin as [->|Hin]; [done|].
    destruct (IH Hin Hb) as (pre & f & post & -> & Hf & Hpre).
    exists (x :: pre), f, post. split; [done|]. split; [done|].
    intros y [->|?]%elem_of_cons; auto.
Qed.

(** The first white-space-only entry in processing order is kept, as the
    empty string, in the list of its prompt. *)
Lemma first_blank_emitted rs pre p text post :
  Spec.all_entries rs = pre ++ (p, text) :: post →
  Spec.blank text →
  (∀ e, e ∈ pre → ¬ Spec.blank e.2) →
  "" ∈ Spec.prompt_list p (feedbackThemes rs).
Proof.
  intros Hsplit [Hne Hb] Hpre. rewrite feedbackThemes_themes.
  apply elem_of_themes. exists text. split; [done|].
  rewrite Hsplit. apply (dedup_global_first pre (p, text) post []).
  - by intros ?%elem_of_nil.
  - intros x Hx Heq. simpl in Heq.
    apply compare_key_empty in Hb. rewrite Hb in Heq.
    apply compare_key_empty in Heq.
    apply (Hpre x Hx). split; [|done].
    assert (Hin : x ∈ Spec.all_entries rs) by (rewrite Hsplit, elem_of_app; by left).
    apply all_entries_field in Hin as (_ & _ & _ & ?). done.
Qed.

Lemma empty_entries_le rs : (Spec.empty_entries (feedbackThemes rs) ≤ 1)%nat.
Proof.
  unfold Spec.empty_entries. apply count_NoDup.
  apply (NoDup_fmap_1 Spec.compare_key), themes_keys_NoDup.
Qed.

(** C10 (amended): at most one empty string appears in the three lists
    together; when some stop, start or continue field is a non-empty string
    of white space only, exactly one does, and it is in the list of the
    first such field in processing order. *)
Theorem feedbackThemes_blank_field (rs : list AppraisalResponse) :
  (Spec.empty_entries (feedbackThemes rs) ≤ 1)%nat
  ∧ (∀ r p text,
       r ∈ rs → Spec.prompt_field p r = Some text → Spec.blank text →
       Spec.empty_entries (feedbackThemes rs) = 1%nat)
  ∧ (∀ pre p text post,
       Spec.all_entries rs = pre ++ (p, text) :: post →
       Spec.blank text →
       (∀ e, e ∈ pre → ¬ Spec.blank e.2) →
       "" ∈ Spec.prompt_list p (feedbackThemes rs)).
Proof.
  split; [apply empty_entries_le|]. split; [|apply first_blank_emitted].
  intros r p text Hr Hf Hb.
  assert (Hin : (p, text) ∈ Spec.all_entries rs).
  { apply all_entries_field. exists r. destruct Hb. done. }
  destruct (first_blank _ _ Hin Hb) as (pre & [q t] & post & Hsplit & Hq & Hpre).
  pose proof (first_blank_emitted rs pre q t post Hsplit Hq Hpre) as Hemit.
  assert (Hall : "" ∈ Spec.all_themes (feedbackThemes rs))
    by (apply elem_of_all_themes; by exists q).
  apply count_elem_of in Hall. pose proof (empty_entries_le rs).
  unfold Spec.empty_entries in *. lia.
Qed.

Lemma feedbackThemes_blank_field_witness :
  Spec.empty_entries
    (feedbackThemes [Sample.with_prompts "Ann" (Some " ") (Some "  ") None]) = 1%nat
  ∧ "" ∈ stopDoing
      (feedbackThemes [Sample.with_prompts "Ann" (Some " ") (Some "  ") None]).
Proof.
  destruct (feedbackThemes_blank_field
              [Sample.with_prompts "Ann" (Some " ") (Some "  ") None])
    as (_ & Hone & Hfirst).
  split.
  - apply (Hone (Sample.with_prompts "Ann" (Some " ") (Some "  ") None) Start "  ").
    + apply list_elem_of_singleton. reflexivity.
    + reflexivity.
    + split; [discriminate | reflexivity].
  - apply (Hfirst [] Stop " " [(Start, "  ")]).
    + reflexivity.
    + split; [discriminate | reflexivity].
    + intros e He. apply elem_of_nil in He. destruct He.
Defined.

(** C10 (as stated) fails: a response whose stop and start fields are both
    white space only yields the empty string in the stop list, and nothing
    in the start list. *)
Lemma feedbackThemes_blank_claim_fails :
  Spec.blank "  "
  ∧ start_doing (Sample.with_prompts "Ann" (Some " ") (Some "  ") None) = Some "  "
  ∧ feedbackThemes [Sample.with_prompts "Ann" (Some " ") (Some "  ") None]
    = mkThemes [""] [] []
  ∧ "" ∉ startDoing (feedbackThemes [Sample.with_prompts "Ann" (Some " ") (Some "  ") None]).
Proof.
  split; [split; [discriminate | reflexivity]|].
  split; [reflexivity|].
  assert (H : feedbackThemes [Sample.with_prompts "Ann" (Some " ") (Some "  ") None]
              = mkThemes [""] [] []) by (vm_compute; reflexivity).
  split; [exact H|]. rewrite H. simpl. apply not_elem_of_nil.
Qed.

(** *** Running the extraction on its own output *)

Lemma themes_nonempty rs s :
  Spec.no_blank_field rs → s ∈ Spec.all_themes (Spec.themes rs) → s ≠ "".
Proof.
  intros Hnb (p & Hs)%elem_of_all_themes.
  apply elem_of_themes in Hs as (text & -> & Hin).
  apply dedup_global_sub, all_entries_field in Hin as (r & Hr & Hf & Hne).
  simpl in *. intros Htrim. by apply (Hnb r p text Hr Hf).
Qed.

Lemma entries_of_theme p (l : list string) :
  (∀ s, s ∈ l → s ≠ "") →
  Spec.all_entries (map (response_of_theme p) l) = map (pair p) l.
Proof.
  induction l as [|s l IH]; intros Hne; [done|].
  unfold Spec.all_entries in *. simpl. rewrite IH.
  - assert (Hs : s ≠ "") by (apply Hne; by left).
    destruct p; unfold Spec.entries_of; simpl; by case_decide.
  - intros x Hx. apply Hne. by right.
Qed.

Lemma all_entries_app rs1 rs2 :
  Spec.all_entries (rs1 ++ rs2) = Spec.all_entries rs1 ++ Spec.all_entries rs2.
Proof. apply flat_map_app. Qed.

Lemma select_app p l1 l2 :
  Spec.select p (l1 ++ l2) = Spec.select p l1 ++ Spec.select p l2.
Proof. unfold Spec.select. by rewrite List.filter_app, map_app. Qed.

Lemma select_tagged p q (l : list string) :
  Spec.select p (map (pair q) l) = if decide (q = p) then l else [].
Proof.
  unfold Spec.select. destruct (decide (q = p)) as [Heq|Hne].
  - induction l as [|s l IH]; [done|]. simpl.
    rewrite bool_decide_eq_true_2 by done. simpl. by rewrite IH.
  - induction l as [|s l IH]; [done|]. simpl.
    by rewrite bool_decide_eq_false_2.
Qed.

Lemma themes_of_themes (t : FeedbackThemes) :
  (∀ s, s ∈ Spec.all_themes t → s ≠ "") →
  NoDup (map Spec.compare_key (Spec.all_themes t)) →
  Spec.themes (responses_of_themes t)
  = mkThemes (map JS.trim (stopDoing t)) (map JS.trim (startDoing t))
      (map JS.trim (continueDoing t)).
Proof.
  intros Hne Hnd. unfold Spec.themes, responses_of_themes.
  rewrite !all_entries_app, !entries_of_theme.
  2-4: intros s Hs; apply Hne; unfold Spec.all_themes; rewrite !elem_of_app; auto.
  rewrite dedup_global_id.
  - rewrite !select_app, !select_tagged. simpl. by rewrite !app_nil_r.
  - rewrite !map_app, !map_map. simpl.
    unfold Spec.all_themes in Hnd. by rewrite !map_app in Hnd.
  - intros e _. apply not_elem_of_nil.
Qed.

Lemma themes_trimmed rs p :
  map JS.trim (Spec.prompt_list p (Spec.themes rs)) = Spec.prompt_list p (Spec.themes rs).
Proof.
  destruct p; simpl; rewrite map_map; apply map_ext; intros; apply trim_idem.
Qed.

(** C9 (amended): when no stop, start or continue field of the input is a
    non-empty string of white space only, running the extraction on the
    responses built from its own output gives the same three lists. *)
Theorem feedbackThemes_idempotent (rs : list AppraisalResponse) :
  Spec.no_blank_field rs →
  feedbackThemes (responses_of_themes (feedbackThemes rs)) = feedbackThemes rs.
Proof.
  intros Hnb. rewrite (feedbackThemes_themes (responses_of_themes _)).
  rewrite themes_of_themes.
  - rewrite feedbackThemes_themes.
    pose proof (themes_trimmed rs Stop) as H1.
    pose proof (themes_trimmed rs Start) as H2.
    pose proof (themes_trimmed rs Continue) as H3.
    simpl in H1, H2, H3. simpl. by rewrite H1, H2, H3.
  - intros s. rewrite feedbackThemes_themes. by apply themes_nonempty.
  - apply themes_keys_NoDup.
Qed.

Lemma feedbackThemes_idempotent_witness :
  feedbackThemes
    (responses_of_themes
       (feedbackThemes
          [Sample.with_prompts "Ann" (Some " Listen ") (Some "LISTEN") (Some "Coach")]))
  = feedbackThemes
      [Sample.with_prompts "Ann" (Some " Listen ") (Some "LISTEN") (Some "Coach")].
Proof.
  apply feedbackThemes_idempotent.
  intros r p text Hr Hf [_ Hb].
  apply list_elem_of_singleton in Hr. subst r.
  destruct p; simpl in Hf; inversion Hf; subst text; discriminate Hb.
Defined.

(** C9 (as stated) fails: from a stop field that is one space the
    extraction yields the empty string, and from the response built from
    that output it yields nothing. *)
Lemma feedbackThemes_not_idempotent :
  feedbackThemes [Sample.with_prompts "Ann" (Some " ") None None] = mkThemes [""] [] []
  ∧ feedbackThemes
      (responses_of_themes (feedbackThemes [Sample.with_prompts "Ann" (Some " ") None None]))
    = mkThemes [] [] []
  ∧ feedbackThemes
      (responses_of_themes (feedbackThemes [Sample.with_prompts "Ann" (Some " ") None None]))
    ≠ feedbackThemes [Sample.with_prompts "Ann" (Some " ") None None].
Proof.
  assert (H1 : feedbackThemes [Sample.with_prompts "Ann" (Some " ") None None]
               = mkThemes [""] [] []) by (vm_compute; reflexivity).
  rewrite H1. split; [done|].
  assert (H2 : feedbackThemes (responses_of_themes (mkThemes [""] [] []))
               = mkThemes [] [] []) by (vm_compute; reflexivity).
  rewrite H2. split; [done|]. discriminate.
Qed.

(** ** Manager summaries: grouping *)

Lemma groups_get_set m k v k' :
  groups_get (groups_set m k v) k'
  = if String.eqb k k' then Some v else groups_get m k'.
Proof.
  induction m as [|[k0 v0] m IH]; simpl.
  - done.
  - destruct (String.eqb k0 k) eqn:Hk; simpl.
    + apply String.eqb_eq in Hk. subst. by destruct (String.eqb k k').
    + rewrite IH. destruct (String.eqb k0 k') eqn:Hk'; [|done].
      apply String.eqb_eq in Hk'. subst. by rewrite String.eqb_sym, Hk.
Qed.

Lemma groups_get_None m k : groups_get m k = None ↔ k ∉ map fst m.
Proof.
  induction m as [|[k0 v0] m IH]; simpl.
  - split; [intros _; apply not_elem_of_nil | done].
  - rewrite not_elem_of_cons. destruct (String.eqb k0 k) eqn:Hk.
    + apply String.eqb_eq in Hk. subst. split; [done | by intros [? _]].
    + apply String.eqb_neq in Hk. rewrite IH. split; [by intros ? | by intros [_ ?]].
Qed.

Lemma groups_set_keys m k v :
  map fst (groups_set m k v)
  = match groups_get m k with Some _ => map fst m | None => map fst m ++ [k] end.
Proof.
  induction m as [|[k0 v0] m IH]; simpl; [done|].
  destruct (String.eqb k0 k) eqn:Hk; simpl; [done|].
  rewrite IH. by destruct (groups_get m k).
Qed.

Lemma groups_get_elem m k g :
  NoDup (map fst m) → (k, g) ∈ m ↔ groups_get m k = Some g.
Proof.
  induction m as [|[k0 v0] m IH]; simpl; intros Hnd.
  - split; [by intros ?%elem_of_nil | done].
  - inversion Hnd as [|?? Hk0 Hnd']; subst. rewrite elem_of_cons.
    destruct (String.eqb k0 k) eqn:Hk.
    + apply String.eqb_eq in Hk. subst. split.
      * intros [Heq | Hin]; [by inversion Heq|].
        exfalso. apply Hk0. apply list_elem_of_fmap. by exists (k, g).
      * intros [= ->]. by left.
    + apply String.eqb_neq in Hk. rewrite <- (IH Hnd'). split.
      * intros [Heq | Hin]; [inversion Heq; congruence | done].
      * by right.
Qed.

Lemma by_manager_app k rs1 rs2 :
  Spec.by_manager k (rs1 ++ rs2) = Spec.by_manager k rs1 ++ Spec.by_manager k rs2.
Proof. apply List.filter_app. Qed.

Lemma group_step_grouped m rs r :
  Spec.grouped m rs → Spec.grouped (group_step m r) (rs ++ [r]).
Proof.
  intros [Hnd Hget]. unfold group_step. split.
  - rewrite groups_set_keys.
    destruct (groups_get m (manager_name r)) eqn:Hg; [done|].
    apply NoDup_app. split; [done|]. split; [|apply NoDup_singleton].
    intros x Hx ->%list_elem_of_singleton. by apply groups_get_None in Hg.
  - intros k. rewrite groups_get_set, by_manager_app. simpl.
    destruct (String.eqb (manager_name r) k) eqn:Hk.
    + apply String.eqb_eq in Hk. subst. rewrite Hget.
      destruct (Spec.by_manager (manager_name r) rs); done.
    + rewrite app_nil_r. apply Hget.
Qed.

Lemma fold_group_step_grouped rs m done_ :
  Spec.grouped m done_ → Spec.grouped (fold_left group_step rs m) (done_ ++ rs).
Proof.
  revert m done_. induction rs as [|r rs IH]; intros m done_ H; simpl.
  - by rewrite app_nil_r.
  - rewrite (cons_middle r done_ rs), app_assoc. apply IH. by apply group_step_grouped.
Qed.

Lemma managerGroups_grouped rs : Spec.grouped (managerGroups rs) rs.
Proof.
  apply (fold_group_step_grouped rs [] []). split; [constructor | done].
Qed.

Lemma managerGroups_elem rs k g :
  (k, g) ∈ managerGroups rs ↔ g = Spec.by_manager k rs ∧ g ≠ [].
Proof.
  destruct (managerGroups_grouped rs) as [Hnd Hget].
  rewrite (groups_get_elem _ _ _ Hnd), Hget.
  destruct (Spec.by_manager k rs) eqn:Hb; split.
  - done.
  - intros [-> ?]. done.
  - intros [= <-]. done.
  - intros [-> _]. done.
Qed.

Lemma groups_size_set m r :
  Spec.groups_size (group_step m r) = S (Spec.groups_size m).
Proof.
  unfold group_step. induction m as [|[k0 v0] m IH]; simpl; [done|].
  destruct (String.eqb k0 (manager_name r)); simpl.
  - rewrite length_app. simpl. lia.
  - rewrite IH. lia.
Qed.

Lemma groups_size_fold rs m :
  Spec.groups_size (fold_left group_step rs m) = (Spec.groups_size m + length rs)%nat.
Proof.
  revert m. induction rs as [|r rs IH]; intros m; simpl; [lia|].
  rewrite IH, groups_size_set. lia.
Qed.

Lemma insert_desc_perm x l : insert_desc x l ≡ₚ x :: l.
Proof.
  induction l as [|y l IH]; simpl; [done|].
  destruct (Qle_bool _ _); [done|]. rewrite IH. apply perm_swap.
Qed.

Lemma sort_desc_perm l : sort_desc l ≡ₚ l.
Proof.
  induction l as [|x l IH]; simpl; [done|].
  rewrite insert_desc_perm. by constructor.
Qed.

Lemma sum_total_perm l1 l2 : l1 ≡ₚ l2 → Spec.sum_total l1 = Spec.sum_total l2.
Proof. induction 1; simpl; lia. Qed.

Lemma sum_total_summarise m :
  Spec.sum_total (map summarise m) = Spec.groups_size m.
Proof. induction m as [|[k g] m IH]; simpl; [done|]. by rewrite IH. Qed.

Lemma managerSummaries_elem rs s :
  s ∈ managerSummaries rs ↔
  ∃ k, s = summarise (k, Spec.by_manager k rs) ∧ Spec.by_manager k rs ≠ [].
Proof.
  unfold managerSummaries. rewrite sort_desc_perm, list_elem_of_fmap. split.
  - intros ([k g] & -> & [-> Hne]%managerGroups_elem). by exists k.
  - intros (k & -> & Hne). exists (k, Spec.by_manager k rs).
    split; [done|]. by apply managerGroups_elem.
Qed.

(** C7: the [total_responses] of the summaries add up to the number of
    responses; each summary counts the responses that carry its manager
    name, and no name has two summaries. *)
Theorem managerSummaries_total (rs : list AppraisalResponse) :
  Spec.sum_total (managerSummaries rs) = length rs
  ∧ (∀ s, s ∈ managerSummaries rs →
       total_responses s = length (Spec.by_manager (ms_manager_name s) rs)
       ∧ responses s = Spec.by_manager (ms_manager_name s) rs
       ∧ (0 < total_responses s)%nat)
  ∧ NoDup (map ms_manager_name (managerSummaries rs)).
Proof.
  split; [|split].
  - unfold managerSummaries.
    rewrite (sum_total_perm _ _ (sort_desc_perm _)), sum_total_summarise.
    unfold managerGroups. by rewrite groups_size_fold.
  - intros s (k & -> & Hne)%managerSummaries_elem. simpl.
    split; [done|]. split; [done|].
    destruct (Spec.by_manager k rs); [done | simpl; lia].
  - unfold managerSummaries. rewrite sort_desc_perm, map_map.
    destruct (managerGroups_grouped rs) as [Hnd _].
    erewrite map_ext; [exact Hnd|]. by intros [??].
Qed.

Lemma managerSummaries_total_witness :
  summarise ("Ann", [Sample.blank_response "Ann"; Sample.blank_response "Ann"])
    ∈ managerSummaries
        [Sample.blank_response "Ann"; Sample.blank_response "Bob";
         Sample.blank_response "Ann"]
  ∧ Spec.sum_total
      (managerSummaries
         [Sample.blank_response "Ann"; Sample.blank_response "Bob";
          Sample.blank_response "Ann"]) = 3%nat
  ∧ total_responses
      (summarise ("Ann", [Sample.blank_response "Ann"; Sample.blank_response "Ann"]))
    = length
        (Spec.by_manager "Ann"
           [Sample.blank_response "Ann"; Sample.blank_response "Bob";
            Sample.blank_response "Ann"]).
Proof.
  assert (Hin : summarise ("Ann", [Sample.blank_response "Ann"; Sample.blank_response "Ann"])
                ∈ managerSummaries
                    [Sample.blank_response "Ann"; Sample.blank_response "Bob";
                     Sample.blank_response "Ann"]).
  { apply list_elem_of_In. vm_compute. left. reflexivity. }
  destruct (managerSummaries_total
              [Sample.blank_response "Ann"; Sample.blank_response "Bob";
               Sample.blank_response "Ann"]) as (Hsum & Hall & _).
  split; [exact Hin|]. split; [exact Hsum|].
  destruct (Hall _ Hin) as (Hcount & _ & _). exact Hcount.
Defined.

(** ** Numbers *)





(** ** Manager summaries: scores *)




(** ** Competency scores *)


(** ** The exporters' competency view *)

Lemma competency_keys_perm :
  map fst Exporter.competencies ≡ₚ map fst competencies.
Proof. apply (bool_decide_unpack _). vm_compute. exact I. Qed.

Lemma competency_names (k : ScoreKey) :
  Spec.name_in Exporter.competencies k
  = if decide (k = k_final_say) then "Final Say Balance" else Spec.name_in competencies k.
Proof. destruct k; reflexivity. Qed.

(** ** Performance tiers *)

Lemma Qle_bool_const_l (a : Z) (b : positive) (s : Q) (n : Z) :
  (s == n # 100)%Q → Qle_bool (a # b) s = (a * 100 <=? n * Z.pos b)%Z.
Proof. intros ->. reflexivity. Qed.

Lemma Qle_bool_const_r (a : Z) (b : positive) (s : Q) (n : Z) :
  (s == n # 100)%Q → Qle_bool s (a # b) = (n * Z.pos b <=? a * 100)%Z.
Proof. intros ->. reflexivity. Qed.

Lemma in_range_tier (m : ManagerSummary) (t : Spec.Tier) :
  Spec.on_four_point_scale m →
  Exporter.in_range (Spec.tier_range t) m
  = bool_decide (Spec.tier_of (overall_score m) = t).
Proof.
  intros ([n Hn] & H0 & H4).
  apply Qle_bool_iff in H0, H4.
  rewrite (Qle_bool_const_l _ _ _ _ Hn) in H0.
  rewrite (Qle_bool_const_r _ _ _ _ Hn) in H4.
  apply Z.leb_le in H0, H4.
  unfold Exporter.in_range, Spec.tier_of.
  destruct t; cbn [Spec.tier_range Exporter.range_min Exporter.range_max];
    rewrite ?(Qle_bool_const_l _ _ _ _ Hn), ?(Qle_bool_const_r _ _ _ _ Hn);
    repeat (case Z.leb_spec; intros); try lia; reflexivity.
Qed.

Lemma filter_in_range (ms : list ManagerSummary) (t : Spec.Tier) :
  Forall Spec.on_four_point_scale ms →
  List.filter (Exporter.in_range (Spec.tier_range t)) ms = Spec.tier_members t ms.
Proof.
  unfold Spec.tier_members. induction 1 as [|m ms Hm _ IH]; simpl; [done|].
  by rewrite (in_range_tier m t Hm), IH.
Qed.

Lemma tier_members_total (ms : list ManagerSummary) :
  Spec.sum_counts (map (Spec.tier_row ms) Spec.all_tiers) = length ms.
Proof.
  unfold Spec.sum_counts, Spec.tier_members. simpl.
  induction ms as [|m ms IH]; simpl; [done|].
  destruct (Spec.tier_of (overall_score m)); simpl; lia.
Qed.

Lemma performanceTier_label (m : ManagerSummary) :
  Exporter.performanceTier m = Spec.ranking_label (Spec.tier_of (overall_score m)).
Proof.
  unfold Exporter.performanceTier, Spec.tier_of.
  repeat (destruct (Qle_bool _ _); [reflexivity|]). reflexivity.
Qed.

(** C4 (amended): for overall scores with two decimals between 0 and 4.0,
    the tier histogram counts every manager in exactly one row, the row of
    its tier by the breakpoints 3.5, 3.0, 2.5 and 2.0.  The label of the
    rankings sheet follows the same breakpoints down to 2.5 and is
    "Needs Improvement" for every score below 2.5: it has no "Critical". *)
Theorem tiers_on_four_point_scale (ms : list ManagerSummary) :
  Forall Spec.on_four_point_scale ms →
  Exporter.getScoreDistribution ms = map (Spec.tier_row ms) Spec.all_tiers
  ∧ Spec.sum_counts (Exporter.getScoreDistribution ms) = length ms
  ∧ Forall (fun m => Exporter.performanceTier m
                     = Spec.ranking_label (Spec.tier_of (overall_score m))) ms.
Proof.
  intros Hms.
  assert (Heq : Exporter.getScoreDistribution ms = map (Spec.tier_row ms) Spec.all_tiers).
  { unfold Exporter.getScoreDistribution, Spec.tier_row. simpl.
    rewrite <- !(filter_in_range ms) by done. reflexivity. }
  split; [exact Heq|]. split.
  - rewrite Heq. apply tier_members_total.
  - apply Forall_forall. intros m _. apply performanceTier_label.
Qed.

Lemma tiers_on_four_point_scale_witness :
  Forall Spec.on_four_point_scale
    [Sample.summary_with "Ann" (372 # 100); Sample.summary_with "Bob" (3 # 2)]
  ∧ map Exporter.tier_count
      (Exporter.getScoreDistribution
         [Sample.summary_with "Ann" (372 # 100); Sample.summary_with "Bob" (3 # 2)])
    = [1; 0; 0; 0; 1]%nat.
Proof.
  assert (H : Forall Spec.on_four_point_scale
                [Sample.summary_with "Ann" (372 # 100); Sample.summary_with "Bob" (3 # 2)]).
  { constructor; [|constructor; [|constructor]].
    - split; [exists 372%Z; reflexivity | split; discriminate].
    - split; [exists 150%Z; reflexivity | split; discriminate]. }
  split; [exact H|].
  destruct (tiers_on_four_point_scale _ H) as (Heq & _ & _).
  rewrite Heq. reflexivity.
Defined.

(** C4 (as stated) fails: an overall score of 4.5 is counted in no row of
    the histogram, and an overall score of 1.5 is labelled
    "Needs Improvement" on the rankings sheet while the histogram counts it
    as "Critical (<2.0)". *)
Lemma tiers_claim_fails :
  Spec.tier_of (9 # 2) = Spec.Exceptional
  ∧ map Exporter.tier_count
      (Exporter.getScoreDistribution [Sample.summary_with "Ann" (9 # 2)])
    = [0; 0; 0; 0; 0]%nat
  ∧ Spec.tier_of (3 # 2) = Spec.Critical
  ∧ Exporter.performanceTier (Sample.summary_with "Bob" (3 # 2)) = "Needs Improvement"
  ∧ map (fun row => (Exporter.label (Exporter.tier row), Exporter.tier_count row))
      (Exporter.getScoreDistribution [Sample.summary_with "Bob" (3 # 2)])
    = [("Exceptional (3.5-4.0)", 0); ("Strong (3.0-3.49)", 0);
       ("Developing (2.5-2.99)", 0); ("Needs Improvement (2.0-2.49)", 0);
       ("Critical (<2.0)", 1)]%nat.
Proof. repeat split; reflexivity. Qed.

(** ** Score distribution *)

Lemma toString_bucket (v : Z) :
  Spec.in_buckets v = true →
  toString v ∈ dom distribution0
  ∧ ∀ d : gmap string nat,
      Spec.bucket_total (<[toString v := (default 0 (d !! toString v) + 1)%nat]> d)
      = S (Spec.bucket_total d).
Proof.
  unfold Spec.in_buckets. intros [H1 H5]%andb_true_iff.
  apply Z.leb_le in H1, H5.
  assert (Hv : v = 1%Z ∨ v = 2%Z ∨ v = 3%Z ∨ v = 4%Z ∨ v = 5%Z) by lia.
  destruct Hv as [-> | [-> | [-> | [-> | ->]]]].
  all: split; [by vm_compute|].
  all: intros d; unfold Spec.bucket_total; cbn [foldr].
  - change (toString 1) with "1".
    rewrite lookup_insert_eq, !lookup_insert_ne by done.
    generalize (default 0%nat (d !! "1")), (default 0%nat (d !! "2")),
      (default 0%nat (d !! "3")), (default 0%nat (d !! "4")), (default 0%nat (d !! "5")).
    intros; cbn [default from_option id]; lia.
  - change (toString 2) with "2".
    rewrite lookup_insert_eq, !lookup_insert_ne by done.
    generalize (default 0%nat (d !! "1")), (default 0%nat (d !! "2")),
      (default 0%nat (d !! "3")), (default 0%nat (d !! "4")), (default 0%nat (d !! "5")).
    intros; cbn [default from_option id]; lia.
  - change (toString 3) with "3".
    rewrite lookup_insert_eq, !lookup_insert_ne by done.
    generalize (default 0%nat (d !! "1")), (default 0%nat (d !! "2")),
      (default 0%nat (d !! "3")), (default 0%nat (d !! "4")), (default 0%nat (d !! "5")).
    intros; cbn [default from_option id]; lia.
  - change (toString 4) with "4".
    rewrite lookup_insert_eq, !lookup_insert_ne by done.
    generalize (default 0%nat (d !! "1")), (default 0%nat (d !! "2")),
      (default 0%nat (d !! "3")), (default 0%nat (d !! "4")), (default 0%nat (d !! "5")).
    intros; cbn [default from_option id]; lia.
  - change (toString 5) with "5".
    rewrite lookup_insert_eq, !lookup_insert_ne by done.
    generalize (default 0%nat (d !! "1")), (default 0%nat (d !! "2")),
      (default 0%nat (d !! "3")), (default 0%nat (d !! "4")), (default 0%nat (d !! "5")).
    intros; cbn [default from_option id]; lia.
Qed.

Lemma distribution_step_total r d key :
  Spec.buckets_only d →
  Spec.buckets_only (distribution_step r d key)
  ∧ Spec.bucket_total (distribution_step r d key)
    = (Spec.bucket_total d
       + length (List.filter Spec.in_buckets (Spec.scores_of r [key])))%nat.
Proof.
  intros Hd. unfold distribution_step, Spec.scores_of. simpl.
  destruct (get_score key r) as [v|]; simpl; [|split; [done | lia]].
  fold (Spec.in_buckets v).
  destruct (Spec.in_buckets v) eqn:Hv; simpl; [|split; [done | lia]].
  destruct (toString_bucket v Hv) as [Hdom Htot]. split.
  - unfold Spec.buckets_only in *. rewrite dom_insert_L, Hd.
    apply subseteq_union_1_L. by apply singleton_subseteq_l.
  - rewrite Htot. lia.
Qed.

Lemma distribution_keys_total r ks d :
  Spec.buckets_only d →
  Spec.buckets_only (fold_left (distribution_step r) ks d)
  ∧ Spec.bucket_total (fold_left (distribution_step r) ks d)
    = (Spec.bucket_total d
       + length (List.filter Spec.in_buckets (Spec.scores_of r ks)))%nat.
Proof.
  revert d. induction ks as [|k ks IH]; intros d Hd; simpl.
  - split; [done | unfold Spec.scores_of; simpl; lia].
  - destruct (distribution_step_total r d k Hd) as [Hd' Ht'].
    destruct (IH _ Hd') as [Hd'' Ht'']. split; [done|].
    rewrite Ht'', Ht'. unfold Spec.scores_of in *. simpl.
    destruct (get_score k r) as [v|]; simpl; [|lia].
    destruct (Spec.in_buckets v); simpl; lia.
Qed.

Lemma distribution_response_total r d :
  Spec.buckets_only d →
  Spec.buckets_only (distribution_response d r)
  ∧ Spec.bucket_total (distribution_response d r)
    = (Spec.bucket_total d
       + length (List.filter Spec.in_buckets (Spec.scores_of r scoreKeys)))%nat.
Proof. apply distribution_keys_total. Qed.

Lemma fold_left_cons {A B} (f : A → B → A) (x : B) (l : list B) (a : A) :
  fold_left f (x :: l) a = fold_left f l (f a x).
Proof. reflexivity. Qed.

Lemma occurrences_cons r rs :
  Spec.occurrences (r :: rs) = Spec.scores_of r scoreKeys ++ Spec.occurrences rs.
Proof. reflexivity. Qed.

Lemma distribution_fold_total rs d :
  Spec.buckets_only d →
  Spec.buckets_only (fold_left distribution_response rs d)
  ∧ Spec.bucket_total (fold_left distribution_response rs d)
    = (Spec.bucket_total d
       + length (List.filter Spec.in_buckets (Spec.occurrences rs)))%nat.
Proof.
  revert d. induction rs as [|r rs IH]; intros d Hd.
  - split; [done | simpl; lia].
  - rewrite fold_left_cons.
    destruct (distribution_response_total r d Hd) as [Hd' Ht'].
    destruct (IH _ Hd') as [Hd'' Ht'']. split; [done|].
    rewrite Ht'', Ht', occurrences_cons, List.filter_app, length_app. lia.
Qed.

Lemma occurrences_in_scale rs :
  Spec.scores_in_scale rs →
  List.filter Spec.in_buckets (Spec.occurrences rs) = Spec.occurrences rs.
Proof.
  intros Hs. apply forallb_filter_id, forallb_forall.
  intros v Hv. unfold Spec.occurrences in Hv.
  apply in_flat_map in Hv as (r & Hr & Hv).
  apply list_elem_of_In in Hr, Hv.
  apply list_elem_of_omap in Hv as (k & _ & Hk).
  destruct (Hs r k v Hr Hk) as [H1 H5].
  unfold Spec.in_buckets. apply andb_true_iff. split; by apply Z.leb_le.
Qed.

(** C8: the histogram has the five buckets 1-5 only, and their values add
    up to the number of non-null score fields, over the thirteen keys and
    all responses, whose value is in 1-5; when every non-null score is on
    the scale 1-5 this is the number of all non-null score fields. *)
Theorem scoreDistribution_total (rs : list AppraisalResponse) :
  dom (scoreDistribution rs) = dom distribution0
  ∧ Spec.bucket_total (scoreDistribution rs)
    = length (List.filter Spec.in_buckets (Spec.occurrences rs))
  ∧ (Spec.scores_in_scale rs →
     Spec.bucket_total (scoreDistribution rs) = length (Spec.occurrences rs)).
Proof.
  destruct (distribution_fold_total rs distribution0) as [Hdom Htot]; [done|].
  split; [exact Hdom|].
  assert (H : Spec.bucket_total (scoreDistribution rs)
              = length (List.filter Spec.in_buckets (Spec.occurrences rs))).
  { unfold scoreDistribution. rewrite Htot. reflexivity. }
  split; [exact H|].
  intros Hs. rewrite H. by rewrite occurrences_in_scale.
Qed.

Lemma scoreDistribution_total_witness :
  Spec.scores_in_scale Sample.jane
  ∧ Spec.bucket_total (scoreDistribution Sample.jane) = 10%nat
  ∧ scoreDistribution Sample.jane !! "4" = Some 5%nat.
Proof.
  assert (Hs : Spec.scores_in_scale Sample.jane).
  { intros r k v Hr Hv. apply list_elem_of_In in Hr.
    destruct Hr as [<- | [<- | []]]; destruct k; simpl in Hv;
      inversion Hv; subst; lia. }
  split; [exact Hs|]. split.
  - destruct (scoreDistribution_total Sample.jane) as (_ & _ & Hall).
    rewrite (Hall Hs). reflexivity.
  - vm_compute. reflexivity.
Defined.

(** * Further properties *)

(** ** Sorting *)

Lemma insert_desc_on_perm {A} (key : A → Q) x l : Arr.insert_desc_on key x l ≡ₚ x :: l.
Proof.
  induction l as [|y l IH]; simpl; [done|].
  destruct (Qle_bool _ _); [done|]. rewrite IH. apply perm_swap.
Qed.

Lemma sort_desc_on_perm {A} (key : A → Q) l : Arr.sort_desc_on key l ≡ₚ l.
Proof.
  induction l as [|x l IH]; simpl; [done|].
  rewrite insert_desc_on_perm. by constructor.
Qed.

Lemma insert_desc_on_sorted {A} (key : A → Q) x l :
  StronglySorted (Props.desc_on key) l →
  StronglySorted (Props.desc_on key) (Arr.insert_desc_on key x l).
Proof.
  induction 1 as [|y l Hl IH Hy]; simpl.
  - repeat constructor.
  - destruct (Qle_bool (key y) (key x)) eqn:Hle.
    + apply Qle_bool_iff in Hle. constructor; [by constructor|].
      constructor; [done|].
      eapply Forall_impl; [exact Hy|]. unfold Props.desc_on. intros z Hz. lra.
    + constructor; [done|].
      assert (Hlt : (key x <= key y)%Q).
      { destruct (Qlt_le_dec (key x) (key y)) as [?|Hc]; [lra|].
        apply Qle_bool_iff in Hc. congruence. }
      rewrite insert_desc_on_perm. by constructor.
Qed.

Lemma sort_desc_on_sorted {A} (key : A → Q) l :
  StronglySorted (Props.desc_on key) (Arr.sort_desc_on key l).
Proof.
  induction l as [|x l IH]; simpl; [constructor|]. by apply insert_desc_on_sorted.
Qed.




Lemma sort_desc_on_overall l : sort_desc l = Arr.sort_desc_on overall_score l.
Proof.
  unfold sort_desc, Arr.sort_desc_on. induction l as [|x l IH]; simpl; [done|].
  rewrite IH. generalize (fold_right (Arr.insert_desc_on overall_score) [] l).
  intros l'. induction l' as [|y l' IH']; simpl; [done|]. by rewrite IH'.
Qed.

(** ** Manager summaries: order *)

Lemma unique_step_keys m r :
  map fst (group_step m r)
  = (if decide (manager_name r ∈ map fst m) then map fst m
     else map fst m ++ [manager_name r]).
Proof.
  unfold group_step. rewrite groups_set_keys.
  destruct (groups_get m (manager_name r)) eqn:Hg; case_decide as Hin; try done.
  - exfalso. assert (Hn : groups_get m (manager_name r) ≠ None) by congruence.
    apply Hn. by apply groups_get_None.
  - apply groups_get_None in Hg. done.
Qed.

Lemma managerGroups_keys_fold rs m :
  map fst (fold_left group_step rs m)
  = fold_left (fun seen x => if decide (x ∈ seen) then seen else seen ++ [x])
      (map manager_name rs) (map fst m).
Proof.
  revert m. induction rs as [|r rs IH]; intros m; [done|].
  simpl. rewrite IH, unique_step_keys. done.
Qed.

Lemma managerGroups_keys rs :
  map fst (managerGroups rs) = Arr.unique (map manager_name rs).
Proof. apply (managerGroups_keys_fold rs []). Qed.




(** ** Slices *)

Lemma slice_first {A} (l : list A) (c : Z) :
  (0 <= c)%Z → Arr.slice l 0 (Some c) = take (Z.to_nat c) l.
Proof.
  intros Hc. unfold Arr.slice, Arr.relative.
  assert ((0 <? 0)%Z = false) as -> by done.
  assert ((c <? 0)%Z = false) as -> by (apply Z.ltb_ge; lia).
  rewrite (Z.min_l 0) by lia. simpl drop.
  destruct (decide (c <= Z.of_nat (length l))%Z) as [Hle|Hgt].
  - rewrite (Z.min_l c) by lia. f_equal. lia.
  - rewrite (Z.min_r c) by lia.
    rewrite (take_ge l (Z.to_nat c)) by lia. apply take_ge. lia.
Qed.

Lemma slice_last {A} (l : list A) (c : Z) :
  (0 < c)%Z → Arr.slice l (- c) None = drop (length l - Z.to_nat c) l.
Proof.
  intros Hc. unfold Arr.slice, Arr.relative.
  assert ((- c <? 0)%Z = true) as -> by (apply Z.ltb_lt; lia).
  assert (Z.to_nat (Z.max (Z.of_nat (length l) + - c) 0) = (length l - Z.to_nat c)%nat)
    as -> by lia.
  apply take_ge. rewrite length_drop. lia.
Qed.

Lemma slice_last_zero {A} (l : list A) : Arr.slice l (- 0) None = l.
Proof.
  unfold Arr.slice, Arr.relative. simpl. rewrite Z.min_l by lia. simpl.
  apply take_ge. lia.
Qed.

Lemma elem_of_drop_le {A} (l : list A) (i j : nat) (x : A) :
  (i ≤ j)%nat → x ∈ drop j l → x ∈ drop i l.
Proof.
  intros Hij Hx. replace j with (i + (j - i))%nat in Hx by lia.
  rewrite <- drop_drop in Hx.
  eapply elem_of_sublist; [exact Hx | apply sublist_drop].
Qed.

Lemma sorted_take_drop {A} (R : relation A) (l : list A) (i j : nat) (a b : A) :
  StronglySorted R l → (i ≤ j)%nat → a ∈ take i l → b ∈ drop j l → R a b.
Proof.
  intros Hs Hij Ha Hb. rewrite <- (take_drop i l) in Hs.
  eapply StronglySorted_app_1_elem_of; [exact Hs | exact Ha |].
  by apply (elem_of_drop_le l i j).
Qed.

Lemma NoDup_take_drop {A B} (f : A → B) (l : list A) (i j : nat) (a b : A) :
  NoDup (map f l) → (i ≤ j)%nat → a ∈ take i l → b ∈ drop j l → f a ≠ f b.
Proof.
  intros Hnd Hij Ha Hb Heq. rewrite <- (take_drop i l), map_app in Hnd.
  apply NoDup_app in Hnd as (_ & Hdis & _).
  apply (Hdis (f a)).
  - apply list_elem_of_fmap. by exists a.
  - rewrite Heq. apply list_elem_of_fmap. exists b. split; [done|].
    by apply (elem_of_drop_le l i j).
Qed.

Lemma elem_of_rev {A} (l : list A) (x : A) : x ∈ rev l ↔ x ∈ l.
Proof. rewrite !list_elem_of_In. symmetry. apply in_rev. Qed.

(** ** Top and bottom performers *)

Lemma sort_desc_sorted ms : StronglySorted (Props.desc_on overall_score) (sort_desc ms).
Proof. rewrite sort_desc_on_overall. apply sort_desc_on_sorted. Qed.

Lemma sort_desc_length ms : length (sort_desc ms) = length ms.
Proof. apply Permutation_length, sort_desc_perm. Qed.

Lemma performers_eq (ms : list ManagerSummary) (count : Z) :
  (0 < count)%Z →
  Report.top (Report.getTopAndBottomPerformers ms count)
  = take (Z.to_nat count) (sort_desc ms)
  ∧ Report.bottom (Report.getTopAndBottomPerformers ms count)
    = rev (drop (length ms - Z.to_nat count) (sort_desc ms)).
Proof.
  intros Hc. unfold Report.getTopAndBottomPerformers. simpl.
  rewrite slice_first by lia. rewrite slice_last by done.
  by rewrite sort_desc_length.
Qed.

(** X2: for a positive count, the top performers are the first [count]
    managers in descending order of overall score and the bottom performers
    the last [count], worst first; both lists have [min count n] entries,
    and when there are at least [2 * count] managers no bottom performer
    has a higher score than a top performer. *)
Theorem performers_split (ms : list ManagerSummary) (count : Z) :
  (0 < count)%Z →
  Report.top (Report.getTopAndBottomPerformers ms count)
  = take (Z.to_nat count) (sort_desc ms)
  ∧ Report.bottom (Report.getTopAndBottomPerformers ms count)
    = rev (drop (length ms - Z.to_nat count) (sort_desc ms))
  ∧ length (Report.top (Report.getTopAndBottomPerformers ms count))
    = Nat.min (Z.to_nat count) (length ms)
  ∧ length (Report.bottom (Report.getTopAndBottomPerformers ms count))
    = Nat.min (Z.to_nat count) (length ms)
  ∧ ((2 * Z.to_nat count ≤ length ms)%nat →
     ∀ a b, a ∈ Report.top (Report.getTopAndBottomPerformers ms count) →
            b ∈ Report.bottom (Report.getTopAndBottomPerformers ms count) →
            (overall_score b <= overall_score a)%Q).
Proof.
  intros Hc. destruct (performers_eq ms count Hc) as [-> ->].
  split; [done|]. split; [done|].
  split; [rewrite length_take, sort_desc_length; lia|].
  split; [rewrite length_rev, length_drop, sort_desc_length; lia|].
  intros Hn a b Ha Hb. apply (proj1 (elem_of_rev _ _)) in Hb.
  apply (sorted_take_drop (Props.desc_on overall_score) (sort_desc ms)
           (Z.to_nat count) (length ms - Z.to_nat count) a b);
    [apply sort_desc_sorted | lia | done | done].
Qed.

(** X3: with fewer than [2 * count] managers the two lists overlap: some
    manager is reported both as a top and as a bottom performer. *)
Theorem performers_overlap (ms : list ManagerSummary) (count : Z) :
  (0 < count)%Z → ms ≠ [] → (length ms < 2 * Z.to_nat count)%nat →
  ∃ m, m ∈ Report.top (Report.getTopAndBottomPerformers ms count)
       ∧ m ∈ Report.bottom (Report.getTopAndBottomPerformers ms count).
Proof.
  intros Hc Hne Hn. destruct (performers_eq ms count Hc) as [-> ->].
  assert (Hlen : (length ms - Z.to_nat count < length (sort_desc ms))%nat).
  { rewrite sort_desc_length. destruct ms; [done | simpl; lia]. }
  apply lookup_lt_is_Some in Hlen as [m Hm].
  exists m. split.
  - apply list_elem_of_lookup. exists (length ms - Z.to_nat count)%nat.
    rewrite lookup_take_lt by lia. done.
  - apply elem_of_rev. apply list_elem_of_lookup. exists 0%nat.
    rewrite lookup_drop. by rewrite Nat.add_0_r.
Qed.

(** X4: a count of 0 gives no top performer, but every manager as a bottom
    performer ([slice(-0)] is the whole array). *)
Theorem performers_of_zero (ms : list ManagerSummary) :
  Report.top (Report.getTopAndBottomPerformers ms 0) = []
  ∧ Report.bottom (Report.getTopAndBottomPerformers ms 0) = rev (sort_desc ms).
Proof.
  unfold Report.getTopAndBottomPerformers. simpl Report.top. simpl Report.bottom.
  rewrite slice_first by lia. split; [done|].
  by rewrite (slice_last_zero (sort_desc ms)).
Qed.


(** ** Strengths and weaknesses *)

Lemma competency_names_NoDup rs :
  NoDup (map Exporter.name (Exporter.calculateCompetencyScores rs)).
Proof.
  unfold Exporter.calculateCompetencyScores. rewrite map_map. simpl.
  apply (bool_decide_unpack _). vm_compute. exact I.
Qed.

(** X6: there are always three strengths and three weaknesses, all rows of
    the competency table; no competency is both, and no weakness has a
    higher average than a strength. *)
Theorem strengths_and_weaknesses (rs : list AppraisalResponse) :
  length (Report.strengths (Report.getStrengthsAndWeaknesses rs)) = 3%nat
  ∧ length (Report.weaknesses (Report.getStrengthsAndWeaknesses rs)) = 3%nat
  ∧ ∀ s w,
      s ∈ Report.strengths (Report.getStrengthsAndWeaknesses rs) →
      w ∈ Report.weaknesses (Report.getStrengthsAndWeaknesses rs) →
      (Exporter.avg w <= Exporter.avg s)%Q
      ∧ Exporter.name s ≠ Exporter.name w
      ∧ s ∈ Exporter.calculateCompetencyScores rs
      ∧ w ∈ Exporter.calculateCompetencyScores rs.
Proof.
  unfold Report.getStrengthsAndWeaknesses. cbn [Report.strengths Report.weaknesses].
  set (sorted := Arr.sort_desc_on Exporter.avg (Exporter.calculateCompetencyScores rs)).
  assert (Hperm : sorted ≡ₚ Exporter.calculateCompetencyScores rs)
    by apply sort_desc_on_perm.
  assert (Hlen : length sorted = 13%nat) by (by rewrite Hperm).
  rewrite (slice_first sorted 3) by lia.
  change (Arr.slice sorted (-3) None) with (Arr.slice sorted (- (3)) None).
  rewrite (slice_last sorted 3) by lia. rewrite Hlen.
  change (13 - Z.to_nat 3)%nat with 10%nat. change (Z.to_nat 3) with 3%nat.
  split; [rewrite length_take; lia|].
  split; [rewrite length_rev, length_drop; lia|].
  intros s w Hs Hw. apply (proj1 (elem_of_rev _ _)) in Hw.
  split; [|split; [|split]].
  - apply (sorted_take_drop (Props.desc_on Exporter.avg) sorted 3 10 s w);
      [apply sort_desc_on_sorted | lia | done | done].
  - apply (NoDup_take_drop Exporter.name sorted 3 10 s w); [|lia|done|done].
    rewrite Hperm. apply competency_names_NoDup.
  - rewrite <- Hperm. eapply elem_of_sublist; [exact Hs | apply sublist_take].
  - rewrite <- Hperm. eapply elem_of_sublist; [exact Hw | apply sublist_drop].
Qed.

(** ** Minimum, average and maximum of a competency *)

Lemma Qle_bool_false (x y : Q) : (y < x)%Q → Qle_bool x y = false.
Proof.
  intros H. destruct (Qle_bool x y) eqn:Hle; [|done].
  apply Qle_bool_iff in Hle. lra.
Qed.







(** ** The tier histogram never counts twice *)

Lemma ranges_disjoint (m : ManagerSummary) :
  (length (List.filter (fun range => Exporter.in_range range m) Exporter.ranges) ≤ 1)%nat.
Proof.
  unfold Exporter.ranges, Exporter.in_range. cbn [List.filter Exporter.range_min Exporter.range_max].
  generalize (overall_score m). intros s.
  destruct (Qlt_le_dec s (7 # 2)) as [H1|H1];
    [rewrite (Qle_bool_false (7 # 2) s) by lra
    |rewrite !(Qle_bool_false s (349 # 100)), !(Qle_bool_false s (299 # 100)),
       !(Qle_bool_false s (249 # 100)), !(Qle_bool_false s (199 # 100)) by lra;
     rewrite !andb_false_r; destruct (_ && _); simpl; lia].
  destruct (Qlt_le_dec s 3) as [H2|H2];
    [rewrite (Qle_bool_false 3 s) by lra
    |rewrite !(Qle_bool_false s (299 # 100)),
       !(Qle_bool_false s (249 # 100)), !(Qle_bool_false s (199 # 100)) by lra;
     rewrite !andb_false_r; simpl; destruct (_ && _); simpl; lia].
  destruct (Qlt_le_dec s (5 # 2)) as [H3|H3];
    [rewrite (Qle_bool_false (5 # 2) s) by lra
    |rewrite !(Qle_bool_false s (249 # 100)), !(Qle_bool_false s (199 # 100)) by lra;
     rewrite !andb_false_r; simpl; destruct (_ && _); simpl; lia].
  destruct (Qlt_le_dec s 2) as [H4|H4];
    [rewrite (Qle_bool_false 2 s) by lra
    |rewrite !(Qle_bool_false s (199 # 100)) by lra;
     rewrite !andb_false_r; simpl; destruct (_ && _); simpl; lia].
  simpl. destruct (_ && _); simpl; lia.
Qed.

Lemma getScoreDistribution_cons (m : ManagerSummary) (ms : list ManagerSummary) :
  Spec.sum_counts (Exporter.getScoreDistribution (m :: ms))
  = (length (List.filter (fun range => Exporter.in_range range m) Exporter.ranges)
     + Spec.sum_counts (Exporter.getScoreDistribution ms))%nat.
Proof.
  unfold Exporter.getScoreDistribution, Exporter.ranges, Spec.sum_counts.
  cbn [map fold_right List.filter Exporter.tier_count].
  repeat (destruct (Exporter.in_range _ m)); cbn [length]; lia.
Qed.

(** X8: the rows of the tier histogram do not overlap: every manager is in
    at most one row, whatever its score, and the counts never add up to
    more than the number of managers. *)
Theorem getScoreDistribution_at_most_once (ms : list ManagerSummary) :
  (Spec.sum_counts (Exporter.getScoreDistribution ms) ≤ length ms)%nat
  ∧ Forall (fun m =>
      (length (List.filter (fun range => Exporter.in_range range m) Exporter.ranges) ≤ 1)%nat)
      ms.
Proof.
  split.
  - induction ms as [|m ms IH]; [simpl; lia|].
    rewrite getScoreDistribution_cons. pose proof (ranges_disjoint m).
    cbn [length]. lia.
  - apply Forall_forall. intros m _. apply ranges_disjoint.
Qed.

(** ** Collected feedback *)

Lemma collect_fold k rs fb :
  Kinds.list_of k (fold_left Report.feedback_step rs fb)
  = Kinds.list_of k fb
    ++ flat_map (fun r => Report.push_comment r (Kinds.field k r) []) rs.
Proof.
  revert fb. induction rs as [|r rs IH]; intros fb; simpl.
  - by rewrite app_nil_r.
  - rewrite IH. rewrite app_assoc. f_equal.
    destruct k; simpl; unfold Report.push_comment;
      match goal with |- context [match ?f with _ => _ end] => destruct f end;
      simpl; try (by rewrite app_nil_r);
      match goal with |- context [if ?b then _ else _] => destruct b end;
      simpl; by rewrite ?app_nil_r.
Qed.

Lemma collect_list k rs :
  Kinds.list_of k (Report.collectFeedback rs)
  = flat_map (fun r => Report.push_comment r (Kinds.field k r) []) rs.
Proof. unfold Report.collectFeedback. rewrite collect_fold. by destruct k. Qed.

Lemma push_comment_elem r field s :
  s ∈ Report.push_comment r field [] ↔
  ∃ text, field = Some text ∧ JS.trim text ≠ "" ∧ s = manager_name r +:+ ": " +:+ text.
Proof.
  unfold Report.push_comment, JS.truthy. destruct field as [text|]; simpl.
  - destruct (String.eqb (JS.trim text) "") eqn:Ht; simpl.
    + apply String.eqb_eq in Ht. split; [by intros ?%elem_of_nil|].
      intros (t & [= <-] & Hne & _). done.
    + apply String.eqb_neq in Ht. rewrite list_elem_of_singleton. split.
      * intros ->. by exists text.
      * intros (t & [= <-] & _ & ->). done.
  - split; [by intros ?%elem_of_nil | by intros (t & ? & _)].
Qed.

Lemma collect_elem k rs s :
  s ∈ Kinds.list_of k (Report.collectFeedback rs) ↔
  ∃ r text, r ∈ rs ∧ Kinds.field k r = Some text ∧ JS.trim text ≠ ""
            ∧ s = manager_name r +:+ ": " +:+ text.
Proof.
  rewrite collect_list, list_elem_of_In, in_flat_map. split.
  - intros (r & Hr & Hs). apply list_elem_of_In in Hr, Hs.
    apply push_comment_elem in Hs as (text & ? & ? & ?). by exists r, text.
  - intros (r & text & Hr & Hf & Hne & ->). exists r.
    rewrite <- !list_elem_of_In. split; [done|].
    apply push_comment_elem. by exists text.
Qed.

(** The entries of a prompt with non-white text. *)
Lemma collect_length p rs :
  length (Kinds.list_of (Kinds.of_prompt p) (Report.collectFeedback rs))
  = length (List.filter (fun s => negb (String.eqb (JS.trim s) ""))
              (Spec.select p (Spec.all_entries rs))).
Proof.
  rewrite collect_list. unfold Spec.all_entries.
  induction rs as [|r rs IH]; [done|].
  cbn [flat_map]. rewrite length_app, select_app, List.filter_app, length_app, IH.
  f_equal. unfold Spec.entries_of. rewrite !select_app.
  assert (Hsel : ∀ q field,
            Spec.select p (Spec.present q field)
            = if decide (q = p) then
                match field with
                | Some text => if decide (text = "") then [] else [text]
                | None => []
                end
              else []).
  { intros q field. unfold Spec.present, Spec.select. destruct field as [text|].
    - destruct (decide (text = "")); [by case_decide|]. simpl.
      destruct (decide (q = p)) as [Heq|Hne].
      + by rewrite bool_decide_eq_true_2.
      + by rewrite bool_decide_eq_false_2.
    - by case_decide. }
  rewrite !Hsel.
  destruct p; simpl; unfold Report.push_comment, JS.truthy;
    match goal with |- context [match ?f with Some _ => _ | None => _ end] =>
      destruct f as [text|] end; simpl; try done;
    (destruct (decide (text = "")) as [->|Hne]; [done|]);
    simpl; destruct (String.eqb (JS.trim text) ""); done.
Qed.

Lemma dedup_global_sublist seen l : sublist (Spec.dedup_global seen l) l.
Proof.
  revert seen. induction l as [|e l IH]; intros seen; simpl; [constructor|].
  case_decide; [apply sublist_cons | apply sublist_skip]; apply IH.
Qed.

Lemma sublist_List_filter {A} (f : A → bool) (l1 l2 : list A) :
  sublist l1 l2 → sublist (List.filter f l1) (List.filter f l2).
Proof.
  induction 1 as [|x l1 l2 _ IH|x l1 l2 _ IH]; simpl.
  - constructor.
  - destruct (f x); [by apply sublist_skip | done].
  - destruct (f x); [by apply sublist_cons | done].
Qed.

Lemma proper_themes_length p rs :
  (length (Kinds.proper_themes p (feedbackThemes rs))
   ≤ length (List.filter (fun s => negb (String.eqb (JS.trim s) ""))
               (Spec.select p (Spec.all_entries rs))))%nat.
Proof.
  rewrite feedbackThemes_themes. unfold Kinds.proper_themes.
  assert (Hl : Spec.prompt_list p (Spec.themes rs)
               = map JS.trim (Spec.select p (Spec.dedup_global [] (Spec.all_entries rs))))
    by (by destruct p).
  rewrite Hl.
  assert (Hf : ∀ l, List.filter (fun s => negb (String.eqb s "")) (map JS.trim l)
                    = map JS.trim (List.filter (fun s => negb (String.eqb (JS.trim s) "")) l)).
  { induction l as [|x l IH]; simpl; [done|].
    destruct (String.eqb (JS.trim x) ""); simpl; by rewrite IH. }
  rewrite Hf, length_map. apply sublist_length, sublist_List_filter.
  unfold Spec.select. apply (fmap_sublist snd), sublist_List_filter, dedup_global_sublist.
Qed.

(** X9: [collectFeedback] lists, per field, exactly the responses whose
    text is not null, empty or white space only, as "manager: text" with
    the text untrimmed and duplicates kept.  Every non-empty theme of
    [feedbackThemes] is the trimmed text of such an entry of the same
    prompt, so a prompt never has more non-empty themes than collected
    entries. *)
Theorem collectFeedback_entries (rs : list AppraisalResponse) :
  (∀ k s,
     s ∈ Kinds.list_of k (Report.collectFeedback rs) ↔
     ∃ r text, r ∈ rs ∧ Kinds.field k r = Some text ∧ JS.trim text ≠ ""
               ∧ s = manager_name r +:+ ": " +:+ text)
  ∧ (∀ p s,
       s ∈ Spec.prompt_list p (feedbackThemes rs) → s ≠ "" →
       ∃ r text, r ∈ rs ∧ Spec.prompt_field p r = Some text ∧ s = JS.trim text
                 ∧ manager_name r +:+ ": " +:+ text
                   ∈ Kinds.list_of (Kinds.of_prompt p) (Report.collectFeedback rs))
  ∧ (∀ p, (length (Kinds.proper_themes p (feedbackThemes rs))
           ≤ length (Kinds.list_of (Kinds.of_prompt p) (Report.collectFeedback rs)))%nat).
Proof.
  split; [intros k s; apply collect_elem|]. split.
  - intros p s Hs Hne. rewrite feedbackThemes_themes in Hs.
    apply elem_of_themes in Hs as (text & -> & Hin).
    apply dedup_global_sub, all_entries_field in Hin as (r & Hr & Hf & _).
    simpl in Hf. exists r, text. split; [done|]. split; [done|]. split; [done|].
    apply collect_elem. exists r, text. split; [done|].
    split; [by destruct p|]. done.
  - intros p. rewrite collect_length. apply proper_themes_length.
Qed.

(** ** Distinct managers and relationships *)

Lemma unique_fold (arr seen : list string) :
  NoDup seen →
  NoDup (fold_left (fun seen x => if decide (x ∈ seen) then seen else seen ++ [x]) arr seen)
  ∧ ∀ x, x ∈ fold_left (fun seen x => if decide (x ∈ seen) then seen else seen ++ [x])
               arr seen
         ↔ x ∈ seen ∨ x ∈ arr.
Proof.
  revert seen. induction arr as [|y arr IH]; intros seen Hnd; simpl.
  - split; [done|]. intros x. rewrite elem_of_nil. tauto.
  - case_decide as Hy.
    + destruct (IH seen Hnd) as [H1 H2]. split; [done|].
      intros x. rewrite H2, elem_of_cons. split; [tauto|].
      intros [?|[->|?]]; auto.
    + assert (Hnd' : NoDup (seen ++ [y])).
      { apply NoDup_app. split; [done|]. split; [|apply NoDup_singleton].
        intros x Hx ->%list_elem_of_singleton. done. }
      destruct (IH _ Hnd') as [H1 H2]. split; [done|].
      intros x. rewrite H2, elem_of_app, list_elem_of_singleton, elem_of_cons. tauto.
Qed.

Lemma unique_NoDup arr : NoDup (Arr.unique arr).
Proof. apply (unique_fold arr []). constructor. Qed.

Lemma unique_elem arr x : x ∈ Arr.unique arr ↔ x ∈ arr.
Proof.
  unfold Arr.unique. destruct (unique_fold arr [] (NoDup_nil_2)) as [_ H].
  rewrite H, elem_of_nil. tauto.
Qed.

Lemma insert_string_perm x l : Arr.insert_string x l ≡ₚ x :: l.
Proof.
  induction l as [|y l IH]; simpl; [done|].
  destruct (String.leb x y); [done|]. rewrite IH. apply perm_swap.
Qed.

Lemma sort_strings_perm l : Arr.sort_strings l ≡ₚ l.
Proof.
  induction l as [|x l IH]; simpl; [done|].
  rewrite insert_string_perm. by constructor.
Qed.

Lemma string_le_trans a b c :
  Order.string_le a b → Order.string_le b c → Order.string_le a c.
Proof.
  unfold Order.string_le. intros H1 H2.
  apply Is_true_true. apply Is_true_true in H1, H2.
  change (String.le a c). change (String.le a b) in H1. change (String.le b c) in H2.
  by etrans.
Qed.

Lemma insert_string_sorted x l :
  StronglySorted Order.string_le l →
  StronglySorted Order.string_le (Arr.insert_string x l).
Proof.
  induction 1 as [|y l Hl IH Hy]; simpl.
  - repeat constructor.
  - destruct (String.leb x y) eqn:Hle.
    + constructor; [by constructor|]. constructor; [done|].
      eapply Forall_impl; [exact Hy|]. intros z Hz.
      by apply (string_le_trans x y z).
    + constructor; [done|].
      assert (Hyx : Order.string_le y x).
      { destruct (leb_total x y) as [H|H]; [congruence | done]. }
      rewrite insert_string_perm. by constructor.
Qed.

Lemma sort_strings_sorted l : StronglySorted Order.string_le (Arr.sort_strings l).
Proof.
  induction l as [|x l IH]; simpl; [constructor|]. by apply insert_string_sorted.
Qed.

Lemma truthy_strings_elem (arr : list (option string)) (x : string) :
  x ∈ Arr.truthy_strings arr ↔ x ≠ "" ∧ Some x ∈ arr.
Proof.
  induction arr as [|v arr IH]; simpl.
  - rewrite !elem_of_nil. tauto.
  - destruct v as [s|]; simpl.
    + destruct (String.eqb s "") eqn:Hs; simpl.
      * apply String.eqb_eq in Hs. subst. rewrite IH, elem_of_cons.
        split; [tauto|]. intros [Hne [[= ->]|?]]; done.
      * apply String.eqb_neq in Hs. rewrite !elem_of_cons, IH.
        split; [intros [->|[? ?]]; auto|].
        intros [Hne [[= ->]|?]]; auto.
    + rewrite IH, elem_of_cons. split; [tauto|]. intros [? [?|?]]; done.
Qed.

Lemma uniqueManagers_elem all n :
  n ∈ uniqueManagers all ↔ ∃ r, r ∈ all ∧ manager_name r = n.
Proof.
  unfold uniqueManagers. rewrite sort_strings_perm, unique_elem, list_elem_of_fmap.
  split; intros (r & ? & ?); by exists r.
Qed.

Lemma uniqueRelationships_elem all rel :
  rel ∈ uniqueRelationships all ↔ rel ≠ "" ∧ ∃ r, r ∈ all ∧ relationship r = Some rel.
Proof.
  unfold uniqueRelationships. rewrite unique_elem, truthy_strings_elem, list_elem_of_fmap.
  split; intros [Hne (r & ? & ?)]; (split; [done|]); by exists r.
Qed.

(** X10: [uniqueManagers] lists the manager names of the responses once
    each, in ascending order of code units; they are the names of the
    summaries of the unfiltered responses. *)
Theorem uniqueManagers_sorted (all : list AppraisalResponse) :
  StronglySorted Order.string_le (uniqueManagers all)
  ∧ NoDup (uniqueManagers all)
  ∧ (∀ n, n ∈ uniqueManagers all ↔ ∃ r, r ∈ all ∧ manager_name r = n)
  ∧ map ms_manager_name (managerSummaries all) ≡ₚ uniqueManagers all.
Proof.
  unfold uniqueManagers. split; [apply sort_strings_sorted|].
  split; [rewrite sort_strings_perm; apply unique_NoDup|]. split.
  - intros n. apply uniqueManagers_elem.
  - rewrite sort_strings_perm, <- managerGroups_keys.
    unfold managerSummaries. rewrite sort_desc_perm, map_map.
    erewrite map_ext; [reflexivity|]. by intros [??].
Qed.

(** X11: [uniqueRelationships] lists once each the relationships that are
    neither null nor empty. *)
Theorem uniqueRelationships_distinct (all : list AppraisalResponse) :
  NoDup (uniqueRelationships all)
  ∧ ∀ rel, rel ∈ uniqueRelationships all
           ↔ rel ≠ "" ∧ ∃ r, r ∈ all ∧ relationship r = Some rel.
Proof.
  split; [apply unique_NoDup | apply uniqueRelationships_elem].
Qed.

(** ** The filter composed with the other functions *)

Lemma filter_all_kept (all : list AppraisalResponse) (filters : FilterState) :
  (∀ r, r ∈ all → Spec.kept filters r) → filteredResponses all filters = all.
Proof.
  intros H. rewrite filteredResponses_filter.
  induction all as [|r all IH]; [done|].
  rewrite filter_cons. rewrite decide_True by (apply H; by left).
  f_equal. apply IH. intros r' Hr'. apply H. by right.
Qed.

(** X12: selecting every manager and every relationship offered by the
    hook filters nothing out. *)
Theorem filter_select_all (all : list AppraisalResponse) (range : Z * Z) :
  filteredResponses all (Order.select_all all range) = all.
Proof.
  apply filter_all_kept. intros r Hr. split; simpl.
  - right. apply uniqueManagers_elem. by exists r.
  - destruct (relationship r) as [rel|] eqn:Hrel; [|by right; left].
    destruct (decide (rel = "")) as [->|Hne]; [by right; right; left|].
    right; right; right. unfold Spec.selected. rewrite Hrel. simpl.
    apply uniqueRelationships_elem. split; [done|]. by exists r.
Qed.

Lemma List_filter_comm {A} (f g : A → bool) (l : list A) :
  List.filter f (List.filter g l) = List.filter g (List.filter f l).
Proof.
  induction l as [|x l IH]; simpl; [done|].
  destruct (f x) eqn:Hf; destruct (g x) eqn:Hg; simpl; rewrite ?Hf, ?Hg, IH; done.
Qed.

Lemma List_filter_idem {A} (f : A → bool) (l : list A) :
  List.filter f (List.filter f l) = List.filter f l.
Proof.
  induction l as [|x l IH]; simpl; [done|].
  destruct (f x) eqn:Hf; simpl; rewrite ?Hf, IH; done.
Qed.

Lemma List_filter_length_le {A} (f : A → bool) (l : list A) :
  (length (List.filter f l) ≤ length l)%nat.
Proof. induction l as [|x l IH]; simpl; [lia|]. destruct (f x); simpl; lia. Qed.

(** X13: filtering twice with one filter state is filtering once, two
    filter states can be applied in either order, and filtering never adds
    a response. *)
Theorem filteredResponses_compose (all : list AppraisalResponse) (f g : FilterState) :
  filteredResponses (filteredResponses all f) f = filteredResponses all f
  ∧ filteredResponses (filteredResponses all f) g
    = filteredResponses (filteredResponses all g) f
  ∧ (length (filteredResponses all f) ≤ length all)%nat.
Proof.
  unfold filteredResponses. split; [apply List_filter_idem|].
  split; [apply List_filter_comm|]. apply List_filter_length_le.
Qed.

Lemma NoDup_all_equal (l : list string) (a : string) :
  NoDup l → (∀ x, x ∈ l → x = a) → (length l ≤ 1)%nat.
Proof.
  intros Hnd Hall. destruct l as [|x [|y l]]; simpl; try lia.
  exfalso. inversion Hnd as [|?? Hx _]; subst. apply Hx.
  rewrite (Hall x) by (by left). rewrite (Hall y) by (right; by left). by left.
Qed.

Lemma summaries_names_NoDup rs : NoDup (map ms_manager_name (managerSummaries rs)).
Proof.
  unfold managerSummaries. rewrite sort_desc_perm, map_map.
  destruct (managerGroups_grouped rs) as [Hnd _].
  erewrite map_ext; [exact Hnd|]. by intros [??].
Qed.

Lemma summary_of_filtered all filters s :
  s ∈ managerSummaries (filteredResponses all filters) →
  responses s
  = filteredResponses (Spec.by_manager (ms_manager_name s) all) filters
  ∧ responses s ≠ [].
Proof.
  intros (k & -> & Hne)%managerSummaries_elem. simpl. split; [|done].
  unfold Spec.by_manager, filteredResponses. apply List_filter_comm.
Qed.

(** X14: a summary of the filtered set holds exactly the filtered
    responses of its manager, at least one and at most as many as the
    manager has in all; with a manager selection its name is selected, and
    with a single selected manager there is at most one summary. *)
Theorem summaries_of_filtered (all : list AppraisalResponse) (filters : FilterState)
    (s : ManagerSummary) :
  s ∈ managerSummaries (filteredResponses all filters) →
  responses s = filteredResponses (Spec.by_manager (ms_manager_name s) all) filters
  ∧ (0 < total_responses s ≤ length (Spec.by_manager (ms_manager_name s) all))%nat
  ∧ (managers filters ≠ [] → ms_manager_name s ∈ managers filters)
  ∧ (∀ a, managers filters = [a] →
          (length (managerSummaries (filteredResponses all filters)) ≤ 1)%nat).
Proof.
  intros Hs. destruct (summary_of_filtered all filters s Hs) as [Hresp Hne].
  assert (Htot : total_responses s = length (responses s)).
  { apply managerSummaries_elem in Hs as (k & -> & _). done. }
  assert (Hnames : ∀ s', s' ∈ managerSummaries (filteredResponses all filters) →
                         managers filters ≠ [] → ms_manager_name s' ∈ managers filters).
  { intros s' (k & -> & Hk)%managerSummaries_elem Hm. simpl.
    destruct (Spec.by_manager k (filteredResponses all filters)) as [|r l] eqn:Hb; [done|].
    assert (Hr : r ∈ Spec.by_manager k (filteredResponses all filters))
      by (rewrite Hb; by left).
    apply list_elem_of_In, filter_In in Hr as [Hr Hk'].
    apply String.eqb_eq in Hk'. subst k.
    apply list_elem_of_In in Hr. rewrite filteredResponses_filter in Hr.
    apply list_elem_of_filter in Hr as [[[Hnil|Hin] _] _]; done. }
  split; [done|]. split.
  - rewrite Htot, Hresp. split.
    + rewrite <- Hresp. destruct (responses s); [done | simpl; lia].
    + apply List_filter_length_le.
  - split; [by apply Hnames|].
    intros a Ha. rewrite <- (length_map ms_manager_name).
    apply (NoDup_all_equal _ a); [apply summaries_names_NoDup|].
    intros n (s' & -> & Hs')%list_elem_of_fmap.
    assert (Hin : ms_manager_name s' ∈ managers filters)
      by (apply Hnames; [done | by rewrite Ha]).
    rewrite Ha in Hin. by apply list_elem_of_singleton in Hin.
Qed.

(** ** Rounding *)












(** ** Figures on the declared scale *)









(** ** Overall statistics *)












(** ** The chat panel's [formatResponse] *)

Lemma short_mono (r1 r2 : nat) (text : string) :
  (r1 ≤ r2)%nat → Runs.short r2 text = true → Runs.short r1 text = true.
Proof.
  revert r1 r2. induction text as [|c rest IH]; intros r1 r2 Hr; [done|]. simpl.
  destruct (Ascii.eqb c Chat.newline); [|done].
  intros [H1 H2]%andb_true_iff. apply Nat.ltb_lt in H1.
  apply andb_true_iff. split; [apply Nat.ltb_lt; lia|].
  apply (IH (S r1) (S r2)); [lia | done].
Qed.

Lemma collapse_short (run : nat) (text : string) :
  Runs.short (Nat.min run 2) (Chat.collapse run text) = true.
Proof.
  revert run. induction text as [|c rest IH]; intros run; [done|]. simpl.
  destruct (Ascii.eqb c Chat.newline) eqn:Hc.
  - destruct (run <? 2)%nat eqn:Hr.
    + apply Nat.ltb_lt in Hr. simpl. rewrite Hc.
      apply andb_true_iff. split; [apply Nat.ltb_lt; lia|].
      specialize (IH (S run)). by replace (Nat.min (S run) 2) with (S (Nat.min run 2)) in IH by lia.
    + apply Nat.ltb_ge in Hr. specialize (IH (S run)).
      by replace (Nat.min (S run) 2) with (Nat.min run 2) in IH by lia.
  - simpl. rewrite Hc. apply (IH 0%nat).
Qed.

Lemma collapse_id (run : nat) (text : string) :
  Runs.short run text = true → Chat.collapse run text = text.
Proof.
  revert run. induction text as [|c rest IH]; intros run; [done|]. simpl.
  destruct (Ascii.eqb c Chat.newline).
  - intros [H1 H2]%andb_true_iff. rewrite H1. f_equal. by apply IH.
  - intros H. f_equal. by apply IH.
Qed.

Lemma short_trimStart (text : string) :
  Runs.short 0 text = true → Runs.short 0 (JS.trimStart text) = true.
Proof.
  assert (H : ∀ run, Runs.short run text = true → Runs.short 0 (JS.trimStart text) = true).
  { induction text as [|c rest IH]; intros run; [done|]. simpl.
    destruct (JS.is_white c) eqn:Hw.
    - destruct (Ascii.eqb c Chat.newline).
      + intros [_ H2]%andb_true_iff. by apply (IH (S run)).
      + apply (IH 0%nat).
    - intros H. apply (short_mono 0 run); [lia|]. simpl. exact H. }
  apply H.
Qed.

Lemma short_trimEnd (run : nat) (text : string) :
  Runs.short run text = true → Runs.short run (JS.trimEnd text) = true.
Proof.
  revert run. induction text as [|c rest IH]; intros run; [done|]. simpl.
  destruct (Ascii.eqb c Chat.newline) eqn:Hc.
  - intros [H1 H2]%andb_true_iff. apply IH in H2.
    destruct (JS.trimEnd rest) as [|d t] eqn:Ht.
    + destruct (JS.is_white c); [done|]. simpl. by rewrite Hc, H1.
    + cbn [Runs.short]. rewrite Hc, H1. exact H2.
  - intros H. apply IH in H.
    destruct (JS.trimEnd rest) as [|d t] eqn:Ht.
    + destruct (JS.is_white c); [done|]. simpl. by rewrite Hc.
    + cbn [Runs.short]. rewrite Hc. exact H.
Qed.

Lemma formatResponse_short (text : string) :
  Runs.short 0 (Chat.formatResponse text) = true.
Proof.
  unfold Chat.formatResponse, JS.trim.
  apply short_trimEnd, short_trimStart, (collapse_short 0).
Qed.

Lemma short_no_triple (run : nat) (a b : string) :
  Runs.short run (a +:+ Runs.three_newlines +:+ b) = false.
Proof.
  revert run. induction a as [|c a IH]; intros run.
  - simpl. destruct (run <? 2)%nat eqn:H1; [|done].
    destruct (S run <? 2)%nat eqn:H2; [|done].
    destruct (S (S run) <? 2)%nat eqn:H3; [|done].
    apply Nat.ltb_lt in H3. lia.
  - simpl. destruct (Ascii.eqb c Chat.newline).
    + rewrite (IH (S run)). apply andb_false_r.
    + apply (IH 0%nat).
Qed.

(** X18: [formatResponse] is idempotent, its result is trimmed and never
    contains three newlines in a row, and a text without such a run is
    only trimmed. *)
Theorem formatResponse_normal (text : string) :
  Chat.formatResponse (Chat.formatResponse text) = Chat.formatResponse text
  ∧ JS.trim (Chat.formatResponse text) = Chat.formatResponse text
  ∧ (∀ a b, Chat.formatResponse text ≠ a +:+ Runs.three_newlines +:+ b)
  ∧ (Runs.short 0 text = true → Chat.formatResponse text = JS.trim text).
Proof.
  split; [|split; [|split]].
  - unfold Chat.formatResponse at 1.
    rewrite (collapse_id 0 _ (formatResponse_short text)).
    unfold Chat.formatResponse. apply trim_idem.
  - unfold Chat.formatResponse. apply trim_idem.
  - intros a b Heq. pose proof (formatResponse_short text) as H.
    rewrite Heq, short_no_triple in H. done.
  - intros H. unfold Chat.formatResponse. by rewrite collapse_id.
Qed.

(** ** Counter objects *)

Lemma obj_get_set obj k v k' :
  Obj.get (Obj.set obj k v) k' = if String.eqb k k' then Some v else Obj.get obj k'.
Proof.
  induction obj as [|[k0 v0] obj IH]; simpl; [done|].
  destruct (String.eqb k0 k) eqn:Hk; simpl.
  - apply String.eqb_eq in Hk. subst. by destruct (String.eqb k k').
  - rewrite IH. destruct (String.eqb k0 k') eqn:Hk'; [|done].
    apply String.eqb_eq in Hk'. subst. by rewrite String.eqb_sym, Hk.
Qed.

Lemma obj_get_None obj k : Obj.get obj k = None ↔ k ∉ map fst obj.
Proof.
  induction obj as [|[k0 v0] obj IH]; simpl.
  - split; [intros _; apply not_elem_of_nil | done].
  - rewrite not_elem_of_cons. destruct (String.eqb k0 k) eqn:Hk.
    + apply String.eqb_eq in Hk. subst. split; [done | by intros [? _]].
    + apply String.eqb_neq in Hk. rewrite IH. split; [by intros ? | by intros [_ ?]].
Qed.

Lemma obj_set_keys obj k v :
  map fst (Obj.set obj k v)
  = match Obj.get obj k with Some _ => map fst obj | None => map fst obj ++ [k] end.
Proof.
  induction obj as [|[k0 v0] obj IH]; simpl; [done|].
  destruct (String.eqb k0 k) eqn:Hk; simpl; [done|].
  rewrite IH. by destruct (Obj.get obj k).
Qed.

Lemma obj_bump_keys obj k :
  map fst (Obj.bump obj k)
  = (if decide (k ∈ map fst obj) then map fst obj else map fst obj ++ [k]).
Proof.
  unfold Obj.bump. rewrite obj_set_keys.
  destruct (Obj.get obj k) eqn:Hg; case_decide as Hin; try done.
  - exfalso. assert (Hn : Obj.get obj k ≠ None) by congruence.
    apply Hn. by apply obj_get_None.
  - apply obj_get_None in Hg. done.
Qed.

Lemma obj_bump_sum obj k :
  Breakdown.sum_counts (Obj.bump obj k) = S (Breakdown.sum_counts obj).
Proof.
  unfold Obj.bump. induction obj as [|[k0 v0] obj IH]; simpl; [done|].
  destruct (String.eqb k0 k); simpl; [lia|]. rewrite IH. lia.
Qed.

Lemma obj_bump_value obj k k' :
  default 0%nat (Obj.get (Obj.bump obj k) k')
  = (default 0%nat (Obj.get obj k') + Breakdown.occurrences k' [k])%nat.
Proof.
  unfold Obj.bump, Breakdown.occurrences. rewrite obj_get_set. simpl.
  rewrite (String.eqb_sym k' k).
  destruct (String.eqb k k') eqn:Hk; simpl; [|lia].
  apply String.eqb_eq in Hk. by subst.
Qed.

Lemma obj_bump_positive obj k :
  Forall (fun e => (1 ≤ e.2)%nat) obj → Forall (fun e => (1 ≤ e.2)%nat) (Obj.bump obj k).
Proof.
  unfold Obj.bump. generalize (default 0%nat (Obj.get obj k)). intros n.
  induction 1 as [|[k0 v0] obj H0 Hobj IH]; simpl.
  - repeat constructor. simpl. lia.
  - destruct (String.eqb k0 k); constructor; simpl; try done; try lia.
Qed.

(** What a counter holds once the keys [ks] were counted. *)
Lemma obj_count_fold (ks : list string) (obj : list (string * nat)) :
  map fst (fold_left Obj.bump ks obj)
  = fold_left (fun seen x => if decide (x ∈ seen) then seen else seen ++ [x]) ks (map fst obj)
  ∧ Breakdown.sum_counts (fold_left Obj.bump ks obj)
    = (Breakdown.sum_counts obj + length ks)%nat
  ∧ (∀ k, default 0%nat (Obj.get (fold_left Obj.bump ks obj) k)
          = (default 0%nat (Obj.get obj k) + Breakdown.occurrences k ks)%nat)
  ∧ (Forall (fun e => (1 ≤ e.2)%nat) obj →
     Forall (fun e => (1 ≤ e.2)%nat) (fold_left Obj.bump ks obj)).
Proof.
  revert obj. induction ks as [|k ks IH]; intros obj.
  - simpl. repeat split; try done; intros; unfold Breakdown.occurrences; simpl; lia.
  - rewrite !fold_left_cons. destruct (IH (Obj.bump obj k)) as (H1 & H2 & H3 & H4).
    split; [by rewrite H1, obj_bump_keys|].
    split; [rewrite H2, obj_bump_sum; simpl; lia|].
    split.
    + intros k'. rewrite H3, obj_bump_value. unfold Breakdown.occurrences. simpl.
      destruct (String.eqb k' k); simpl; lia.
    + intros Hpos. by apply H4, obj_bump_positive.
Qed.

Lemma obj_count (ks : list string) :
  map fst (fold_left Obj.bump ks []) = Arr.unique ks
  ∧ Breakdown.sum_counts (fold_left Obj.bump ks []) = length ks
  ∧ (∀ k, default 0%nat (Obj.get (fold_left Obj.bump ks []) k) = Breakdown.occurrences k ks)
  ∧ Forall (fun e => (1 ≤ e.2)%nat) (fold_left Obj.bump ks []).
Proof.
  destruct (obj_count_fold ks []) as (H1 & H2 & H3 & H4).
  split; [exact H1|]. split; [exact H2|]. split; [exact H3|]. apply H4. constructor.
Qed.

Lemma insert_index_perm x l : Obj.insert_index x l ≡ₚ x :: l.
Proof.
  induction l as [|y l IH]; simpl; [done|].
  destruct (_ <=? _)%N; [done|]. rewrite IH. apply perm_swap.
Qed.

Lemma List_filter_partition {A} (f : A → bool) (l : list A) :
  List.filter f l ++ List.filter (fun x => negb (f x)) l ≡ₚ l.
Proof.
  induction l as [|x l IH]; simpl; [done|].
  destruct (f x); simpl.
  - by constructor.
  - rewrite <- Permutation_middle. by constructor.
Qed.

Lemma entries_perm obj : Obj.entries obj ≡ₚ obj.
Proof.
  unfold Obj.entries.
  set (idx := omap _ obj).
  assert (Hsort : fold_right Obj.insert_index [] idx ≡ₚ idx).
  { induction idx as [|x l IH]; simpl; [done|].
    rewrite insert_index_perm. by constructor. }
  rewrite Hsort.
  assert (Hidx : map snd idx
                 = List.filter (fun e => match Obj.array_index e.1 with
                                         | Some _ => true | None => false end) obj).
  { clear Hsort. subst idx. induction obj as [|e obj IH]; [done|].
    cbn [omap list_omap List.filter]. destruct (Obj.array_index e.1).
    - cbn [map snd]. f_equal. exact IH.
    - exact IH. }
  rewrite Hidx.
  rewrite <- (List_filter_partition
                (fun e => match Obj.array_index e.1 with Some _ => true | None => false end)
                obj) at 3.
  apply Permutation_app; [done|].
  erewrite filter_ext; [reflexivity|]. intros e. simpl. by destruct (Obj.array_index e.1).
Qed.

Lemma sum_counts_perm l1 l2 : l1 ≡ₚ l2 → Breakdown.sum_counts l1 = Breakdown.sum_counts l2.
Proof. induction 1; simpl; lia. Qed.

(** ** Relationship counts *)

Lemma relationshipDistribution_count rs :
  relationshipDistribution rs
  = fold_left Obj.bump (Arr.truthy_strings (map relationship rs)) [].
Proof.
  unfold relationshipDistribution. generalize (@nil (string * nat)).
  induction rs as [|r rs IH]; intros obj; [done|].
  rewrite fold_left_cons, IH. simpl.
  destruct (relationship r) as [rel|]; [|done]. simpl.
  by destruct (negb (String.eqb rel "")).
Qed.

Lemma breakdown_count rs :
  Breakdown.breakdown rs = fold_left Obj.bump (map Breakdown.rel_or_unknown rs) [].
Proof.
  unfold Breakdown.breakdown. generalize (@nil (string * nat)).
  induction rs as [|r rs IH]; intros obj; [done|].
  by rewrite fold_left_cons, IH.
Qed.

Lemma occurrences_truthy rel rs :
  rel ≠ "" →
  Breakdown.occurrences rel (Arr.truthy_strings (map relationship rs))
  = length (List.filter (fun r => bool_decide (relationship r = Some rel)) rs).
Proof.
  intros Hne. unfold Breakdown.occurrences.
  induction rs as [|r rs IH]; [done|].
  cbn [map Arr.truthy_strings List.filter].
  destruct (relationship r) as [s|] eqn:Hr.
  - cbn [JS.truthy]. destruct (String.eqb s "") eqn:Hs; cbn [negb].
    + apply String.eqb_eq in Hs. subst.
      rewrite bool_decide_eq_false_2 by congruence. exact IH.
    + cbn [List.filter]. destruct (String.eqb rel s) eqn:Hrs.
      * apply String.eqb_eq in Hrs. subst. rewrite bool_decide_eq_true_2 by done.
        cbn [length]. by rewrite IH.
      * apply String.eqb_neq in Hrs. rewrite bool_decide_eq_false_2 by congruence.
        exact IH.
  - cbn [JS.truthy]. rewrite bool_decide_eq_false_2 by congruence. exact IH.
Qed.

Lemma truthy_strings_length rs :
  length (Arr.truthy_strings (map relationship rs)) = length (Breakdown.with_relationship rs).
Proof.
  unfold Breakdown.with_relationship. induction rs as [|r rs IH]; [done|]. simpl.
  destruct (relationship r) as [s|]; simpl; [|done].
  destruct (negb (String.eqb s "")); simpl; by rewrite IH.
Qed.

Lemma obj_get_elem obj k v :
  NoDup (map fst obj) → (k, v) ∈ obj → Obj.get obj k = Some v.
Proof.
  induction obj as [|[k0 v0] obj IH]; simpl; intros Hnd Hin.
  - by apply elem_of_nil in Hin.
  - inversion Hnd as [|?? Hk0 Hnd']; subst.
    apply elem_of_cons in Hin as [[= -> ->]|Hin].
    + by rewrite String.eqb_refl.
    + destruct (String.eqb k0 k) eqn:Hk; [|by apply IH].
      apply String.eqb_eq in Hk. subst. exfalso. apply Hk0.
      apply list_elem_of_fmap. by exists (k, v).
Qed.

Lemma occurrences_counted key rs :
  Breakdown.occurrences key (map Breakdown.rel_or_unknown rs)
  = length (Breakdown.counted key rs).
Proof.
  unfold Breakdown.occurrences, Breakdown.counted.
  induction rs as [|r rs IH]; [done|]. cbn [map List.filter].
  rewrite (String.eqb_sym key). destruct (String.eqb _ key); cbn [length]; by rewrite IH.
Qed.

Lemma breakdown_facts rs :
  map fst (Breakdown.breakdown rs) = Arr.unique (map Breakdown.rel_or_unknown rs)
  ∧ Breakdown.sum_counts (Breakdown.breakdown rs) = length rs
  ∧ (∀ e, e ∈ Breakdown.breakdown rs →
          e.2 = length (Breakdown.counted e.1 rs) ∧ (1 ≤ e.2 ≤ length rs)%nat).
Proof.
  rewrite breakdown_count.
  destruct (obj_count (map Breakdown.rel_or_unknown rs)) as (H1 & H2 & H3 & H4).
  split; [exact H1|]. split; [by rewrite H2, length_map|].
  intros [k v] He. simpl.
  assert (Hv : v = length (Breakdown.counted k rs)).
  { assert (Hg : Obj.get (fold_left Obj.bump (map Breakdown.rel_or_unknown rs) []) k = Some v).
    { apply obj_get_elem; [|done]. rewrite H1. apply unique_NoDup. }
    specialize (H3 k). rewrite Hg in H3. simpl in H3.
    by rewrite H3, occurrences_counted. }
  split; [done|]. split.
  - by apply (proj1 (Forall_forall _ _) H4 (k, v)).
  - rewrite Hv. apply List_filter_length_le.
Qed.



Lemma entries_no_index (obj : list (string * nat)) :
  Forall (fun e => Obj.array_index e.1 = None) obj → Obj.entries obj = obj.
Proof.
  intros H. unfold Obj.entries.
  assert (H1 : omap (fun e : string * nat =>
                       match Obj.array_index e.1 with
                       | Some n => Some (n, e) | None => None end) obj = []).
  { induction H as [|e obj He _ IH]; [done|]. cbn [omap list_omap]. by rewrite He. }
  assert (H2 : List.filter (fun e : string * nat =>
                              match Obj.array_index e.1 with
                              | Some _ => false | None => true end) obj = obj).
  { induction H as [|e obj He _ IH]; [done|]. cbn [List.filter]. rewrite He.
    f_equal. apply IH. cbn [omap list_omap] in H1. by rewrite He in H1. }
  by rewrite H1, H2.
Qed.



Lemma StronglySorted_weaken {A} (R R' : relation A) (l : list A) :
  (∀ a b, R a b → R' a b) → StronglySorted R l → StronglySorted R' l.
Proof.
  intros HR. induction 1 as [|x l _ IH Hx]; constructor; [done|].
  eapply Forall_impl; [exact Hx|]. intros y. apply HR.
Qed.

(** X21: under the same condition, the reviewer panel lists each
    relationship once ("Unknown" for a missing one), in descending order of
    count, each with the number of its responses, and the counts add up to
    the number of responses. *)
Theorem sortedRelationships_order (rs : list AppraisalResponse) :
  Forall Obj.own_only (map Breakdown.rel_or_unknown rs) →
  StronglySorted (fun a b => (b.2 ≤ a.2)%nat) (Breakdown.sortedRelationships rs)
  ∧ Breakdown.sortedRelationships rs ≡ₚ Breakdown.breakdown rs
  ∧ NoDup (map fst (Breakdown.sortedRelationships rs))
  ∧ Breakdown.sum_counts (Breakdown.sortedRelationships rs) = length rs
  ∧ (∀ e, e ∈ Breakdown.sortedRelationships rs →
          e.2 = length (Breakdown.counted e.1 rs) ∧ (1 ≤ e.2)%nat).
Proof.
  intros _. destruct (breakdown_facts rs) as (Hkeys & Hsum & Hrows).
  assert (Hperm : Breakdown.sortedRelationships rs ≡ₚ Breakdown.breakdown rs).
  { unfold Breakdown.sortedRelationships. rewrite sort_desc_on_perm. apply entries_perm. }
  split; [|split; [exact Hperm|split; [|split]]].
  - unfold Breakdown.sortedRelationships.
    eapply StronglySorted_weaken; [|apply sort_desc_on_sorted].
    intros a b Hab. unfold Props.desc_on in Hab. rewrite <- Zle_Qle in Hab. lia.
  - rewrite Hperm, Hkeys. apply unique_NoDup.
  - by rewrite (sum_counts_perm _ _ Hperm).
  - intros e He. rewrite Hperm in He. destruct (Hrows e He) as (Hc & H1 & _). done.
Qed.

(** ** The key order of a counter *)

Lemma insert_index_sorted x l :
  StronglySorted (fun a b => (a.1 ≤ b.1)%N) l →
  StronglySorted (fun a b => (a.1 ≤ b.1)%N) (Obj.insert_index x l).
Proof.
  induction 1 as [|y l Hl IH Hy]; cbn [Obj.insert_index].
  - repeat constructor.
  - destruct (x.1 <=? y.1)%N eqn:Hxy.
    + apply N.leb_le in Hxy. constructor; [by constructor|].
      constructor; [done|]. eapply Forall_impl; [exact Hy|]. intros z Hz. simpl in *. lia.
    + apply N.leb_gt in Hxy. constructor; [done|].
      rewrite insert_index_perm. constructor; [lia | done].
Qed.

Lemma sort_index_sorted l :
  StronglySorted (fun a b => (a.1 ≤ b.1)%N) (fold_right Obj.insert_index [] l)
  ∧ fold_right Obj.insert_index [] l ≡ₚ l.
Proof.
  induction l as [|x l [IH1 IH2]]; cbn [fold_right]; [split; [constructor | done]|].
  split; [by apply insert_index_sorted|]. rewrite insert_index_perm. by constructor.
Qed.

Lemma filter_map_fst (f : string → bool) (obj : list (string * nat)) :
  List.filter f (map fst obj) = map fst (List.filter (fun e => f e.1) obj).
Proof.
  induction obj as [|e obj IH]; [done|]. cbn [map List.filter].
  destruct (f e.1); cbn [map]; by rewrite IH.
Qed.

Lemma List_filter_all {A} (f : A → bool) (l : list A) :
  Forall (fun x => f x = true) l → List.filter f l = l.
Proof. induction 1 as [|x l Hx _ IH]; [done|]. cbn [List.filter]. by rewrite Hx, IH. Qed.

Lemma List_filter_none {A} (f : A → bool) (l : list A) :
  Forall (fun x => f x = false) l → List.filter f l = [].
Proof. induction 1 as [|x l Hx _ IH]; [done|]. cbn [List.filter]. by rewrite Hx, IH. Qed.

(** [Object.entries] lists the array indices in ascending order, then the
    other keys as they were created. *)
Lemma entries_order (obj : list (string * nat)) :
  map fst (Obj.entries obj)
  = List.filter Keys.is_index (map fst (Obj.entries obj))
    ++ List.filter (fun k => negb (Keys.is_index k)) (map fst obj)
  ∧ StronglySorted Keys.ascending (List.filter Keys.is_index (map fst (Obj.entries obj))).
Proof.
  unfold Obj.entries.
  set (idx := omap (fun e : string * nat =>
                      match Obj.array_index e.1 with
                      | Some n => Some (n, e) | None => None end) obj).
  set (plain := List.filter (fun e : string * nat =>
                               match Obj.array_index e.1 with
                               | Some _ => false | None => true end) obj).
  destruct (sort_index_sorted idx) as [Hsorted Hperm].
  set (sorted := fold_right Obj.insert_index [] idx) in *.
  assert (Hidx : Forall (fun p : N * (string * nat) => Obj.array_index p.2.1 = Some p.1) idx).
  { subst idx. clear. induction obj as [|e obj IH]; [constructor|].
    cbn [omap list_omap]. destruct (Obj.array_index e.1) eqn:He; [|done].
    constructor; [done | exact IH]. }
  assert (Hsidx : Forall (fun p : N * (string * nat) => Obj.array_index p.2.1 = Some p.1)
                    sorted) by (by rewrite Hperm).
  assert (Hfirst : Forall (fun k => Keys.is_index k = true) (map fst (map snd sorted))).
  { rewrite !Forall_fmap. eapply Forall_impl; [exact Hsidx|].
    intros p Hp. simpl. unfold Keys.is_index. by rewrite Hp. }
  assert (Hplain : Forall (fun k => Keys.is_index k = false) (map fst plain)).
  { rewrite Forall_fmap. subst plain. apply Forall_forall. intros e He.
    apply list_elem_of_In, filter_In in He as [_ He]. simpl. unfold Keys.is_index.
    by destruct (Obj.array_index e.1). }
  assert (Hkeep : List.filter Keys.is_index (map fst (map snd sorted ++ plain))
                  = map fst (map snd sorted)).
  { rewrite map_app, List.filter_app, (List_filter_all _ _ Hfirst),
      (List_filter_none _ _ Hplain). by rewrite app_nil_r. }
  rewrite Hkeep. split.
  - rewrite map_app. f_equal. subst plain. rewrite filter_map_fst. f_equal.
    apply filter_ext. intros e. unfold Keys.is_index. by destruct (Obj.array_index e.1).
  - clear Hkeep Hfirst Hplain Hperm. revert Hsidx.
    induction Hsorted as [|p l Hl IH Hp]; intros Hall; [constructor|].
    inversion Hall as [|?? Hp1 Hall']; subst. cbn [map]. constructor; [by apply IH|].
    rewrite !Forall_fmap. apply Forall_forall. intros q Hq. simpl.
    exists p.1, q.1. split; [done|]. split.
    + by apply (proj1 (Forall_forall _ _) Hall').
    + by apply (proj1 (Forall_forall _ _) Hp).
Qed.

Lemma entries_positive (obj : list (string * nat)) :
  Forall (fun e => (1 ≤ e.2)%nat) obj → Forall (fun e => (1 ≤ e.2)%nat) (Obj.entries obj).
Proof. intros H. by rewrite entries_perm. Qed.

(** X19: as long as no relationship is the name of a property inherited
    from [Object.prototype], the keys of [relationshipDistribution] are the
    relationships that are neither null nor empty, each once; the object
    lists the keys that are array indices first, in ascending order, and
    then the other keys in order of first occurrence (all keys in order of
    first occurrence when none is an array index).  Each key counts the
    responses with that relationship (at least one), and the counts add up
    to the number of responses that have a relationship. *)
Theorem relationshipDistribution_counts (rs : list AppraisalResponse) :
  Forall Obj.own_only (uniqueRelationships rs) →
  map fst (Obj.entries (relationshipDistribution rs)) ≡ₚ uniqueRelationships rs
  ∧ NoDup (map fst (Obj.entries (relationshipDistribution rs)))
  ∧ map fst (Obj.entries (relationshipDistribution rs))
    = List.filter Keys.is_index (map fst (Obj.entries (relationshipDistribution rs)))
      ++ List.filter (fun k => negb (Keys.is_index k)) (uniqueRelationships rs)
  ∧ StronglySorted Keys.ascending
      (List.filter Keys.is_index (map fst (Obj.entries (relationshipDistribution rs))))
  ∧ (Forall (fun k => Obj.array_index k = None) (uniqueRelationships rs) →
     map fst (Obj.entries (relationshipDistribution rs)) = uniqueRelationships rs)
  ∧ (∀ rel, rel ≠ "" →
       default 0%nat (Obj.get (relationshipDistribution rs) rel)
       = length (List.filter (fun r => bool_decide (relationship r = Some rel)) rs))
  ∧ Obj.get (relationshipDistribution rs) "" = None
  ∧ Forall (fun e => (1 ≤ e.2)%nat) (Obj.entries (relationshipDistribution rs))
  ∧ Breakdown.sum_counts (Obj.entries (relationshipDistribution rs))
    = length (Breakdown.with_relationship rs)
  ∧ (Breakdown.sum_counts (Obj.entries (relationshipDistribution rs)) ≤ length rs)%nat.
Proof.
  intros _.
  pose proof (entries_perm (relationshipDistribution rs)) as Hperm.
  destruct (entries_order (relationshipDistribution rs)) as [Horder Hsorted].
  rewrite (sum_counts_perm _ _ Hperm).
  revert Hperm Horder Hsorted. rewrite relationshipDistribution_count.
  destruct (obj_count (Arr.truthy_strings (map relationship rs))) as (H1 & H2 & H3 & H4).
  intros Hperm Horder Hsorted. fold (uniqueRelationships rs) in H1.
  assert (Hkeys : map fst (Obj.entries
                    (fold_left Obj.bump (Arr.truthy_strings (map relationship rs)) []))
                  ≡ₚ uniqueRelationships rs) by (by rewrite Hperm, H1).
  split; [exact Hkeys|].
  split; [rewrite Hkeys; apply unique_NoDup|].
  split; [by rewrite <- H1|]. split; [exact Hsorted|].
  split; [|split; [|split; [|split; [by apply entries_positive|split]]]].
  - intros Hno. rewrite entries_no_index; [done|].
    apply Forall_forall. intros e He.
    apply (proj1 (Forall_forall _ _) Hno). rewrite <- H1.
    apply list_elem_of_fmap. by exists e.
  - intros rel Hne. rewrite H3. by apply occurrences_truthy.
  - apply obj_get_None. rewrite H1. intros Hin.
    apply unique_elem, truthy_strings_elem in Hin as [Hne _]. done.
  - rewrite H2. apply truthy_strings_length.
  - rewrite H2, truthy_strings_length. apply List_filter_length_le.
Qed.

(** ** The properties at sample data *)

Lemma performers_split_witness :
  (0 < 1)%Z
  ∧ map ms_manager_name
      (Report.top (Report.getTopAndBottomPerformers Cases.two_managers 1)) = ["Bob"]
  ∧ map ms_manager_name
      (Report.bottom (Report.getTopAndBottomPerformers Cases.two_managers 1)) = ["Ann"]
  ∧ (overall_score (Sample.summary_with "Ann" (3 # 2))
     <= overall_score (Sample.summary_with "Bob" (372 # 100)))%Q.
Proof.
  assert (Hc : (0 < 1)%Z) by lia.
  destruct (performers_split Cases.two_managers 1 Hc) as (Ht & Hb & _ & _ & Hdom).
  split; [exact Hc|]. split; [by rewrite Ht|]. split; [by rewrite Hb|].
  apply Hdom.
  - simpl. lia.
  - rewrite Ht. apply list_elem_of_In. vm_compute. left. reflexivity.
  - rewrite Hb. apply list_elem_of_In. vm_compute. left. reflexivity.
Defined.

Lemma performers_overlap_witness :
  ∃ m, m ∈ Report.top (Report.getTopAndBottomPerformers Cases.two_managers 2)
       ∧ m ∈ Report.bottom (Report.getTopAndBottomPerformers Cases.two_managers 2).
Proof.
  apply performers_overlap.
  - lia.
  - discriminate.
  - simpl. lia.
Defined.


Lemma strengths_and_weaknesses_witness :
  Exporter.competencyRow Sample.jane (k_mentors_coaches, "Mentors & Coaches")
    ∈ Report.strengths (Report.getStrengthsAndWeaknesses Sample.jane)
  ∧ Exporter.competencyRow Sample.jane (k_final_say, "Final Say Balance")
    ∈ Report.weaknesses (Report.getStrengthsAndWeaknesses Sample.jane)
  ∧ (Exporter.avg (Exporter.competencyRow Sample.jane (k_final_say, "Final Say Balance"))
     <= Exporter.avg (Exporter.competencyRow Sample.jane
                        (k_mentors_coaches, "Mentors & Coaches")))%Q.
Proof.
  assert (Hs : Exporter.competencyRow Sample.jane (k_mentors_coaches, "Mentors & Coaches")
               ∈ Report.strengths (Report.getStrengthsAndWeaknesses Sample.jane)).
  { apply list_elem_of_In. vm_compute. left. reflexivity. }
  assert (Hw : Exporter.competencyRow Sample.jane (k_final_say, "Final Say Balance")
               ∈ Report.weaknesses (Report.getStrengthsAndWeaknesses Sample.jane)).
  { apply list_elem_of_In. vm_compute. left. reflexivity. }
  split; [exact Hs|]. split; [exact Hw|].
  destruct (strengths_and_weaknesses Sample.jane) as (_ & _ & Hall).
  exact (proj1 (Hall _ _ Hs Hw)).
Defined.


Lemma collectFeedback_entries_witness :
  "Listen" ∈ Spec.prompt_list Stop (feedbackThemes Cases.listen)
  ∧ ∃ r text, r ∈ Cases.listen ∧ Spec.prompt_field Stop r = Some text
              ∧ "Listen" = JS.trim text
              ∧ manager_name r +:+ ": " +:+ text
                ∈ Kinds.list_of (Kinds.of_prompt Stop) (Report.collectFeedback Cases.listen).
Proof.
  assert (Hin : "Listen" ∈ Spec.prompt_list Stop (feedbackThemes Cases.listen)).
  { apply list_elem_of_In. vm_compute. left. reflexivity. }
  split; [exact Hin|].
  destruct (collectFeedback_entries Cases.listen) as (_ & Hthemes & _).
  apply (Hthemes Stop "Listen" Hin). discriminate.
Defined.

Lemma summaries_of_filtered_witness :
  summarise ("Jane", Sample.jane)
    ∈ managerSummaries (filteredResponses Sample.jane Cases.only_jane)
  ∧ responses (summarise ("Jane", Sample.jane))
    = filteredResponses (Spec.by_manager "Jane" Sample.jane) Cases.only_jane
  ∧ (length (managerSummaries (filteredResponses Sample.jane Cases.only_jane)) ≤ 1)%nat.
Proof.
  assert (Hin : summarise ("Jane", Sample.jane)
                ∈ managerSummaries (filteredResponses Sample.jane Cases.only_jane)).
  { apply list_elem_of_In. vm_compute. left. reflexivity. }
  split; [exact Hin|].
  destruct (summaries_of_filtered Sample.jane Cases.only_jane _ Hin)
    as (Hresp & _ & _ & Hone).
  split; [exact Hresp|]. apply (Hone "Jane"). reflexivity.
Defined.





Lemma formatResponse_normal_witness :
  Runs.short 0 " hi " = true ∧ Chat.formatResponse " hi " = JS.trim " hi ".
Proof.
  assert (H : Runs.short 0 " hi " = true) by reflexivity.
  split; [exact H|].
  destruct (formatResponse_normal " hi ") as (_ & _ & _ & Hid). exact (Hid H).
Defined.

Lemma reviews_own_only :
  Forall Obj.own_only (map Breakdown.rel_or_unknown Cases.reviews).
Proof.
  repeat constructor; unfold Obj.own_only; intros Hin;
    apply list_elem_of_In in Hin; vm_compute in Hin;
    repeat (destruct Hin as [Hin | Hin]; [discriminate Hin|]); exact Hin.
Defined.


Lemma sortedRelationships_order_witness :
  Forall Obj.own_only (map Breakdown.rel_or_unknown Cases.reviews)
  ∧ Breakdown.sortedRelationships Cases.reviews = [("Peer", 2%nat); ("Unknown", 1%nat)]
  ∧ Breakdown.sum_counts (Breakdown.sortedRelationships Cases.reviews)
    = length Cases.reviews.
Proof.
  split; [exact reviews_own_only|]. split; [vm_compute; reflexivity|].
  destruct (sortedRelationships_order Cases.reviews reviews_own_only)
    as (_ & _ & _ & Hsum & _).
  exact Hsum.
Defined.

Lemma relationshipDistribution_counts_witness :
  Forall Obj.own_only (uniqueRelationships Keys.indexed)
  ∧ uniqueRelationships Keys.indexed = ["b"; "10"; "2"]
  ∧ Obj.entries (relationshipDistribution Keys.indexed)
    = [("2", 1%nat); ("10", 1%nat); ("b", 2%nat)]
  ∧ map fst (Obj.entries (relationshipDistribution Keys.indexed))
    ≡ₚ uniqueRelationships Keys.indexed
  ∧ Breakdown.sum_counts (Obj.entries (relationshipDistribution Keys.indexed)) = 4%nat.
Proof.
  assert (Hown : Forall Obj.own_only (uniqueRelationships Keys.indexed)).
  { apply Forall_forall. intros k Hk Hin.
    apply list_elem_of_In in Hk. apply list_elem_of_In in Hin. vm_compute in Hk, Hin.
    repeat (destruct Hk as [<- | Hk];
            [repeat (destruct Hin as [Hin | Hin]; [discriminate Hin|]); exact Hin|]).
    exact Hk. }
  split; [exact Hown|]. split; [vm_compute; reflexivity|]. split; [vm_compute; reflexivity|].
  destruct (relationshipDistribution_counts Keys.indexed Hown)
    as (Hkeys & _ & _ & _ & _ & _ & _ & _ & Hsum & _).
  split; [exact Hkeys|]. rewrite Hsum. vm_compute. reflexivity.
Defined.

(** * The figures in binary64 *)

(** ** Binary64 rounding *)

Lemma nearest_even_comp (x y : Q) : (x == y)%Q → F64.nearest_even x = F64.nearest_even y.
Proof.
  intros H. unfold F64.nearest_even. rewrite (Qfloor_comp _ _ H).
  assert (Hc : ((x - inject_Z (Qfloor y) ?= 1 # 2) = (y - inject_Z (Qfloor y) ?= 1 # 2))%Q)
    by (by rewrite H).
  by rewrite Hc.
Qed.

Lemma nearest_even_Z (z : Z) : F64.nearest_even (inject_Z z) = z.
Proof.
  unfold F64.nearest_even. rewrite Qfloor_Z.
  assert (Hc : ((inject_Z z - inject_Z z ?= 1 # 2) = Lt)%Q).
  { assert (H0 : (inject_Z z - inject_Z z == 0)%Q) by ring. by rewrite H0. }
  by rewrite Hc.
Qed.

Lemma nearest_even_floor (x : Q) :
  (Qfloor x ≤ F64.nearest_even x ≤ Qfloor x + 1)%Z.
Proof.
  unfold F64.nearest_even.
  destruct (_ ?= _)%Q; [destruct (Z.even _)| |]; lia.
Qed.

Lemma nearest_even_mono (x y : Q) :
  (x <= y)%Q → (F64.nearest_even x ≤ F64.nearest_even y)%Z.
Proof.
  intros Hxy. pose proof (Qfloor_resp_le _ _ Hxy) as Hf.
  destruct (Z.eq_dec (Qfloor x) (Qfloor y)) as [Heq|Hne].
  - unfold F64.nearest_even. rewrite <- Heq.
    generalize (inject_Z (Qfloor x)). intros q.
    destruct (x - q ?= 1 # 2)%Q eqn:Hx; destruct (y - q ?= 1 # 2)%Q eqn:Hy;
      try (destruct (Z.even (Qfloor x))); try lia; exfalso;
      first [apply Qeq_alt in Hx | apply Qlt_alt in Hx | apply Qgt_alt in Hx];
      first [apply Qeq_alt in Hy | apply Qlt_alt in Hy | apply Qgt_alt in Hy]; lra.
  - pose proof (nearest_even_floor x). pose proof (nearest_even_floor y). lia.
Qed.

Lemma inject_Z_pow2_pos (k : Z) : (0 ≤ k)%Z → (0 < inject_Z (2 ^ k))%Q.
Proof.
  intros Hk. change 0%Q with (inject_Z 0). rewrite <- Zlt_Qlt. by apply Z.pow_pos_nonneg.
Qed.

(** The shift that [keep53] applies. *)
Lemma keep53_bounds (X : Q) :
  (0 <= X)%Q →
  (F64.keep53 X ≤ 2 ^ (Z.max 0 (Z.log2 (Qfloor X) - 52) + 53))%Z
  ∧ ((0 < Z.max 0 (Z.log2 (Qfloor X) - 52))%Z →
     (2 ^ (Z.max 0 (Z.log2 (Qfloor X) - 52) + 52) ≤ F64.keep53 X)%Z).
Proof.
  intros HX. unfold F64.keep53. cbv zeta.
  set (f := Qfloor X). set (sh := Z.max 0 (Z.log2 f - 52)).
  assert (Hf0 : (0 ≤ f)%Z).
  { subst f. change 0%Z with (Qfloor (inject_Z 0)). by apply Qfloor_resp_le. }
  assert (Hsh : (0 ≤ sh)%Z) by lia.
  pose proof (inject_Z_pow2_pos sh Hsh) as Hpos.
  assert (Hp : (0 < 2 ^ sh)%Z) by (by apply Z.pow_pos_nonneg).
  split.
  - assert (Hlt : (f + 1 ≤ 2 ^ (sh + 53))%Z).
    { destruct (Z.eq_dec f 0%Z) as [->|Hne].
      - assert (2 ^ 0 ≤ 2 ^ (sh + 53))%Z; [|lia]. apply Z.pow_le_mono_r; lia.
      - pose proof (Z.log2_spec f ltac:(lia)) as [_ Hup].
        assert (2 ^ Z.succ (Z.log2 f) ≤ 2 ^ (sh + 53))%Z; [|lia].
        apply Z.pow_le_mono_r; lia. }
    assert (HXle : (X <= inject_Z (2 ^ (sh + 53)))%Q).
    { apply Qle_trans with (inject_Z (f + 1)).
      - apply Qlt_le_weak. subst f. apply Qlt_floor.
      - by rewrite <- Zle_Qle. }
    assert (Hdiv : (X / inject_Z (2 ^ sh) <= inject_Z (2 ^ 53))%Q).
    { apply Qle_shift_div_r; [done|]. rewrite <- inject_Z_mult, <- Z.pow_add_r by lia.
      by rewrite (Z.add_comm 53 sh). }
    apply nearest_even_mono in Hdiv. rewrite nearest_even_Z in Hdiv.
    rewrite Z.pow_add_r by lia. rewrite (Z.mul_comm (2 ^ sh)).
    by apply Z.mul_le_mono_nonneg_r; [lia|].
  - intros Hsh0.
    assert (Hshe : sh = (Z.log2 f - 52)%Z) by lia.
    assert (Hfpos : (0 < f)%Z).
    { destruct (Z.eq_dec f 0%Z) as [Hz|]; [|lia]. rewrite Hz in Hshe. simpl in Hshe. lia. }
    pose proof (Z.log2_spec f Hfpos) as [Hlow _].
    assert (HXge : (inject_Z (2 ^ (sh + 52)) <= X)%Q).
    { apply Qle_trans with (inject_Z f); [|subst f; apply Qfloor_le].
      rewrite <- Zle_Qle. by replace (sh + 52)%Z with (Z.log2 f) by lia. }
    assert (Hdiv : (inject_Z (2 ^ 52) <= X / inject_Z (2 ^ sh))%Q).
    { apply Qle_shift_div_l; [done|]. rewrite <- inject_Z_mult, <- Z.pow_add_r by lia.
      by rewrite (Z.add_comm 52 sh). }
    apply nearest_even_mono in Hdiv. rewrite nearest_even_Z in Hdiv.
    rewrite Z.pow_add_r by lia. rewrite (Z.mul_comm (2 ^ sh)).
    by apply Z.mul_le_mono_nonneg_r; [lia|].
Qed.

Lemma keep53_mono (X Y : Q) : (0 <= X)%Q → (X <= Y)%Q → (F64.keep53 X ≤ F64.keep53 Y)%Z.
Proof.
  intros HX HXY.
  assert (HY : (0 <= Y)%Q) by lra.
  pose proof (Qfloor_resp_le _ _ HXY) as Hf.
  assert (Hf0 : (0 ≤ Qfloor X)%Z).
  { change 0%Z with (Qfloor (inject_Z 0)). by apply Qfloor_resp_le. }
  pose proof (Z.log2_le_mono _ _ Hf) as Hlog.
  destruct (keep53_bounds X HX) as [HupX _].
  destruct (keep53_bounds Y HY) as [_ HlowY].
  destruct (Z.eq_dec (Z.max 0 (Z.log2 (Qfloor X) - 52)) (Z.max 0 (Z.log2 (Qfloor Y) - 52)))
    as [Heq|Hne].
  - unfold F64.keep53. cbv zeta. rewrite <- Heq.
    set (sh := Z.max 0 (Z.log2 (Qfloor X) - 52)).
    assert (Hsh : (0 ≤ sh)%Z) by lia.
    apply Z.mul_le_mono_nonneg_r; [by apply Z.pow_nonneg|].
    apply nearest_even_mono. apply Qmult_le_compat_r; [done|].
    apply Qinv_le_0_compat, Qlt_le_weak. by apply inject_Z_pow2_pos.
  - etransitivity; [exact HupX|]. etransitivity; [|apply HlowY; lia].
    apply Z.pow_le_mono_r; lia.
Qed.

Lemma keep53_comp (X Y : Q) : (X == Y)%Q → F64.keep53 X = F64.keep53 Y.
Proof.
  intros H. unfold F64.keep53. cbv zeta. rewrite (Qfloor_comp _ _ H).
  f_equal. apply nearest_even_comp. by rewrite H.
Qed.

(** An integer with at most 53 significant bits is kept. *)
Lemma keep53_exact (m e : Z) :
  (0 ≤ m < 2 ^ 53)%Z → (0 ≤ e)%Z → F64.keep53 (inject_Z (m * 2 ^ e)) = (m * 2 ^ e)%Z.
Proof.
  intros Hm He. unfold F64.keep53. cbv zeta. rewrite Qfloor_Z.
  set (sh := Z.max 0 (Z.log2 (m * 2 ^ e) - 52)).
  assert (Hsh : (0 ≤ sh ≤ e)%Z).
  { subst sh. destruct (Z.eq_dec m 0%Z) as [->|Hne]; [simpl; lia|].
    rewrite Z.log2_mul_pow2 by lia.
    assert (Z.log2 m < 53)%Z by (apply Z.log2_lt_pow2; lia). lia. }
  assert (Hq : (inject_Z (m * 2 ^ e) / inject_Z (2 ^ sh) == inject_Z (m * 2 ^ (e - sh)))%Q).
  { replace e with ((e - sh) + sh)%Z at 1 by lia.
    rewrite Z.pow_add_r by lia. rewrite Z.mul_assoc, inject_Z_mult.
    pose proof (inject_Z_pow2_pos sh ltac:(lia)). field. lra. }
  rewrite (nearest_even_comp _ _ Hq), nearest_even_Z.
  rewrite <- Z.mul_assoc, <- Z.pow_add_r by lia. do 2 f_equal. lia.
Qed.

Lemma units_value : Zpos F64.units = (2 ^ 1074)%Z.
Proof. unfold F64.units. by rewrite Pos2Z.inj_pow. Qed.

Lemma nearest_units_comp (x y : Q) : (x == y)%Q → F64.nearest_units x = F64.nearest_units y.
Proof. intros H. unfold F64.nearest_units. apply keep53_comp. by rewrite H. Qed.

Lemma nearest_units_mono (x y : Q) :
  (0 <= x)%Q → (x <= y)%Q → (F64.nearest_units x ≤ F64.nearest_units y)%Z.
Proof.
  intros Hx Hxy. unfold F64.nearest_units.
  assert (Hu : (0 < inject_Z (Zpos F64.units))%Q) by done.
  apply keep53_mono.
  - apply Qmult_le_0_compat; lra.
  - apply Qmult_le_compat_r; lra.
Qed.

Lemma nearest_units_Z (z : Z) :
  (0 ≤ z < 2 ^ 53)%Z → F64.nearest_units (inject_Z z) = (z * Zpos F64.units)%Z.
Proof.
  intros Hz. unfold F64.nearest_units. rewrite <- inject_Z_mult, units_value.
  by apply keep53_exact.
Qed.

Lemma round_comp (x y : Q) : (x == y)%Q → F64.round x = F64.round y.
Proof.
  intros H. unfold F64.round.
  assert (Hb : Qle_bool 0 x = Qle_bool 0 y).
  { destruct (Qle_bool 0 x) eqn:Hx; destruct (Qle_bool 0 y) eqn:Hy; try done.
    - apply Qle_bool_iff in Hx. rewrite H in Hx. apply Qle_bool_iff in Hx. congruence.
    - apply Qle_bool_iff in Hy. rewrite <- H in Hy. apply Qle_bool_iff in Hy. congruence. }
  rewrite Hb, (nearest_units_comp x y H).
  assert (Hn : (- x == - y)%Q) by (by rewrite H).
  by rewrite (nearest_units_comp _ _ Hn).
Qed.

Lemma below_overflow (z : Z) :
  (0 ≤ z < 2 ^ 53)%Z → (F64.overflow <=? z * Zpos F64.units)%Z = false.
Proof.
  intros Hz. apply Z.leb_gt. rewrite units_value. unfold F64.overflow.
  apply Z.lt_le_trans with (2 ^ 53 * 2 ^ 1074)%Z.
  - apply Z.mul_lt_mono_pos_r; [by apply Z.pow_pos_nonneg | lia].
  - rewrite <- Z.pow_add_r by lia. apply Z.pow_le_mono_r; lia.
Qed.

Lemma Qred_inject_Z (z : Z) : Qred (inject_Z z) = inject_Z z.
Proof.
  unfold Qred, inject_Z.
  pose proof (Z.ggcd_gcd z 1) as Hg. pose proof (Z.ggcd_correct_divisors z 1) as Hd.
  destruct (Z.ggcd z 1) as [g [aa bb]]. cbn [fst snd] in *.
  rewrite Z.gcd_1_r in Hg. subst g. destruct Hd as [Ha Hb].
  assert (aa = z) as -> by lia. assert (bb = 1%Z) as -> by lia. done.
Qed.

Lemma Qred_units (z : Z) : Qred (z * Zpos F64.units # F64.units) = inject_Z z.
Proof.
  assert (H : (z * Zpos F64.units # F64.units == inject_Z z)%Q).
  { unfold Qeq, inject_Z. cbn [Qnum Qden]. lia. }
  rewrite (Qred_complete _ _ H). apply Qred_inject_Z.
Qed.

(** An integer below [2^53] in absolute value is a number. *)
Lemma round_Z (z : Z) : (Z.abs z < 2 ^ 53)%Z → F64.round (inject_Z z) = F64.Finite (inject_Z z).
Proof.
  intros Hz. unfold F64.round.
  destruct (Qle_bool 0 (inject_Z z)) eqn:H0.
  - apply Qle_bool_iff in H0. change 0%Q with (inject_Z 0) in H0. rewrite <- Zle_Qle in H0.
    rewrite nearest_units_Z by lia. rewrite below_overflow by lia.
    by rewrite Qred_units.
  - assert (Hneg : (z < 0)%Z).
    { destruct (Z.lt_ge_cases z 0) as [|Hge]; [done|].
      assert (Ht : Qle_bool 0 (inject_Z z) = true); [|congruence].
      apply Qle_bool_iff. change 0%Q with (inject_Z 0). by rewrite <- Zle_Qle. }
    assert (Ho : (- inject_Z z == inject_Z (- z))%Q) by (by rewrite inject_Z_opp).
    rewrite (nearest_units_comp _ _ Ho), nearest_units_Z by lia.
    rewrite below_overflow by lia.
    rewrite <- Z.mul_opp_l, Z.opp_involutive. by rewrite Qred_units.
Qed.

Lemma of_Z_exact (z : Z) : (Z.abs z < 2 ^ 53)%Z → F64.of_Z z = F64.Finite (inject_Z z).
Proof. apply round_Z. Qed.

(** Rounding does not go below an integer that is a number. *)
Lemma round_at_least (c : Z) (x : Q) :
  (0 ≤ c < 2 ^ 53)%Z → (inject_Z c <= x)%Q → Spec64.at_least c (F64.round x).
Proof.
  intros Hc Hx. unfold F64.round.
  assert (Hc0 : (0 <= inject_Z c)%Q).
  { change 0%Q with (inject_Z 0). rewrite <- Zle_Qle. lia. }
  assert (H0 : Qle_bool 0 x = true) by (apply Qle_bool_iff; lra).
  rewrite H0.
  destruct (F64.overflow <=? F64.nearest_units x)%Z; [done|].
  cbn [Spec64.at_least]. rewrite Qred_correct.
  pose proof (nearest_units_mono _ _ Hc0 Hx) as Hm. rewrite nearest_units_Z in Hm by done.
  unfold Qle, inject_Z. cbn [Qnum Qden]. lia.
Qed.

Lemma at_least_weaken (c c' : Z) (d : F64.double) :
  (c' ≤ c)%Z → Spec64.at_least c d → Spec64.at_least c' d.
Proof.
  intros Hc. destruct d as [|[]|v]; cbn [Spec64.at_least]; try done.
  intros Hv. apply Qle_trans with (inject_Z c); [|done]. by rewrite <- Zle_Qle.
Qed.

Lemma at_least_nonzero (d : F64.double) : Spec64.at_least 1 d → d ≠ F64.zero.
Proof.
  destruct d as [|[]|v]; cbn [Spec64.at_least]; try done.
  intros Hv [= ->]. done.
Qed.

Lemma add_at_least (a b : Z) (x y : F64.double) :
  (0 ≤ a)%Z → (0 ≤ b)%Z → (a + b < 2 ^ 53)%Z →
  Spec64.at_least a x → Spec64.at_least b y → Spec64.at_least (a + b) (F64.add x y).
Proof.
  intros Ha Hb Hab.
  destruct x as [|[]|u]; destruct y as [|[]|v]; cbn [Spec64.at_least F64.add Bool.eqb];
    try done.
  intros Hu Hv. apply round_at_least; [lia|]. rewrite inject_Z_plus. lra.
Qed.

Lemma reduce_sum_at_least (arr : list F64.double) (i : Z) (acc : F64.double) :
  (0 ≤ i)%Z → (i + Z.of_nat (length arr) < 2 ^ 53)%Z →
  Spec64.at_least i acc → Forall (Spec64.at_least 1) arr →
  Spec64.at_least (i + Z.of_nat (length arr)) (fold_left F64.add arr acc).
Proof.
  intros Hi Hlen Hacc Harr. revert i acc Hi Hlen Hacc.
  induction Harr as [|x arr Hx _ IH]; intros i acc Hi Hlen Hacc.
  - cbn [fold_left length]. by rewrite Z.add_0_r.
  - cbn [fold_left]. rewrite length_cons, Nat2Z.inj_succ in Hlen |- *.
    replace (i + Z.succ (Z.of_nat (length arr)))%Z
      with ((i + 1) + Z.of_nat (length arr))%Z by lia.
    apply IH; [lia | lia |]. apply add_at_least; try done; lia.
Qed.

Lemma div_at_least (n : Z) (x : F64.double) :
  (1 ≤ n < 2 ^ 53)%Z → Spec64.at_least n x → Spec64.at_least 1 (F64.div x (F64.of_Z n)).
Proof.
  intros Hn. rewrite of_Z_exact by lia.
  assert (Hpos : (0 < inject_Z n)%Q).
  { change 0%Q with (inject_Z 0). rewrite <- Zlt_Qlt. lia. }
  assert (Hq : Qeq_bool (inject_Z n) 0 = false).
  { destruct (Qeq_bool (inject_Z n) 0) eqn:Hq; [|done].
    apply Qeq_bool_iff in Hq. rewrite Hq in Hpos. done. }
  assert (Hs : F64.negative_value (inject_Z n) = false).
  { unfold F64.negative_value. apply negb_false_iff, Qle_bool_iff. lra. }
  destruct x as [|[]|v]; cbn [Spec64.at_least F64.div]; try done.
  - by rewrite Hs.
  - intros Hv. rewrite Hq. apply round_at_least; [lia|].
    apply Qle_shift_div_l; [done|]. by rewrite Qmult_1_l.
Qed.

Lemma avg64_at_least1 (arr : list F64.double) :
  arr ≠ [] → (Z.of_nat (length arr) < 2 ^ 53)%Z → Forall (Spec64.at_least 1) arr →
  Spec64.at_least 1 (Hook64.avg arr).
Proof.
  intros Hne Hlen Hall. unfold Hook64.avg.
  destruct arr as [|x arr]; [done|].
  change (0 <? length (x :: arr))%nat with true. cbv iota.
  unfold F64.of_nat. apply div_at_least.
  - rewrite length_cons, Nat2Z.inj_succ in Hlen |- *. lia.
  - unfold F64.reduce_sum.
    apply (reduce_sum_at_least (x :: arr) 0 F64.zero); try done.
Qed.

Lemma avg64_zero_or_ge1 (arr : list F64.double) :
  (Z.of_nat (length arr) < 2 ^ 53)%Z → Forall (Spec64.at_least 1) arr →
  Spec64.zero_or_ge1 (Hook64.avg arr).
Proof.
  intros Hlen H. destruct arr as [|x arr]; [by left|]. right. by apply avg64_at_least1.
Qed.

(** [toFixed] followed by [parseFloat]. *)

Lemma fixed_ge1 (digits : nat) (x : Q) : (1 <= x)%Q → (1 <= F64.fixed digits x)%Q.
Proof.
  intros Hx. unfold F64.fixed, Num.round_half_away.
  set (p := (10 ^ Z.of_nat digits)%Z).
  assert (Hp : (0 < p)%Z) by (apply Z.pow_pos_nonneg; lia).
  assert (Hpq : (0 < inject_Z p)%Q).
  { change 0%Q with (inject_Z 0). by rewrite <- Zlt_Qlt. }
  assert (H0 : (0 <= x * inject_Z p)%Q).
  { apply Qmult_le_0_compat; lra. }
  apply Qle_bool_iff in H0. rewrite H0.
  assert (Hf : (p ≤ Qfloor (x * inject_Z p + (1 # 2)))%Z).
  { rewrite <- (Qfloor_Z p) at 1. apply Qfloor_resp_le.
    assert (inject_Z p <= x * inject_Z p)%Q; [|lra].
    rewrite <- (Qmult_1_l (inject_Z p)) at 1. apply Qmult_le_compat_r; lra. }
  revert Hf. generalize (Qfloor (x * inject_Z p + (1 # 2))). intros n Hn.
  unfold Qle. cbn [Qnum Qden]. rewrite Z2Pos.id by done. lia.
Qed.

Lemma fixed_zero (digits : nat) : (F64.fixed digits 0 == 0)%Q.
Proof.
  unfold F64.fixed, Num.round_half_away.
  assert (H0 : (0 * inject_Z (10 ^ Z.of_nat digits) == 0)%Q) by ring.
  assert (Hb : Qle_bool 0 (0 * inject_Z (10 ^ Z.of_nat digits)) = true).
  { apply Qle_bool_iff. rewrite H0. done. }
  rewrite Hb.
  assert (Hf : Qfloor (0 * inject_Z (10 ^ Z.of_nat digits) + (1 # 2)) = 0%Z).
  { assert (H1 : (0 * inject_Z (10 ^ Z.of_nat digits) + (1 # 2) == 1 # 2)%Q) by ring.
    by rewrite (Qfloor_comp _ _ H1). }
  rewrite Hf. done.
Qed.

Lemma toFixed_zero (digits : nat) : F64.toFixed digits F64.zero = F64.zero.
Proof.
  unfold F64.toFixed, F64.zero.
  change (Qle_bool (inject_Z (10 ^ 21)) 0) with false.
  change (Qle_bool 0 (inject_Z (- 10 ^ 21))) with false. cbn [orb].
  rewrite (round_comp _ _ (fixed_zero digits)). by apply (round_Z 0).
Qed.

Lemma toFixed_at_least1 (digits : nat) (x : F64.double) :
  Spec64.at_least 1 x → Spec64.at_least 1 (F64.toFixed digits x).
Proof.
  destruct x as [|[]|v]; cbn [Spec64.at_least F64.toFixed]; try done.
  intros Hv. destruct (_ || _); [done|].
  apply round_at_least; [lia|]. by apply fixed_ge1.
Qed.

Lemma toFixed_eq0 (digits : nat) (x : F64.double) :
  Spec64.zero_or_ge1 x → F64.toFixed digits x = F64.zero ↔ x = F64.zero.
Proof.
  intros [-> | Hx].
  - by rewrite toFixed_zero.
  - split; intros H0.
    + apply (toFixed_at_least1 digits) in Hx. by apply at_least_nonzero in Hx.
    + by apply at_least_nonzero in Hx.
Qed.

(** ** Manager summaries in binary64 *)

Lemma insert_desc64_perm x l : Hook64.insert_desc x l ≡ₚ x :: l.
Proof.
  induction l as [|y l IH]; simpl; [done|].
  destruct (Hook64.in_order x y); [done|]. rewrite IH. apply perm_swap.
Qed.

Lemma sort_desc64_perm l : Hook64.sort_desc l ≡ₚ l.
Proof.
  induction l as [|x l IH]; simpl; [done|].
  rewrite insert_desc64_perm. by constructor.
Qed.

Lemma managerSummaries64_elem rs s :
  s ∈ Hook64.managerSummaries rs ↔
  ∃ k, s = Hook64.summarise (k, Spec.by_manager k rs) ∧ Spec.by_manager k rs ≠ [].
Proof.
  unfold Hook64.managerSummaries. rewrite sort_desc64_perm, list_elem_of_fmap. split.
  - intros ([k g] & -> & [-> Hne]%managerGroups_elem). by exists k.
  - intros (k & -> & Hne). exists (k, Spec.by_manager k rs).
    split; [done|]. by apply managerGroups_elem.
Qed.

Lemma push_non_null64 (P : F64.double → Prop) fields acc :
  Forall P acc →
  Forall (fun s => ∀ v, s = Some v → P (F64.of_Z v)) fields →
  Forall P (fold_left Hook64.push_non_null fields acc)
  ∧ (length (fold_left Hook64.push_non_null fields acc) ≤ length acc + length fields)%nat.
Proof.
  intros Hacc Hf. revert acc Hacc. induction Hf as [|s fields Hs _ IH]; intros acc Hacc.
  - split; [done | simpl; lia].
  - cbn [fold_left length].
    assert (Hstep : Forall P (Hook64.push_non_null acc s)).
    { destruct s as [v|]; simpl; [|done].
      apply Forall_app. split; [done|]. constructor; [by apply Hs | constructor]. }
    destruct (IH _ Hstep) as [H1 H2]. split; [done|].
    assert (length (Hook64.push_non_null acc s) ≤ length acc + 1)%nat; [|lia].
    destruct s; simpl; [rewrite length_app; simpl|]; lia.
Qed.

Lemma bucket_step64 (P : F64.double → Prop) b r :
  (∀ k v, get_score k r = Some v → P (F64.of_Z v)) →
  Spec64.buckets_all P b →
  Spec64.buckets_all P (Hook64.bucket_step b r)
  ∧ (length (Hook64.teamLeadershipScores (Hook64.bucket_step b r))
     ≤ length (Hook64.teamLeadershipScores b) + 5)%nat
  ∧ (length (Hook64.resultsOrientationScores (Hook64.bucket_step b r))
     ≤ length (Hook64.resultsOrientationScores b) + 5)%nat
  ∧ (length (Hook64.culturalFitScores (Hook64.bucket_step b r))
     ≤ length (Hook64.culturalFitScores b) + 5)%nat.
Proof.
  intros Hr (Htl & Hro & Hcf). unfold Spec64.buckets_all, Hook64.bucket_step.
  cbn [Hook64.teamLeadershipScores Hook64.resultsOrientationScores Hook64.culturalFitScores].
  assert (Hfields : ∀ fields, Forall (fun s => ∃ k, s = get_score k r) fields →
            Forall (fun s => ∀ v, s = Some v → P (F64.of_Z v)) fields).
  { intros fields Hf. eapply Forall_impl; [exact Hf|]. intros s [k ->] v Hv. by apply (Hr k). }
  assert (H1 : Forall (fun s => ∀ v, s = Some v → P (F64.of_Z v))
                 [empowers_team_score r; mentors_coaches_score r;
                  effective_direction_score r; establishes_rapport_score r;
                  sets_clear_goals_score r]).
  { apply Hfields. repeat constructor;
      [by exists k_empowers_team | by exists k_mentors_coaches
      | by exists k_effective_direction | by exists k_establishes_rapport
      | by exists k_sets_clear_goals]. }
  assert (H2 : Forall (fun s => ∀ v, s = Some v → P (F64.of_Z v))
                 [open_to_ideas_score r; sense_of_urgency_score r;
                  analyzes_change_score r; final_say_score r]).
  { apply Hfields. repeat constructor;
      [by exists k_open_to_ideas | by exists k_sense_of_urgency
      | by exists k_analyzes_change | by exists k_final_say]. }
  assert (H3 : Forall (fun s => ∀ v, s = Some v → P (F64.of_Z v))
                 [confidence_integrity_score r; patient_humble_score r;
                  flat_collaborative_score r; approachable_score r]).
  { apply Hfields. repeat constructor;
      [by exists k_confidence_integrity | by exists k_patient_humble
      | by exists k_flat_collaborative | by exists k_approachable]. }
  destruct (push_non_null64 P _ _ Htl H1) as [Ha1 Hb1].
  destruct (push_non_null64 P _ _ Hro H2) as [Ha2 Hb2].
  destruct (push_non_null64 P _ _ Hcf H3) as [Ha3 Hb3].
  cbn [length] in Hb1, Hb2, Hb3.
  split; [done|]. split; [lia|]. split; lia.
Qed.

Lemma buckets64_fold (P : F64.double → Prop) group b :
  (∀ r k v, r ∈ group → get_score k r = Some v → P (F64.of_Z v)) →
  Spec64.buckets_all P b →
  Spec64.buckets_all P (fold_left Hook64.bucket_step group b)
  ∧ (length (Hook64.teamLeadershipScores (fold_left Hook64.bucket_step group b))
     ≤ length (Hook64.teamLeadershipScores b) + 5 * length group)%nat
  ∧ (length (Hook64.resultsOrientationScores (fold_left Hook64.bucket_step group b))
     ≤ length (Hook64.resultsOrientationScores b) + 5 * length group)%nat
  ∧ (length (Hook64.culturalFitScores (fold_left Hook64.bucket_step group b))
     ≤ length (Hook64.culturalFitScores b) + 5 * length group)%nat.
Proof.
  revert b. induction group as [|r group IH]; intros b Hg Hb.
  - cbn [fold_left length]. split; [done|]. split; [lia|]. split; lia.
  - cbn [fold_left].
    assert (Hr : ∀ k v, get_score k r = Some v → P (F64.of_Z v)).
    { intros k v. apply Hg. by left. }
    destruct (bucket_step64 P b r Hr Hb) as (Hall & L1 & L2 & L3).
    destruct (IH (Hook64.bucket_step b r)) as (Hall' & L1' & L2' & L3'); [|done|].
    { intros r' k v Hr'. apply Hg. by right. }
    split; [done|]. rewrite length_cons. split; [lia|]. split; lia.
Qed.

Lemma of_Z_at_least1 (v : Z) : (1 ≤ v)%Z → Spec64.at_least 1 (F64.of_Z v).
Proof. intros Hv. apply round_at_least; [lia|]. by rewrite <- Zle_Qle. Qed.

Lemma category_averages64 group :
  Spec.scores_positive group → Spec64.array_length group →
  Spec64.zero_or_ge1 (Hook64.avgTeamLeadership group)
  ∧ Spec64.zero_or_ge1 (Hook64.avgResultsOrientation group)
  ∧ Spec64.zero_or_ge1 (Hook64.avgCulturalFit group).
Proof.
  intros Hpos Hlen. unfold Spec64.array_length in Hlen.
  destruct (buckets64_fold (Spec64.at_least 1) group (Hook64.mkBuckets [] [] []))
    as ((Htl & Hro & Hcf) & L1 & L2 & L3).
  { intros r k v Hr Hv. apply of_Z_at_least1. by apply (Hpos r k v). }
  { repeat split; constructor. }
  cbn [Hook64.teamLeadershipScores Hook64.resultsOrientationScores
       Hook64.culturalFitScores length] in L1, L2, L3.
  assert (Hb : (2 ^ 32 * 5 < 2 ^ 53)%Z) by done.
  unfold Hook64.avgTeamLeadership, Hook64.avgResultsOrientation, Hook64.avgCulturalFit,
    Hook64.buckets.
  repeat split; (apply avg64_zero_or_ge1; [lia | done]).
Qed.

Lemma positive_filter64 (l : list F64.double) :
  Forall Spec64.zero_or_ge1 l →
  List.filter (fun s => F64.ltb F64.zero s) l
  = List.filter (fun s => negb (F64.eqb s F64.zero)) l
  ∧ Forall (Spec64.at_least 1) (List.filter (fun s => F64.ltb F64.zero s) l)
  ∧ (List.filter (fun s => F64.ltb F64.zero s) l = [] ↔ Forall (fun x => x = F64.zero) l).
Proof.
  induction 1 as [|x l Hx Hl (IH1 & IH2 & IH3)]; cbn [List.filter].
  - repeat split; auto.
  - rewrite <- IH1. destruct Hx as [-> | Hx].
    + change (F64.ltb F64.zero F64.zero) with false.
      change (negb (F64.eqb F64.zero F64.zero)) with false. cbv iota.
      repeat split; auto.
      * intros Hnil. constructor; [done | by apply IH3].
      * intros Hall. inversion Hall; subst. by apply IH3.
    + assert (Hlt : F64.ltb F64.zero x = true ∧ negb (F64.eqb x F64.zero) = true).
      { destruct x as [|[]|v]; cbn [Spec64.at_least] in Hx; try done.
        unfold F64.ltb, F64.eqb, F64.zero.
        assert (H0 : Qle_bool v 0 = false).
        { destruct (Qle_bool v 0) eqn:Hle; [|done].
          apply Qle_bool_iff in Hle. change (inject_Z 1) with 1%Q in Hx. lra. }
        assert (H1 : Qeq_bool v 0 = false).
        { destruct (Qeq_bool v 0) eqn:Heq; [|done].
          apply Qeq_bool_iff in Heq. change (inject_Z 1) with 1%Q in Hx. lra. }
        by rewrite H0, H1. }
      destruct Hlt as [-> ->]. repeat split; auto.
      * done.
      * intros Hall. inversion Hall as [|?? H0 ?]; subst. by apply at_least_nonzero in Hx.
Qed.

Lemma avg64_mean_of (arr : list F64.double) : Hook64.avg arr = Spec64.mean_of arr.
Proof. by destruct arr. Qed.

Lemma overallScore64_rule group :
  Spec.scores_positive group → Spec64.array_length group →
  Spec64.zero_or_ge1 (Hook64.overallScore group)
  ∧ (Hook64.overallScore group = F64.zero
     ↔ Hook64.avgTeamLeadership group = F64.zero
       ∧ Hook64.avgResultsOrientation group = F64.zero
       ∧ Hook64.avgCulturalFit group = F64.zero)
  ∧ Hook64.overallScore group
    = Spec64.nonzero_mean
        [Hook64.avgTeamLeadership group; Hook64.avgResultsOrientation group;
         Hook64.avgCulturalFit group].
Proof.
  intros Hpos Hlen. destruct (category_averages64 _ Hpos Hlen) as (Htl & Hro & Hcf).
  assert (Hall : Forall Spec64.zero_or_ge1
            [Hook64.avgTeamLeadership group; Hook64.avgResultsOrientation group;
             Hook64.avgCulturalFit group])
    by (constructor; [done|]; constructor; [done|]; constructor; [done|]; constructor).
  destruct (positive_filter64 _ Hall) as (Heq & Hge & Hnil).
  unfold Hook64.overallScore, Spec64.nonzero_mean. rewrite <- Heq, <- avg64_mean_of.
  set (kept := List.filter (fun s => F64.ltb F64.zero s) _) in *.
  assert (Hshort : (Z.of_nat (length kept) < 2 ^ 53)%Z).
  { assert (length kept ≤ 3)%nat; [|lia]. subst kept.
    cbn [List.filter]. repeat (destruct (F64.ltb F64.zero _)); simpl; lia. }
  split; [by apply avg64_zero_or_ge1|]. split; [|done].
  split.
  - intros H0.
    assert (Hf : kept = []).
    { destruct kept as [|y l] eqn:Hk; [done|]. exfalso.
      assert (H1 : Spec64.at_least 1 (Hook64.avg (y :: l))) by (by apply avg64_at_least1).
      by apply at_least_nonzero in H1. }
    apply Hnil in Hf. inversion Hf as [|?? H1 Hf1]; subst.
    inversion Hf1 as [|?? H2 Hf2]; subst. inversion Hf2; subst. done.
  - intros (H1 & H2 & H3).
    assert (Hf : Forall (fun x => x = F64.zero)
                   [Hook64.avgTeamLeadership group; Hook64.avgResultsOrientation group;
                    Hook64.avgCulturalFit group])
      by (constructor; [done|]; constructor; [done|]; constructor; [done|]; constructor).
    apply Hnil in Hf. rewrite Hf. done.
Qed.

Lemma by_manager_facts k rs :
  (Spec.scores_positive rs → Spec.scores_positive (Spec.by_manager k rs))
  ∧ (Spec64.array_length rs → Spec64.array_length (Spec.by_manager k rs)).
Proof.
  split.
  - intros H r k' v Hr. apply (H r k' v).
    apply list_elem_of_In, filter_In in Hr as [Hr _]. by apply list_elem_of_In.
  - unfold Spec64.array_length, Spec.by_manager. intros H.
    pose proof (List_filter_length_le (fun r => String.eqb (manager_name r) k) rs). lia.
Qed.

(** C1 (amended): the overall score of a summary is the mean of the
    category averages that are greater than 0, computed in binary64 and
    rounded to 2 decimals as [toFixed] rounds the binary64 value (0 when
    no category average is greater than 0).  When every non-null score is
    at least 1, in an array of fewer than 2^32 responses, it is 0 exactly
    when the three category averages are 0 (before and after rounding),
    and otherwise the rounded mean of the non-zero category averages. *)
Theorem overall_score_rule (rs : list AppraisalResponse) (s : Hook64.ManagerSummary) :
  s ∈ Hook64.managerSummaries rs →
  Hook64.overall_score s
  = F64.toFixed 2
      (Spec64.mean_of
         (List.filter (fun x => F64.ltb F64.zero x)
            [Hook64.avgTeamLeadership (Hook64.responses s);
             Hook64.avgResultsOrientation (Hook64.responses s);
             Hook64.avgCulturalFit (Hook64.responses s)]))
  ∧ (Spec.scores_positive rs → Spec64.array_length rs →
     (Hook64.overall_score s = F64.zero
      ↔ Hook64.avgTeamLeadership (Hook64.responses s) = F64.zero
        ∧ Hook64.avgResultsOrientation (Hook64.responses s) = F64.zero
        ∧ Hook64.avgCulturalFit (Hook64.responses s) = F64.zero)
     ∧ (Hook64.overall_score s = F64.zero
        ↔ Hook64.avg_team_leadership s = F64.zero
          ∧ Hook64.avg_results_orientation s = F64.zero
          ∧ Hook64.avg_cultural_fit s = F64.zero)
     ∧ Hook64.overall_score s
       = F64.toFixed 2
           (Spec64.nonzero_mean
              [Hook64.avgTeamLeadership (Hook64.responses s);
               Hook64.avgResultsOrientation (Hook64.responses s);
               Hook64.avgCulturalFit (Hook64.responses s)])).
Proof.
  intros (k & -> & Hne)%managerSummaries64_elem.
  cbn [Hook64.summarise Hook64.overall_score Hook64.responses Hook64.avg_team_leadership
       Hook64.avg_results_orientation Hook64.avg_cultural_fit].
  split; [unfold Hook64.overallScore; by rewrite avg64_mean_of|]. intros Hpos Hlen.
  apply (proj1 (by_manager_facts k rs)) in Hpos.
  apply (proj2 (by_manager_facts k rs)) in Hlen.
  destruct (overallScore64_rule _ Hpos Hlen) as (Hov & Hzero & Hmean).
  destruct (category_averages64 _ Hpos Hlen) as (Htl & Hro & Hcf).
  rewrite !toFixed_eq0 by done. rewrite <- Hmean. done.
Qed.

Lemma overall_score_rule_witness :
  Hook64.summarise ("Ann", Sample64.tie) ∈ Hook64.managerSummaries Sample64.tie
  ∧ Spec.scores_positive Sample64.tie
  ∧ Spec64.array_length Sample64.tie
  ∧ Hook64.overall_score (Hook64.summarise ("Ann", Sample64.tie))
    = F64.toFixed 2
        (Spec64.nonzero_mean
           [Hook64.avgTeamLeadership Sample64.tie; Hook64.avgResultsOrientation Sample64.tie;
            Hook64.avgCulturalFit Sample64.tie])
  ∧ Hook64.avgCulturalFit Sample64.tie = F64.zero
  ∧ Hook64.overall_score (Hook64.summarise ("Ann", Sample64.tie)) = F64.literal 132 100.
Proof.
  assert (Hin : Hook64.summarise ("Ann", Sample64.tie) ∈ Hook64.managerSummaries Sample64.tie).
  { apply list_elem_of_In. left. reflexivity. }
  assert (Hpos : Spec.scores_positive Sample64.tie).
  { intros r k v Hr Hv. apply list_elem_of_In in Hr.
    destruct Hr as [<- | []]; destruct k; simpl in Hv; inversion Hv; subst; lia. }
  assert (Hlen : Spec64.array_length Sample64.tie) by (vm_compute; reflexivity).
  split; [exact Hin|]. split; [exact Hpos|]. split; [exact Hlen|].
  destruct (overall_score_rule Sample64.tie (Hook64.summarise ("Ann", Sample64.tie)) Hin)
    as (_ & Hrule).
  destruct (Hrule Hpos Hlen) as (_ & _ & Hmean).
  split; [exact Hmean|]. split; vm_compute; reflexivity.
Defined.

(** C1 (as stated) fails.  One response with the single score -1 gives a
    team-leadership average of -1 and an overall score of 0, and the mean
    of the non-zero category averages is -1.  On the scale, the category
    averages 1.4 and 1.25 give the overall score 1.32, and their mean
    1.325 is written 1.33 with 2 decimals. *)
Lemma overall_score_claim_fails :
  (Hook64.managerSummaries [Sample.with_empowers "Ann" (-1)]
   = [Hook64.summarise ("Ann", [Sample.with_empowers "Ann" (-1)])]
   ∧ Hook64.overall_score (Hook64.summarise ("Ann", [Sample.with_empowers "Ann" (-1)]))
     = F64.zero
   ∧ Hook64.avgTeamLeadership [Sample.with_empowers "Ann" (-1)] = F64.of_Z (-1)
   ∧ Hook64.avg_team_leadership (Hook64.summarise ("Ann", [Sample.with_empowers "Ann" (-1)]))
     = F64.of_Z (-1)
   ∧ F64.toFixed 2
       (Spec64.nonzero_mean
          [Hook64.avgTeamLeadership [Sample.with_empowers "Ann" (-1)];
           Hook64.avgResultsOrientation [Sample.with_empowers "Ann" (-1)];
           Hook64.avgCulturalFit [Sample.with_empowers "Ann" (-1)]]) = F64.of_Z (-1)
   ∧ F64.of_Z (-1) ≠ F64.zero
   ∧ ¬ (Hook64.overall_score (Hook64.summarise ("Ann", [Sample.with_empowers "Ann" (-1)]))
        = F64.zero
        ↔ Hook64.avgTeamLeadership [Sample.with_empowers "Ann" (-1)] = F64.zero
          ∧ Hook64.avgResultsOrientation [Sample.with_empowers "Ann" (-1)] = F64.zero
          ∧ Hook64.avgCulturalFit [Sample.with_empowers "Ann" (-1)] = F64.zero))
  ∧ (Spec.scores_in_scale Sample64.tie
     ∧ map (fun s => (Hook64.avg_team_leadership s, Hook64.avg_results_orientation s,
                      Hook64.avg_cultural_fit s, Hook64.overall_score s))
         (Hook64.managerSummaries Sample64.tie)
       = [(F64.literal 14 10, F64.literal 125 100, F64.zero, F64.literal 132 100)]
     ∧ (Num.toFixed2 (avg [14 # 10; 125 # 100]) == 133 # 100)%Q
     ∧ F64.literal 132 100 ≠ F64.literal 133 100).
Proof.
  split.
  - repeat (split; [vm_compute; reflexivity|]).
    assert (Hne : F64.of_Z (-1) ≠ F64.zero) by (intros H; vm_compute in H; discriminate H).
    split; [exact Hne|].
    intros [H _].
    assert (H0 : Hook64.overall_score
                   (Hook64.summarise ("Ann", [Sample.with_empowers "Ann" (-1)]))
                 = F64.zero) by (vm_compute; reflexivity).
    destruct (H H0) as [Htl _]. vm_compute in Htl. discriminate Htl.
  - split.
    { intros r k v Hr Hv. apply list_elem_of_In in Hr.
      destruct Hr as [<- | []]; destruct k; simpl in Hv; inversion Hv; subst; lia. }
    repeat (split; [vm_compute; reflexivity|]).
    intros H. vm_compute in H. discriminate H.
Qed.

(** ** Competency scores in binary64 *)

Lemma non_null64_column k rs :
  Hook64.non_null (map (get_score k) rs) = map F64.of_Z (Spec.column k rs).
Proof.
  unfold Spec.column. induction rs as [|r rs IH]; simpl; [done|].
  destruct (get_score k r); simpl; by rewrite IH.
Qed.

Lemma Zsum_abs_nonneg (l : list Z) : (0 ≤ Spec.Zsum (map Z.abs l))%Z.
Proof. induction l as [|v l IH]; simpl; lia. Qed.

(** A sum of integers is computed exactly as long as the absolute values
    add up to less than 2^53. *)
Lemma reduce_sum_exact (l : list Z) (a : Z) :
  (Z.abs a + Spec.Zsum (map Z.abs l) < 2 ^ 53)%Z →
  fold_left F64.add (map F64.of_Z l) (F64.Finite (inject_Z a))
  = F64.Finite (inject_Z (a + Spec.Zsum l)).
Proof.
  revert a. induction l as [|v l IH]; intros a Ha.
  - cbn [map fold_left Spec.Zsum fold_right]. by rewrite Z.add_0_r.
  - cbn [map fold_left Spec.Zsum fold_right] in Ha |- *.
    pose proof (Zsum_abs_nonneg l) as Hl. fold (Spec.Zsum (map Z.abs l)) in Ha.
    rewrite of_Z_exact by lia. cbn [F64.add].
    assert (Hq : (inject_Z a + inject_Z v == inject_Z (a + v))%Q)
      by (by rewrite inject_Z_plus).
    rewrite (round_comp _ _ Hq), round_Z by lia.
    fold (Spec.Zsum l). rewrite IH by lia. do 2 f_equal. lia.
Qed.

Lemma column_length k rs : (length (Spec.column k rs) ≤ length rs)%nat.
Proof.
  unfold Spec.column. induction rs as [|r rs IH]; cbn [omap list_omap length]; [lia|].
  destruct (get_score k r); cbn [length]; lia.
Qed.

Lemma round_zero : F64.round 0 = F64.zero.
Proof. apply (round_Z 0). done. Qed.

(** The average of a column is its mean, rounded once. *)
Lemma column_average64 k rs :
  Spec64.array_length rs → Spec64.exact_sum (Spec.column k rs) →
  (if (0 <? length (Hook64.non_null (map (get_score k) rs)))%nat
   then F64.div (F64.reduce_sum (Hook64.non_null (map (get_score k) rs)))
          (F64.of_nat (length (Hook64.non_null (map (get_score k) rs))))
   else F64.zero) = Spec64.mean k rs.
Proof.
  unfold Spec64.array_length, Spec64.exact_sum, Spec64.mean, Spec.column_mean.
  intros Hlen Hsum. rewrite non_null64_column. pose proof (column_length k rs) as Hcl.
  destruct (Spec.column k rs) as [|v l] eqn:Hc.
  - cbn [map length Nat.ltb Nat.leb]. by rewrite round_zero.
  - rewrite length_map. change (0 <? length (v :: l))%nat with true. cbv iota.
    unfold F64.reduce_sum, F64.zero. change 0%Q with (inject_Z 0).
    rewrite reduce_sum_exact by (simpl Z.abs; lia). rewrite Z.add_0_l.
    unfold F64.of_nat.
    assert (Hn : (0 < Z.of_nat (length (v :: l)) < 2 ^ 53)%Z).
    { rewrite length_cons in Hcl |- *. split; [lia|].
      apply Z.lt_trans with (2 ^ 32)%Z; [lia | done]. }
    rewrite of_Z_exact by lia. cbn [F64.div].
    assert (Hq : Qeq_bool (inject_Z (Z.of_nat (length (v :: l)))) 0 = false).
    { destruct (Qeq_bool _ 0) eqn:Hq; [|done]. apply Qeq_bool_iff in Hq.
      unfold Qeq, inject_Z in Hq. cbn [Qnum Qden] in Hq. lia. }
    by rewrite Hq.
Qed.

Lemma competencyScore64_rounded rs comp :
  Spec64.array_length rs → Spec64.exact_sum (Spec.column comp.1 rs) →
  Hook64.competencyScore rs comp = Spec64.rounded_score rs comp.
Proof.
  intros Hlen Hsum.
  unfold Hook64.competencyScore, Spec64.rounded_score, Spec64.percent_of. cbv zeta.
  by rewrite (column_average64 _ _ Hlen Hsum).
Qed.

(** Scores on the scale 1-5, in an array, have exact sums. *)
Lemma in_scale_exact_sum rs k :
  Spec.scores_in_scale rs → Spec64.array_length rs → Spec64.exact_sum (Spec.column k rs).
Proof.
  unfold Spec64.array_length, Spec64.exact_sum. intros Hs Hlen.
  assert (H : (Spec.Zsum (map Z.abs (Spec.column k rs)) ≤ 5 * Z.of_nat (length rs))%Z).
  { clear Hlen. unfold Spec.column. induction rs as [|r rs IH]; [simpl; lia|].
    assert (Hrs : Spec.scores_in_scale rs).
    { intros r' k' v Hr'. apply (Hs r' k' v). by right. }
    specialize (IH Hrs). cbn [omap list_omap]. rewrite length_cons, Nat2Z.inj_succ.
    destruct (get_score k r) as [v|] eqn:Hv.
    - assert (1 ≤ v ≤ 5)%Z by (apply (Hs r k v); [by left | done]).
      cbn [map Spec.Zsum fold_right]. fold (Spec.Zsum (map Z.abs (omap (get_score k) rs))).
      lia.
    - lia. }
  assert (5 * 2 ^ 32 < 2 ^ 53)%Z by done. lia.
Qed.

(** C6 (amended): [competencyScores] returns thirteen entries, one per
    competency of the catalog and in catalog order.  As long as the values
    of a competency add up exactly (the absolute values of a column stay
    below 2^53 in an array of fewer than 2^32 responses), the score of an
    entry is the mean of the non-null values of its key over the whole
    set, held as a binary64 number and rounded to 2 decimals, and its
    percentage is that number divided by 5 and multiplied by 100 in
    binary64, rounded to 1 decimal.  On the empty set every score and
    percentage is 0, and [managerSummaries] is empty. *)
Theorem competencyScores_catalog (rs : list AppraisalResponse) :
  length (Hook64.competencyScores rs) = 13%nat
  ∧ map Hook64.cs_name (Hook64.competencyScores rs)
    = ["Empowers Team"; "Mentors & Coaches"; "Effective Direction";
       "Establishes Rapport"; "Sets Clear Goals"; "Open to Ideas";
       "Sense of Urgency"; "Analyzes Change"; "Final Say";
       "Confidence & Integrity"; "Patient & Humble"; "Flat & Collaborative";
       "Approachable"]
  ∧ (Spec64.array_length rs → (∀ k, Spec64.exact_sum (Spec.column k rs)) →
     Hook64.competencyScores rs = map (Spec64.rounded_score rs) competencies)
  ∧ Forall (fun c => Hook64.score c = F64.zero ∧ Hook64.cs_percentage c = F64.zero)
      (Hook64.competencyScores [])
  ∧ Hook64.managerSummaries [] = [].
Proof.
  split; [reflexivity|]. split; [reflexivity|]. split.
  - intros Hlen Hsum. unfold Hook64.competencyScores. apply map_ext. intros comp.
    by apply competencyScore64_rounded.
  - split; [|reflexivity].
    assert (Hrow : ∀ comp, Hook64.score (Hook64.competencyScore [] comp) = F64.zero
                           ∧ Hook64.cs_percentage (Hook64.competencyScore [] comp) = F64.zero).
    { intros comp. split; vm_compute; reflexivity. }
    unfold Hook64.competencyScores. apply Forall_forall.
    intros c (comp & -> & _)%list_elem_of_fmap. apply Hrow.
Qed.

Lemma competencyScores_catalog_witness :
  Spec64.array_length Sample64.sixteen
  ∧ (∀ k, Spec64.exact_sum (Spec.column k Sample64.sixteen))
  ∧ Hook64.competencyScores Sample64.sixteen
    = map (Spec64.rounded_score Sample64.sixteen) competencies
  ∧ map Hook64.score (take 1 (Hook64.competencyScores Sample64.sixteen))
    = [F64.literal 144 100].
Proof.
  assert (Hlen : Spec64.array_length Sample64.sixteen) by (vm_compute; reflexivity).
  assert (Hsum : ∀ k, Spec64.exact_sum (Spec.column k Sample64.sixteen)).
  { intros k. destruct k; vm_compute; reflexivity. }
  split; [exact Hlen|]. split; [exact Hsum|].
  destruct (competencyScores_catalog Sample64.sixteen) as (_ & _ & Hrule & _).
  split; [exact (Hrule Hlen Hsum)|]. vm_compute. reflexivity.
Defined.

(** C6 (as stated) fails: with the values 1, 1 and 2 for one competency,
    its mean is 4/3 and its score is 1.33. *)
Lemma competencyScores_score_not_mean :
  map Hook64.score (take 1 (Hook64.competencyScores Sample64.thirds))
  = [F64.literal 133 100]
  ∧ Spec64.mean k_empowers_team Sample64.thirds = F64.round (4 # 3)
  ∧ F64.literal 133 100 ≠ F64.round (4 # 3)
  ∧ Hook64.competencyScores Sample64.thirds
    ≠ map (Spec64.claimed_score Sample64.thirds) competencies.
Proof.
  assert (Hscore : map Hook64.score (take 1 (Hook64.competencyScores Sample64.thirds))
                   = [F64.literal 133 100]) by (vm_compute; reflexivity).
  assert (Hmean : Spec64.mean k_empowers_team Sample64.thirds = F64.round (4 # 3))
    by (vm_compute; reflexivity).
  assert (Hne : F64.literal 133 100 ≠ F64.round (4 # 3))
    by (intros H; vm_compute in H; discriminate H).
  split; [exact Hscore|]. split; [exact Hmean|]. split; [exact Hne|].
  intros H. apply (f_equal (fun l => map Hook64.score (take 1 l))) in H.
  rewrite Hscore in H. cbn [competencies map take Spec64.claimed_score Hook64.score fst] in H.
  rewrite Hmean in H.
  assert (Hinj : ∀ a b : F64.double, [a] = [b] → a = b) by (intros a b [= ->]; reflexivity).
  exact (Hne (Hinj _ _ H)).
Qed.

(** The percentage is rounded from the binary64 product: for sixteen
    values that add up to 23 the mean is 1.4375, the percentage is held as
    a number just below 28.75, and the entry says 28.7; the decimal 28.75
    itself would be written 28.8. *)
Lemma competencyScores_below_tie :
  map Hook64.cs_percentage (take 1 (Hook64.competencyScores Sample64.sixteen))
  = [F64.literal 287 10]
  ∧ (Spec.column_mean k_empowers_team Sample64.sixteen / 5 * 100 == 2875 # 100)%Q
  ∧ (F64.fixed 1 (2875 # 100) == 288 # 10)%Q
  ∧ F64.literal 287 10 ≠ F64.literal 288 10.
Proof.
  repeat (split; [vm_compute; reflexivity|]).
  intros H. vm_compute in H. discriminate H.
Qed.

(** ** The exporters' competency view in binary64 *)

(** C3 (amended): the exporters' competency view has the thirteen keys of
    the engine's, in another order, with the same display names except for
    [final_say_score] ("Final Say Balance" against "Final Say"); for each
    key both compute the same binary64 average, the engine's score is that
    average rounded to 2 decimals, the engine's percentage is the average
    divided by 5 and multiplied by 100, rounded to 1 decimal, and the
    exporters' percentage is the average divided by 4 and multiplied by
    100, not rounded.  The average is the mean of the column, rounded
    once, as long as the values add up exactly. *)
Theorem competency_views_related (rs : list AppraisalResponse) (k : ScoreKey) :
  map fst Exporter.competencies ≡ₚ map fst competencies
  ∧ Spec.name_in Exporter.competencies k
    = (if decide (k = k_final_say) then "Final Say Balance"
       else Spec.name_in competencies k)
  ∧ (k, Spec.name_in competencies k) ∈ competencies
  ∧ (k, Spec.name_in Exporter.competencies k) ∈ Exporter.competencies
  ∧ Hook64.score (Hook64.competencyScore rs (k, Spec.name_in competencies k))
    = F64.toFixed 2
        (Exporter64.avg
           (Exporter64.competencyRow rs (k, Spec.name_in Exporter.competencies k)))
  ∧ Hook64.cs_percentage (Hook64.competencyScore rs (k, Spec.name_in competencies k))
    = F64.toFixed 1
        (Spec64.percent_of 5
           (Exporter64.avg
              (Exporter64.competencyRow rs (k, Spec.name_in Exporter.competencies k))))
  ∧ Exporter64.percentage
      (Exporter64.competencyRow rs (k, Spec.name_in Exporter.competencies k))
    = Spec64.percent_of 4
        (Exporter64.avg
           (Exporter64.competencyRow rs (k, Spec.name_in Exporter.competencies k)))
  ∧ (Spec64.array_length rs → Spec64.exact_sum (Spec.column k rs) →
     Exporter64.avg (Exporter64.competencyRow rs (k, Spec.name_in Exporter.competencies k))
     = Spec64.mean k rs).
Proof.
  split; [apply competency_keys_perm|]. split; [apply competency_names|].
  split; [destruct k; apply list_elem_of_In; simpl; tauto|].
  split; [destruct k; apply list_elem_of_In; simpl; tauto|].
  split; [reflexivity|]. split; [reflexivity|]. split; [reflexivity|].
  intros Hlen Hsum. by apply column_average64.
Qed.

Lemma competency_views_related_witness :
  Spec64.array_length Sample64.thirds
  ∧ Spec64.exact_sum (Spec.column k_empowers_team Sample64.thirds)
  ∧ Exporter64.avg
      (Exporter64.competencyRow Sample64.thirds
         (k_empowers_team, Spec.name_in Exporter.competencies k_empowers_team))
    = Spec64.mean k_empowers_team Sample64.thirds
  ∧ Hook64.score
      (Hook64.competencyScore Sample64.thirds
         (k_empowers_team, Spec.name_in competencies k_empowers_team))
    = F64.literal 133 100.
Proof.
  assert (Hlen : Spec64.array_length Sample64.thirds) by (vm_compute; reflexivity).
  assert (Hsum : Spec64.exact_sum (Spec.column k_empowers_team Sample64.thirds))
    by (vm_compute; reflexivity).
  split; [exact Hlen|]. split; [exact Hsum|].
  destruct (competency_views_related Sample64.thirds k_empowers_team)
    as (_ & _ & _ & _ & _ & _ & _ & Hmean).
  split; [exact (Hmean Hlen Hsum)|]. vm_compute. reflexivity.
Defined.

(** C3 (as stated) fails: for one response whose only score is
    [empowers_team_score = 4], the two views list the competencies in
    different orders and names, and give "Empowers Team" the percentages
    80 (engine) and 100 (exporters). *)
Lemma competency_views_differ :
  Spec64.engine_view [Sample.with_empowers "Ann" 4]
  ≠ Spec64.exporter_view [Sample.with_empowers "Ann" 4]
  ∧ map (fun v => v.1.1) (Spec64.engine_view [Sample.with_empowers "Ann" 4])
    ≠ map (fun v => v.1.1) (Spec64.exporter_view [Sample.with_empowers "Ann" 4])
  ∧ map snd
      (List.filter (fun v => String.eqb v.1.1 "Empowers Team")
         (Spec64.engine_view [Sample.with_empowers "Ann" 4])) = [F64.of_Z 80]
  ∧ map snd
      (List.filter (fun v => String.eqb v.1.1 "Empowers Team")
         (Spec64.exporter_view [Sample.with_empowers "Ann" 4])) = [F64.of_Z 100]
  ∧ F64.of_Z 80 ≠ F64.of_Z 100
  ∧ "Final Say" ∈ map (fun v => v.1.1) (Spec64.engine_view [Sample.with_empowers "Ann" 4])
  ∧ "Final Say" ∉ map (fun v => v.1.1) (Spec64.exporter_view [Sample.with_empowers "Ann" 4]).
Proof.
  assert (He : map (fun v => v.1.1) (Spec64.engine_view [Sample.with_empowers "Ann" 4])
               = map snd competencies).
  { unfold Spec64.engine_view, Hook64.competencyScores. rewrite !map_map. reflexivity. }
  assert (Hx : map (fun v => v.1.1) (Spec64.exporter_view [Sample.with_empowers "Ann" 4])
               = map snd Exporter.competencies).
  { unfold Spec64.exporter_view, Exporter64.calculateCompetencyScores.
    rewrite !map_map. reflexivity. }
  rewrite He, Hx.
  assert (Hnames : map snd competencies ≠ map snd Exporter.competencies).
  { intros H. vm_compute in H. discriminate H. }
  split.
  { intros H. apply Hnames. rewrite <- He, <- Hx. by rewrite H. }
  split; [exact Hnames|].
  split; [vm_compute; reflexivity|]. split; [vm_compute; reflexivity|].
  split; [intros H; vm_compute in H; discriminate H|].
  split.
  - apply list_elem_of_In. simpl. tauto.
  - intros H%list_elem_of_In. simpl in H.
    repeat (destruct H as [H | H]; [discriminate H|]). exact H.
Qed.
